(** * Calculadora de métodos numéricos: a shallow embedding

    The JavaScript sources embedded here are the base class
    [NumericalMethod] (with its text evaluator [evaluateFunction]) and the
    eight methods derived from it: bisection, Newton-Raphson, fixed point,
    Gauss-Jacobi, Gauss-Seidel, Lagrange interpolation, numerical
    differentiation and numerical integration.

    JavaScript numbers are IEEE 754 binary64 values; they are embedded as
    Rocq's primitive floats, so every arithmetic step of the model is the
    one the program performs.  Loop counters and the integer parameters
    ([maxIterations], [n]) are kept as [Z] or [nat] and converted with
    [numZ] where the program uses them in arithmetic. *)

From Stdlib Require Import Floats ZArith List String Ascii Bool Lia.
From stdpp Require Import base list.
Import ListNotations.

Set Warnings "-inexact-float,-register-all".
Local Open Scope Z_scope.

(** ** JavaScript numbers *)

Module Num.

Definition num := float.

(** An integer-valued number (exact below [2^53]). *)
Definition numZ (z : Z) : num :=
if z <? 0 then PrimFloat.opp (PrimFloat.of_uint63 (Uint63.of_Z (- z)))
else PrimFloat.of_uint63 (Uint63.of_Z z).

(** The global [isNaN] applied to a number. *)
Definition isNaN (x : num) : bool := negb (PrimFloat.eqb x x).

Definition Math_abs (x : num) : num := PrimFloat.abs x.

(** [Math.max(a, b)]: NaN if either argument is NaN, and [+0] over [-0]. *)
Definition Math_max (a b : num) : num :=
if isNaN a then PrimFloat.nan
else if isNaN b then PrimFloat.nan
else if PrimFloat.ltb a b then b
else if PrimFloat.ltb b a then a
else match PrimFloat.classify a with
| NZero => b
| _ => a
end.

(** [Math.min(a, b)]: NaN if either argument is NaN, and [-0] under [+0]. *)
Definition Math_min (a b : num) : num :=
if isNaN a then PrimFloat.nan
else if isNaN b then PrimFloat.nan
else if PrimFloat.ltb a b then a
else if PrimFloat.ltb b a then b
else match PrimFloat.classify a with
| NZero => a
| _ => b
end.

(** [ToInt32]: truncate, wrap modulo [2^32], read as a signed word. *)
Definition ToInt32 (x : num) : Z :=
match Prim2SF x with
| S754_finite s m e =>
let mag := if (0 <=? e)%Z then Z.shiftl (Zpos m) e
else Z.shiftr (Zpos m) (- e) in
let v := (if s then - mag else mag) mod 2 ^ 32 in
if 2 ^ 31 <=? v then v - 2 ^ 32 else v
| _ => 0
end.

(** The number a template literal prints and the parser reads back:
[-0] prints as [0]; every other value reads back as itself. *)
Definition printed (x : num) : num :=
if PrimFloat.eqb x PrimFloat.zero then PrimFloat.zero else x.

End Num.
Export Num.

(** ** The host's expression evaluation

    [evaluateFunction] builds a text and hands it to the host through
    [Function('"use strict"; return (' + expression + ')')()].  The host is
    modelled on a fragment of JavaScript: decimal literals, identifiers,
    parentheses, member access, calls, the unary and binary [+ -], [* /],
    the bitwise [^] and the comma operator.  Whatever lies outside the
    fragment gives [HUnmodelled]: the model then says nothing. *)

Module Host.

(** A character of the text, or a number printed into it by a template
literal.  A printed number is never split or matched by the
rewriting steps (its characters contain no [x], no parenthesis and
no name of a function).  [evaluateFunction] prints it between
parentheses, and the power rewriting can only turn the closing one
into a comma; there the parser reads it back as [printed]. *)
Inductive sym : Type :=
| Ch (c : ascii)
| Lit (v : num).

Definition text := list sym.

Fixpoint chars (s : string) : text :=
match s with
| EmptyString => []
| String c s' => Ch c :: chars s'
end.

Inductive token : Type :=
| TNum (v : num)
| TId (s : string)
| TLParen | TRParen
| TPlus | TMinus | TStar | TSlash | TCaret
| TDot | TComma.

Definition code (c : ascii) : nat := nat_of_ascii c.

Definition is_digit (c : ascii) : bool :=
(48 <=? code c)%nat && (code c <=? 57)%nat.

Definition is_id_start (c : ascii) : bool :=
((65 <=? code c)%nat && (code c <=? 90)%nat)
|| ((97 <=? code c)%nat && (code c <=? 122)%nat)
|| (code c =? 36)%nat || (code c =? 95)%nat.

Definition is_id_part (c : ascii) : bool := is_id_start c || is_digit c.

Definition is_space (c : ascii) : bool :=
(code c =? 32)%nat || (code c =? 9)%nat.

Definition digit_val (c : ascii) : Z := Z.of_nat (code c - 48).

(** Words the grammar treats specially; the fragment leaves them out. *)
Definition reserved : list string :=
[ "break"; "case"; "catch"; "class"; "const"; "continue"; "debugger";
"default"; "delete"; "do"; "else"; "enum"; "export"; "extends";
"false"; "finally"; "for"; "function"; "if"; "import"; "in";
"instanceof"; "new"; "null"; "return"; "super"; "switch"; "this";
"throw"; "true"; "try"; "typeof"; "var"; "void"; "while"; "with";
"implements"; "interface"; "let"; "package"; "private"; "protected";
"public"; "static"; "yield"; "await"; "async"; "of"; "get"; "set";
"arguments"; "eval"; "as"; "from"; "target"; "meta" ]%string.

Definition is_reserved (s : string) : bool :=
existsb (String.eqb s) reserved.

Inductive lexmode : Type :=
| LStart
| LIdent (acc : list ascii)
| LInt (m : Z) (lead0 : bool)
| LFrac (m : Z) (k : nat).

Definition string_of_rev (acc : list ascii) : string :=
fold_left (fun s c => String c s) acc EmptyString.

(** The value of the literal with digits [m] and [k] digits after the
point.  Both [m] and [10^k] are exact, so one correctly rounded
division gives the nearest number. *)
Definition literal_value (m : Z) (k : nat) : option num :=
if (m <? 2 ^ 53) && (k <=? 22)%nat
then Some (PrimFloat.div (numZ m) (numZ (10 ^ Z.of_nat k)))
else None.

Definition close (m : lexmode) : option (list token) :=
match m with
| LStart => Some []
| LIdent acc =>
let s := string_of_rev acc in
if is_reserved s then None else Some [TId s]
| LInt z _ => option_map (fun v => [TNum v]) (literal_value z 0)
| LFrac z k => option_map (fun v => [TNum v]) (literal_value z k)
end.

Definition next_is (p : ascii -> bool) (next : option sym) : bool :=
match next with
| Some (Ch c) => p c
| _ => false
end.

Definition is_char (d : ascii) (c : ascii) : bool := Ascii.eqb c d.

(** One symbol read with nothing pending. *)
Definition start_step (s : sym) (next : option sym)
: option (list token * lexmode) :=
match s with
| Lit v =>
if next_is (is_char ")") next || next_is (is_char ",") next
then Some ([TNum (printed v)], LStart)
else None
| Ch c =>
if is_space c then Some ([], LStart)
else if is_digit c then
Some ([], LInt (digit_val c) (Ascii.eqb c "0"))
else if is_id_start c then Some ([], LIdent [c])
else if Ascii.eqb c "(" then Some ([TLParen], LStart)
else if Ascii.eqb c ")" then Some ([TRParen], LStart)
else if Ascii.eqb c "," then Some ([TComma], LStart)
else if Ascii.eqb c "." then
if next_is is_digit next then Some ([], LFrac 0 0)
else if next_is (is_char ".") next then None
else Some ([TDot], LStart)
else if Ascii.eqb c "+" then
if next_is (is_char "+") next || next_is (is_char "=") next
then None else Some ([TPlus], LStart)
else if Ascii.eqb c "-" then
if next_is (is_char "-") next || next_is (is_char "=") next
then None else Some ([TMinus], LStart)
else if Ascii.eqb c "*" then
if next_is (is_char "*") next || next_is (is_char "=") next
then None else Some ([TStar], LStart)
else if Ascii.eqb c "/" then
if next_is (is_char "/") next || next_is (is_char "*") next
|| next_is (is_char "=") next
then None else Some ([TSlash], LStart)
else if Ascii.eqb c "^" then
if next_is (is_char "=") next then None
else Some ([TCaret], LStart)
else None
end.

Definition after_close (m : lexmode) (s : sym) (next : option sym)
: option (list token * lexmode) :=
match close m, start_step s next with
| Some out, Some (out', m') => Some (out ++ out', m')
| _, _ => None
end.

Definition step (m : lexmode) (s : sym) (next : option sym)
: option (list token * lexmode) :=
match m, s with
| LStart, _ => start_step s next
| _, Lit _ => None
| LIdent acc, Ch c =>
if is_id_part c then Some ([], LIdent (c :: acc))
else after_close m s next
| LInt z lead0, Ch c =>
if is_digit c then
if lead0 then None else Some ([], LInt (10 * z + digit_val c) false)
else if is_id_start c then None
else if Ascii.eqb c "." then Some ([], LFrac z 0)
else after_close m s next
| LFrac z k, Ch c =>
if is_digit c then Some ([], LFrac (10 * z + digit_val c) (S k))
else if is_id_start c then None
else after_close m s next
end.

Fixpoint lex (l : text) (m : lexmode) : option (list token) :=
match l with
| [] => close m
| s :: rest =>
match step m s (head rest) with
| None => None
| Some (out, m') => option_map (app out) (lex rest m')
end
end.

(** *** Parsing *)

Inductive binop : Type := OAdd | OSub | OMul | ODiv | OXor.

Inductive expr : Type :=
| ENum (v : num)
| EId (s : string)
| ENeg (e : expr)
| EPos (e : expr)
| EBin (op : binop) (e1 e2 : expr)
| EComma (e1 e2 : expr)
| EMember (e : expr) (name : string)
| ECall (f : expr) (args : list expr).

(** A parse either succeeds and leaves the rest of the tokens, fails (a
SyntaxError of the host), or meets something outside the fragment. *)
Inductive pres (A : Type) : Type :=
| POk (a : A) (rest : list token)
| PFail
| PUnmodelled.
Arguments POk {A} a rest.
Arguments PFail {A}.
Arguments PUnmodelled {A}.

(** Binary operators by binding strength, loosest first. *)
Inductive binding : Type := LvComma | LvXor | LvAdd | LvMul.

Definition op_at (lvl : binding) (t : token) : option (expr -> expr -> expr) :=
match lvl, t with
| LvComma, TComma => Some EComma
| LvXor, TCaret => Some (EBin OXor)
| LvAdd, TPlus => Some (EBin OAdd)
| LvAdd, TMinus => Some (EBin OSub)
| LvMul, TStar => Some (EBin OMul)
| LvMul, TSlash => Some (EBin ODiv)
| _, _ => None
end.

Fixpoint parse_level (n : nat) (lvl : binding) (ts : list token) {struct n}
: pres expr :=
match n with
| O => PUnmodelled
| S n' =>
match parse_operand n' lvl ts with
| POk e rest => level_tail n' lvl e rest
| r => r
end
end
with parse_operand (n : nat) (lvl : binding) (ts : list token) {struct n}
: pres expr :=
match n with
| O => PUnmodelled
| S n' =>
match lvl with
| LvComma => parse_level n' LvXor ts
| LvXor => parse_level n' LvAdd ts
| LvAdd => parse_level n' LvMul ts
| LvMul => parse_unary n' ts
end
end
with level_tail (n : nat) (lvl : binding) (e : expr) (ts : list token)
{struct n} : pres expr :=
match n with
| O => PUnmodelled
| S n' =>
match ts with
| [] => POk e []
| t :: rest =>
match op_at lvl t with
| None => POk e ts
| Some mk =>
match parse_operand n' lvl rest with
| POk e2 rest2 => level_tail n' lvl (mk e e2) rest2
| r => r
end
end
end
end
with parse_unary (n : nat) (ts : list token) {struct n} : pres expr :=
match n with
| O => PUnmodelled
| S n' =>
match ts with
| TPlus :: rest =>
match parse_unary n' rest with
| POk e rest' => POk (EPos e) rest'
| r => r
end
| TMinus :: rest =>
match parse_unary n' rest with
| POk e rest' => POk (ENeg e) rest'
| r => r
end
| _ =>
match parse_primary n' ts with
| POk e rest => postfix_tail n' e rest
| r => r
end
end
end
with parse_primary (n : nat) (ts : list token) {struct n} : pres expr :=
match n with
| O => PUnmodelled
| S n' =>
match ts with
| TNum v :: rest => POk (ENum v) rest
| TId s :: rest => POk (EId s) rest
| TLParen :: rest =>
match parse_level n' LvComma rest with
| POk e (TRParen :: rest') => POk e rest'
| POk _ _ => PFail
| r => r
end
| TSlash :: _ => PUnmodelled
| _ => PFail
end
end
with postfix_tail (n : nat) (e : expr) (ts : list token) {struct n}
: pres expr :=
match n with
| O => PUnmodelled
| S n' =>
match ts with
| TDot :: TId name :: rest => postfix_tail n' (EMember e name) rest
| TDot :: _ => PFail
| TLParen :: rest =>
match parse_args n' rest with
| POk args rest' => postfix_tail n' (ECall e args) rest'
| PFail => PFail
| PUnmodelled => PUnmodelled
end
| _ => POk e ts
end
end
with parse_args (n : nat) (ts : list token) {struct n} : pres (list expr) :=
match n with
| O => PUnmodelled
| S n' =>
match ts with
| TRParen :: rest => POk [] rest
| _ =>
match parse_level n' LvXor ts with
| POk a (TComma :: rest) =>
match parse_args n' rest with
| POk args rest' => POk (a :: args) rest'
| r => r
end
| POk a (TRParen :: rest) => POk [a] rest
| POk _ _ => PFail
| PFail => PFail
| PUnmodelled => PUnmodelled
end
end
end.

(** *** Evaluation *)

(** The numeric functions of the host's [Math] object that the language
standard leaves implementation-approximated. *)
Class MathHost : Type := {
Math_sin : num -> num;
Math_cos : num -> num;
Math_tan : num -> num;
Math_log : num -> num;
Math_sqrt : num -> num;
Math_exp : num -> num;
Math_pow : num -> num -> num
}.

Inductive builtin : Type :=
| Bsin | Bcos | Btan | Blog | Bsqrt | Bexp | Bpow | Babs.

Inductive jsval : Type :=
| JNum (v : num)
| JUndef
| JMathObj
| JBuiltin (b : builtin).

Inductive hostexn : Type :=
| SyntaxError
| ReferenceToUndefined
| NotAFunction.

Inductive hres (A : Type) : Type :=
| HVal (a : A)
| HThrow (e : hostexn)
| HUnmodelled.
Arguments HVal {A} a.
Arguments HThrow {A} e.
Arguments HUnmodelled {A}.

Definition hbind {A B} (m : hres A) (k : A -> hres B) : hres B :=
match m with
| HVal a => k a
| HThrow e => HThrow e
| HUnmodelled => HUnmodelled
end.

Definition ToNumber (v : jsval) : hres num :=
match v with
| JNum x => HVal x
| JUndef => HVal PrimFloat.nan
| _ => HUnmodelled
end.

Definition math_member (name : string) : hres jsval :=
if String.eqb name "sin" then HVal (JBuiltin Bsin)
else if String.eqb name "cos" then HVal (JBuiltin Bcos)
else if String.eqb name "tan" then HVal (JBuiltin Btan)
else if String.eqb name "log" then HVal (JBuiltin Blog)
else if String.eqb name "sqrt" then HVal (JBuiltin Bsqrt)
else if String.eqb name "exp" then HVal (JBuiltin Bexp)
else if String.eqb name "pow" then HVal (JBuiltin Bpow)
else if String.eqb name "abs" then HVal (JBuiltin Babs)
else HUnmodelled.

Definition global (name : string) : hres jsval :=
if String.eqb name "Math" then HVal JMathObj
else if String.eqb name "NaN" then HVal (JNum PrimFloat.nan)
else if String.eqb name "Infinity" then HVal (JNum PrimFloat.infinity)
else if String.eqb name "undefined" then HVal JUndef
else HUnmodelled.

Definition member (v : jsval) (name : string) : hres jsval :=
match v with
| JMathObj => math_member name
| JUndef => HThrow ReferenceToUndefined
| _ => HUnmodelled
end.

Definition arg (i : nat) (vs : list jsval) : jsval := default JUndef (vs !! i).

Section Eval.
Context `{MathHost}.

Definition unary_fun (f : num -> num) (vs : list jsval) : hres jsval :=
hbind (ToNumber (arg 0 vs)) (fun x => HVal (JNum (f x))).

Definition call_builtin (b : builtin) (vs : list jsval) : hres jsval :=
match b with
| Bsin => unary_fun Math_sin vs
| Bcos => unary_fun Math_cos vs
| Btan => unary_fun Math_tan vs
| Blog => unary_fun Math_log vs
| Bsqrt => unary_fun Math_sqrt vs
| Bexp => unary_fun Math_exp vs
| Babs => unary_fun Math_abs vs
| Bpow =>
hbind (ToNumber (arg 0 vs)) (fun x =>
hbind (ToNumber (arg 1 vs)) (fun y => HVal (JNum (Math_pow x y))))
end.

Definition call (f : jsval) (vs : list jsval) : hres jsval :=
match f with
| JBuiltin b => call_builtin b vs
| _ => HThrow NotAFunction
end.

Definition arith (op : binop) (x y : num) : num :=
match op with
| OAdd => PrimFloat.add x y
| OSub => PrimFloat.sub x y
| OMul => PrimFloat.mul x y
| ODiv => PrimFloat.div x y
| OXor => numZ (Z.lxor (ToInt32 x) (ToInt32 y))
end.

Fixpoint eval (e : expr) : hres jsval :=
match e with
| ENum v => HVal (JNum v)
| EId s => global s
| ENeg e1 =>
hbind (eval e1) (fun v =>
hbind (ToNumber v) (fun x => HVal (JNum (PrimFloat.opp x))))
| EPos e1 =>
hbind (eval e1) (fun v =>
hbind (ToNumber v) (fun x => HVal (JNum x)))
| EBin op e1 e2 =>
hbind (eval e1) (fun v1 =>
hbind (eval e2) (fun v2 =>
hbind (ToNumber v1) (fun x =>
hbind (ToNumber v2) (fun y => HVal (JNum (arith op x y))))))
| EComma e1 e2 => hbind (eval e1) (fun _ => eval e2)
| EMember e1 name => hbind (eval e1) (fun v => member v name)
| ECall f args =>
hbind (eval f) (fun fv =>
hbind ((fix eval_args (l : list expr) : hres (list jsval) :=
match l with
| [] => HVal []
| a :: l' =>
hbind (eval a) (fun v =>
hbind (eval_args l') (fun vs => HVal (v :: vs)))
end) args)
(fun vs => call fv vs))
end.

(** [Function('"use strict"; return (' + expression + ')')()]: the
body is the statement [return (expression)]; the tokens after
[return] must form one expression up to the end of the body. *)
Definition Function_call (expression : text) : hres jsval :=
match lex (Ch "(" :: expression ++ [Ch ")"]) LStart with
| None => HUnmodelled
| Some ts =>
match parse_level (8 * length ts + 8) LvComma ts with
| POk e [] => eval e
| POk _ (_ :: _) => HThrow SyntaxError
| PFail => HThrow SyntaxError
| PUnmodelled => HUnmodelled
end
end.

End Eval.

End Host.

(** A host for closed examples: the square root is the correctly rounded
    one, powers with a small whole exponent are repeated products, and the
    other functions are short series.  Examples only rely on values these
    definitions give exactly. *)

Module SeriesHost.
Import Host.
Local Open Scope float_scope.

Fixpoint pow_nat (x : num) (n : nat) : num :=
match n with
| O => 1
| S k => x * pow_nat x k
end.

Definition pow (x y : num) : num :=
let n := ToInt32 y in
if (0 <=? n)%Z && (numZ n =? y) then pow_nat x (Z.to_nat n)
else PrimFloat.nan.

Definition sin (x : num) : num := x * (1 - x * x / 6 * (1 - x * x / 20)).
Definition cos (x : num) : num := 1 - x * x / 2 * (1 - x * x / 12).
Definition tan (x : num) : num := sin x / cos x.
Definition exp (x : num) : num := 1 + x * (1 + x / 2 * (1 + x / 3)).
Definition log (x : num) : num :=
let t := (x - 1) / (x + 1) in 2 * t * (1 + t * t / 3).

#[export] Instance series_host : MathHost := {|
Math_sin := sin;
Math_cos := cos;
Math_tan := tan;
Math_log := log;
Math_sqrt := PrimFloat.sqrt;
Math_exp := exp;
Math_pow := pow
|}.

End SeriesHost.

(** ** The logger and the method instance *)

Module Logger.

Inductive level : Type := info | success | warning | error.

(** A piece of a message: literal text, or a value the program prints
into a template literal. *)
Inductive frag : Type :=
| Str (s : string)
| NumStr (x : num)
| Fixed (x : num) (digits : nat)
| Expo (x : num) (digits : nat)
| HostMessage (e : Host.hostexn).

Definition message := list frag.

(** The entry [_log] stores, without its wall-clock timestamp. *)
Record LogEvent : Type := { lvl : level; msg : message }.

Definition level_eqb (a b : level) : bool :=
match a, b with
| info, info | success, success | warning, warning | error, error => true
| _, _ => false
end.

Definition warnings (l : list LogEvent) : list LogEvent :=
filter (fun e => level_eqb (lvl e) warning = true) l.

End Logger.
Export Logger.

Module Method.

Inductive value : Type :=
| VNum (x : num)
| VStr (m : message)
| VVec (v : list num).

(** An entry of [this.iterations]: an object, as its fields in order. *)
Definition record := list (string * value).

(** [this.result]: [null], a number or an array. *)
Inductive resval : Type :=
| RNum (x : num)
| RVec (v : list num).

Record Instance : Type := {
name : string;
logs : list LogEvent;
iterations : list record;
result : option resval
}.

(** [new NumericalMethod(name, logger)]. *)
Definition construct (name : string) (logger : list LogEvent) : Instance :=
{| name := name; logs := logger; iterations := []; result := None |}.

Inductive exn : Type :=
| Error (m : message)
| ConstAssignment (variable : string).

(** [error.message]. *)
Definition exn_message (e : exn) : message :=
match e with
| Error m => m
| ConstAssignment _ => [Str "Assignment to constant variable."]
end.

Inductive outcome (A : Type) : Type :=
| Ret (a : A)
| Throw (e : exn)
| OutOfModel.
Arguments Ret {A} a.
Arguments Throw {A} e.
Arguments OutOfModel {A}.

(** A method body: it reads and writes the instance, and returns, throws
or leaves the modelled fragment of the host. *)
Definition M (A : Type) : Type := Instance -> outcome A * Instance.

Definition ret {A} (a : A) : M A := fun s => (Ret a, s).

Definition bind {A B} (m : M A) (k : A -> M B) : M B :=
fun s =>
match m s with
| (Ret a, s') => k a s'
| (Throw e, s') => (Throw e, s')
| (OutOfModel, s') => (OutOfModel, s')
end.

Definition throw {A} (e : exn) : M A := fun s => (Throw e, s).

Definition out_of_model {A} : M A := fun s => (OutOfModel, s).

(** [try { m } catch (error) { handler error }]. *)
Definition try_catch {A} (m : M A) (handler : exn -> M A) : M A :=
fun s =>
match m s with
| (Throw e, s') => handler e s'
| r => r
end.

Definition log (l : level) (m : message) : M unit :=
fun s => (Ret tt,
{| name := name s; logs := logs s ++ [{| lvl := l; msg := m |}];
iterations := iterations s; result := result s |}).

(** The instance after one more log entry. *)
Definition logged (l : level) (m : message) (s : Instance) : Instance :=
snd (log l m s).

(** The instance after [this.result = r]. *)
Definition with_result (r : option resval) (s : Instance) : Instance :=
{| name := name s; logs := logs s; iterations := iterations s; result := r |}.

(** The instance after [this.iterations = l]. *)
Definition with_iterations (l : list record) (s : Instance) : Instance :=
{| name := name s; logs := logs s; iterations := l; result := result s |}.

(** The instance after [this.iterations.push(r)]. *)
Definition pushed (r : record) (s : Instance) : Instance :=
with_iterations (iterations s ++ [r]) s.

Definition get_name : M string := fun s => (Ret (name s), s).

Definition get_result : M (option resval) := fun s => (Ret (result s), s).

Definition set_result (r : option resval) : M unit :=
fun s => (Ret tt,
{| name := name s; logs := logs s;
iterations := iterations s; result := r |}).

Definition set_iterations (l : list record) : M unit :=
fun s => (Ret tt,
{| name := name s; logs := logs s;
iterations := l; result := result s |}).

Definition push_iteration (r : record) : M unit :=
fun s => (Ret tt,
{| name := name s; logs := logs s;
iterations := iterations s ++ [r]; result := result s |}).

Definition when (b : bool) (m : M unit) : M unit :=
if b then m else ret tt.

(** An assignment to a variable declared with [const]: a TypeError. *)
Definition assign_const (variable : string) : M unit :=
throw (ConstAssignment variable).

(** [for (const x of l) body], and the counting loops through [seq]. *)
Fixpoint for_each {A} (l : list A) (body : A -> M unit) : M unit :=
match l with
| [] => ret tt
| x :: l' => bind (body x) (fun _ => for_each l' body)
end.

(** A loop over [l] that carries the variables [s] it updates. *)
Fixpoint fold_each {A S} (l : list A) (body : S -> A -> M S) (s : S) : M S :=
match l with
| [] => ret s
| x :: l' => bind (body s x) (fun s' => fold_each l' body s')
end.

(** [!this.result]: [null], [0], [-0] and [NaN] are falsy, arrays are not. *)
Definition falsy (r : option resval) : bool :=
match r with
| None => true
| Some (RNum x) => PrimFloat.eqb x PrimFloat.zero || isNaN x
| Some (RVec _) => false
end.

(** The length in bytes of a white-space character (as [trim] sees it) at
the head of a text in UTF-8, or [0]. *)
Definition space_length (s : string) : nat :=
match s with
| String c rest =>
let n := nat_of_ascii c in
if ((9 <=? n) && (n <=? 13) || (n =? 32))%nat then 1%nat
else match rest with
| String c1 rest1 =>
let n1 := nat_of_ascii c1 in
if ((n =? 194) && (n1 =? 160))%nat then 2%nat
else match rest1 with
  | String c2 _ =>
      let n2 := nat_of_ascii c2 in
      if ((n =? 225) && (n1 =? 154) && (n2 =? 128)
          || (n =? 226) && (n1 =? 128)
             && ((128 <=? n2) && (n2 <=? 138)
                 || (n2 =? 168) || (n2 =? 169)
                 || (n2 =? 175))
          || (n =? 226) && (n1 =? 129) && (n2 =? 159)
          || (n =? 227) && (n1 =? 128) && (n2 =? 128)
          || (n =? 239) && (n1 =? 187) && (n2 =? 191))%nat
      then 3%nat else 0%nat
  | EmptyString => 0%nat
  end
| EmptyString => 0%nat
end
| EmptyString => 0%nat
end.

Fixpoint blank_from (skip : nat) (s : string) : bool :=
match s with
| EmptyString => true
| String _ rest =>
match skip with
| S k => blank_from k rest
| O =>
match space_length s with
| O => false
| S k => blank_from k rest
end
end
end.

(** [!s || s.trim() === ''] for a string [s]. *)
Definition blank (s : string) : bool := blank_from 0 s.

End Method.
Export Method.

Declare Scope method_scope.
Delimit Scope method_scope with method.
Notation "x <- c1 ;; c2" := (bind c1 (fun x => c2))
  (at level 100, c1 at next level, right associativity) : method_scope.
Notation "c1 ;; c2" := (bind c1 (fun _ => c2))
  (at level 100, right associativity) : method_scope.
Local Open Scope method_scope.

(** ** NumericalMethod: the base class *)

Module NumericalMethod.
Import Host.

(** [validateParams] of the base class: one log entry. *)
Definition validateParams : M bool :=
n <- get_name ;;
log info [Str "Validando parámetros para "; Str n] ;;
ret true.

(** [getResults]. *)
Definition getResults (s : Instance) : option resval * list record :=
(result s, iterations s).

(** [func.replace(/x/g, `(${x})`)]. *)
Definition replace_x (x : num) (l : text) : text :=
flat_map (fun s =>
match s with
| Ch c => if Ascii.eqb c "x" then [Ch "("; Lit x; Ch ")"]
      else [s]
| Lit _ => [s]
end) l.

Definition not_rparen (s : sym) : bool :=
match s with
| Ch c => negb (Ascii.eqb c ")")
| Lit _ => true
end.

Definition digit_sym (s : sym) : bool :=
match s with
| Ch c => is_digit c
| Lit _ => false
end.

Fixpoint take_while (p : sym -> bool) (l : text) : text :=
match l with
| s :: rest => if p s then s :: take_while p rest else []
| [] => []
end.

Fixpoint drop_while (p : sym -> bool) (l : text) : text :=
match l with
| s :: rest => if p s then drop_while p rest else l
| [] => []
end.

(** A match of [\(([^)]+)\)\^(\d+)] at the head of [l]: the two groups.
Both repetitions are greedy and what follows them cannot be matched
by a shorter repetition, so the match is the longest one or none. *)
Definition match_pow (l : text) : option (text * text) :=
match l with
| Ch c :: rest =>
if Ascii.eqb c "(" then
let g := take_while not_rparen rest in
match g, drop_while not_rparen rest with
| _ :: _, Ch c1 :: Ch c2 :: rest' =>
if Ascii.eqb c1 ")" && Ascii.eqb c2 "^" then
match take_while digit_sym rest' with
| [] => None
| d => Some (g, d)
end
else None
| _, _ => None
end
else None
| _ => None
end.

(** [expression.replace(/\(([^)]+)\)\^(\d+)/g, 'Math.pow($1,$2)')];
[skip] counts the symbols of a match still to pass over. *)
Fixpoint replace_pow_from (skip : nat) (l : text) : text :=
match l with
| [] => []
| s :: rest =>
match skip with
| S k => replace_pow_from k rest
| O =>
match match_pow l with
| Some (g, d) =>
chars "Math.pow(" ++ g ++ [Ch ","] ++ d ++ [Ch ")"]
++ replace_pow_from (length g + length d + 2) rest
| None => s :: replace_pow_from 0 rest
end
end
end.

Definition replace_pow (l : text) : text := replace_pow_from 0 l.

Fixpoint starts_with (pat : string) (l : text) : bool :=
match pat, l with
| EmptyString, _ => true
| String p pat', Ch c :: rest => Ascii.eqb p c && starts_with pat' rest
| String _ _, _ => false
end.

(** [expression.replace(/pat/g, rep)] for a plain, non-empty [pat]. *)
Fixpoint replace_name_from (skip : nat) (pat rep : string) (l : text) : text :=
match l with
| [] => []
| s :: rest =>
match skip with
| S k => replace_name_from k pat rep rest
| O =>
if starts_with pat l
then chars rep ++ replace_name_from (String.length pat - 1) pat rep rest
else s :: replace_name_from 0 pat rep rest
end
end.

Definition replace_name (pat rep : string) (l : text) : text :=
replace_name_from 0 pat rep l.

(** The text [evaluateFunction] hands to [Function]. *)
Definition expression_of (func : string) (x : num) : text :=
let expression := replace_x x (chars func) in
let expression := replace_pow expression in
let expression := replace_name "sin" "Math.sin" expression in
let expression := replace_name "cos" "Math.cos" expression in
let expression := replace_name "tan" "Math.tan" expression in
let expression := replace_name "log" "Math.log" expression in
let expression := replace_name "sqrt" "Math.sqrt" expression in
let expression := replace_name "exp" "Math.exp" expression in
expression.

Definition invalid_function : exn := Error [Str "Función inválida"].

Section WithHost.
Context `{MathHost}.

(** [evaluateFunction(func, x)].  Every exception of the host is caught,
logged and replaced by the error [Función inválida].  A value that
is not a number is outside the model. *)
Definition evaluateFunction (func : string) (x : num) : M num :=
match Function_call (expression_of func x) with
| HVal (JNum v) => ret v
| HVal _ => out_of_model
| HThrow e =>
log Logger.error [Str "Error evaluando función: "; HostMessage e] ;;
throw invalid_function
| HUnmodelled => out_of_model
end.

End WithHost.

End NumericalMethod.

(** ** Bisection *)

Module BisectionMethod.
Import Host NumericalMethod.
Local Open Scope float_scope.

Record params : Type := {
function : string;
a : num;
b : num;
tolerance : num;
maxIterations : Z
}.

Definition construct (logger : list LogEvent) : Instance :=
Method.construct "Bisección" logger.

Definition empty_function : exn :=
Error [Str "La función no puede estar vacía"].
Definition invalid_bounds : exn :=
Error [Str "Los límites del intervalo deben ser números válidos"].
Definition bounds_order : exn :=
Error [Str "El límite inferior debe ser menor que el superior"].
Definition bad_tolerance : exn :=
Error [Str "La tolerancia debe ser mayor que cero"].
Definition bad_budget : exn :=
Error [Str "El número máximo de iteraciones debe ser mayor que cero"].
Definition same_signs : exn :=
Error [Str "f(a) y f(b) deben tener signos opuestos"].

Definition validateParams (p : params) : M bool :=
NumericalMethod.validateParams ;;
if blank (function p) then throw empty_function
else if isNaN (a p) || isNaN (b p) then throw invalid_bounds
else if b p <=? a p then throw bounds_order
else if tolerance p <=? 0 then throw bad_tolerance
else if (maxIterations p <=? 0)%Z then throw bad_budget
else ret true.

Section WithHost.
Context `{MathHost}.

(** The [while (iter < maxIterations)] loop; [fuel] is the number of
turns left, [maxIterations - iter].  It returns the bracket it
stops with.  [fa] and [fb] are declared [const] in the source: the
assignments that follow a narrowing throw. *)
Fixpoint loop (func : string) (tolerance fa : num)
(fuel : nat) (iter : Z) (aVal bVal : num) : M (num * num) :=
match fuel with
| O => ret (aVal, bVal)
| S fuel' =>
let c := (aVal + bVal) / 2 in
fc <- evaluateFunction func c ;;
let error := Math_abs (bVal - aVal) / 2 in
push_iteration
[ ("iteration", VNum (numZ (iter + 1))); ("a", VNum aVal);
("b", VNum bVal); ("c", VNum c); ("fc", VNum fc);
("error", VNum error) ]%string ;;
log info [Str "Iteración "; NumStr (numZ (iter + 1)); Str ": c = ";
NumStr c; Str ", f(c) = "; NumStr fc; Str ", error = ";
NumStr error] ;;
if (Math_abs fc <? tolerance) || (error <? tolerance) then
set_result (Some (RNum c)) ;;
log success [Str "Convergencia alcanzada en ";
NumStr (numZ (iter + 1)); Str " iteraciones"] ;;
log success [Str "Raíz encontrada: "; NumStr c] ;;
ret (aVal, bVal)
else if fa * fc <? 0 then
assign_const "fb" ;;
loop func tolerance fa fuel' (iter + 1)%Z aVal c
else
assign_const "fa" ;;
loop func tolerance fa fuel' (iter + 1)%Z c bVal
end.

Definition calculate (p : params) : M unit :=
log info [Str "Iniciando cálculo por método de Bisección"] ;;
validateParams p ;;
let func := function p in
let aVal := a p in
let bVal := b p in
fa <- evaluateFunction func aVal ;;
fb <- evaluateFunction func bVal ;;
log info [Str "f("; NumStr aVal; Str ") = "; NumStr fa; Str ", f(";
NumStr bVal; Str ") = "; NumStr fb] ;;
if 0 <? fa * fb then throw same_signs
else
set_iterations [] ;;
set_result None ;;
ab <- loop func (tolerance p) fa (Z.to_nat (maxIterations p)) 0%Z
aVal bVal ;;
r <- get_result ;;
when (falsy r)
(log warning [Str "Máximo de iteraciones alcanzado sin convergencia"] ;;
set_result (Some (RNum ((fst ab + snd ab) / 2)))).

End WithHost.

End BisectionMethod.

(** ** Newton-Raphson *)

Module NewtonMethod.
Import Host NumericalMethod.
Local Open Scope float_scope.

Record params : Type := {
function : string;
x0 : num;
tolerance : num;
maxIterations : Z
}.

Definition construct (logger : list LogEvent) : Instance :=
Method.construct "Newton-Raphson" logger.

Definition empty_function : exn :=
Error [Str "La función f(x) no puede estar vacía"].
Definition invalid_start : exn :=
Error [Str "El valor inicial debe ser un número válido"].
Definition bad_tolerance : exn :=
Error [Str "La tolerancia debe ser mayor que cero"].
Definition bad_budget : exn :=
Error [Str "El número máximo de iteraciones debe ser mayor que cero"].
Definition derivative_failed : exn :=
Error [Str "Error al calcular la derivada"].
Definition small_derivative : exn :=
Error [Str "La derivada es muy pequeña, el método puede no converger"].
Definition diverges : exn :=
Error [Str "El método diverge con el valor inicial dado"].

Definition validateParams (p : params) : M bool :=
NumericalMethod.validateParams ;;
if blank (function p) then throw empty_function
else if isNaN (x0 p) then throw invalid_start
else if tolerance p <=? 0 then throw bad_tolerance
else if (maxIterations p <=? 0)%Z then throw bad_budget
else ret true.

Section WithHost.
Context `{MathHost}.

Definition calculateDerivative (func : string) (x : num) : M num :=
let h := 0.0001 in
try_catch
(f1 <- evaluateFunction func (x + h) ;;
f2 <- evaluateFunction func (x - h) ;;
ret ((f1 - f2) / (2 * h)))
(fun e =>
log Logger.error ([Str "Error calculando derivada en x = "; NumStr x;
Str ": "] ++ exn_message e) ;;
throw derivative_failed).

(** The loop returns the [x] it stops with. *)
Fixpoint loop (func : string) (tolerance : num)
(fuel : nat) (iter : Z) (x : num) : M num :=
match fuel with
| O => ret x
| S fuel' =>
ff <- try_catch
(fx <- evaluateFunction func x ;;
fpx <- calculateDerivative func x ;;
ret (fx, fpx))
(fun e =>
log Logger.error ([Str "Error en iteración ";
NumStr (numZ (iter + 1)); Str ": "]
++ exn_message e) ;;
throw e) ;;
let fx := fst ff in
let fpx := snd ff in
if Math_abs fpx <? 1e-10 then
log Logger.error [Str "Derivada muy pequeña en x = "; NumStr x;
Str ": f'(x) = "; NumStr fpx] ;;
throw small_derivative
else
let xNext := x - fx / fpx in
let error := Math_abs (xNext - x) in
push_iteration
[ ("iteration", VNum (numZ (iter + 1))); ("x", VNum x);
("f(x)", VNum fx); ("f'(x)", VNum fpx);
("x_next", VNum xNext); ("error", VNum error) ]%string ;;
log info [Str "Iteración "; NumStr (numZ (iter + 1)); Str ": x = ";
NumStr x; Str ", f(x) = "; NumStr fx; Str ", f'(x) = ";
NumStr fpx] ;;
log info [Str "x_next = "; NumStr xNext; Str ", error = ";
NumStr error] ;;
if (error <? tolerance) || (Math_abs fx <? tolerance) then
set_result (Some (RNum xNext)) ;;
log success [Str "Convergencia alcanzada en ";
NumStr (numZ (iter + 1)); Str " iteraciones"] ;;
log success [Str "Raíz encontrada: "; NumStr xNext] ;;
ret x
else if (1e10 <? Math_abs xNext) || isNaN xNext then
log Logger.error [Str "El método está divergiendo"] ;;
throw diverges
else loop func tolerance fuel' (iter + 1)%Z xNext
end.

Definition calculate (p : params) : M unit :=
log info [Str "Iniciando cálculo por método de Newton-Raphson"] ;;
validateParams p ;;
let func := function p in
let x := x0 p in
set_iterations [] ;;
set_result None ;;
log info [Str "Valor inicial: x0 = "; NumStr x] ;;
log info [Str "Función f(x) = "; Str func] ;;
x' <- loop func (tolerance p) (Z.to_nat (maxIterations p)) 0%Z x ;;
r <- get_result ;;
when (falsy r)
(log warning [Str "Máximo de iteraciones alcanzado sin convergencia"] ;;
set_result (Some (RNum x'))).

End WithHost.

End NewtonMethod.

(** ** Fixed point *)

Module FixedPointMethod.
Import Host NumericalMethod.
Local Open Scope float_scope.

Record params : Type := {
function : string;
x0 : num;
tolerance : num;
maxIterations : Z
}.

Definition construct (logger : list LogEvent) : Instance :=
Method.construct "Punto Fijo" logger.

Definition empty_function : exn :=
Error [Str "La función g(x) no puede estar vacía"].
Definition invalid_start : exn :=
Error [Str "El valor inicial debe ser un número válido"].
Definition bad_tolerance : exn :=
Error [Str "La tolerancia debe ser mayor que cero"].
Definition bad_budget : exn :=
Error [Str "El número máximo de iteraciones debe ser mayor que cero"].
Definition diverges : exn :=
Error [Str "El método diverge con el valor inicial dado"].

Definition validateParams (p : params) : M bool :=
NumericalMethod.validateParams ;;
if blank (function p) then throw empty_function
else if isNaN (x0 p) then throw invalid_start
else if tolerance p <=? 0 then throw bad_tolerance
else if (maxIterations p <=? 0)%Z then throw bad_budget
else ret true.

Section WithHost.
Context `{MathHost}.

Fixpoint loop (func : string) (tolerance : num)
(fuel : nat) (iter : Z) (x : num) : M num :=
match fuel with
| O => ret x
| S fuel' =>
xNext <- try_catch
(evaluateFunction func x)
(fun e =>
log Logger.error ([Str "Error evaluando g("; NumStr x;
Str "): "] ++ exn_message e) ;;
throw e) ;;
let error := Math_abs (xNext - x) in
push_iteration
[ ("iteration", VNum (numZ (iter + 1))); ("x", VNum x);
("g(x)", VNum xNext); ("error", VNum error) ]%string ;;
log info [Str "Iteración "; NumStr (numZ (iter + 1)); Str ": x = ";
NumStr x; Str ", g(x) = "; NumStr xNext; Str ", error = ";
NumStr error] ;;
if error <? tolerance then
set_result (Some (RNum xNext)) ;;
log success [Str "Convergencia alcanzada en ";
NumStr (numZ (iter + 1)); Str " iteraciones"] ;;
log success [Str "Punto fijo encontrado: "; NumStr xNext] ;;
ret x
else if 1e10 <? Math_abs xNext then
log Logger.error [Str "La función está divergiendo"] ;;
throw diverges
else loop func tolerance fuel' (iter + 1)%Z xNext
end.

Definition calculate (p : params) : M unit :=
log info [Str "Iniciando cálculo por método de Punto Fijo"] ;;
validateParams p ;;
let func := function p in
let x := x0 p in
set_iterations [] ;;
set_result None ;;
log info [Str "Valor inicial: x0 = "; NumStr x] ;;
log info [Str "Función g(x) = "; Str func] ;;
x' <- loop func (tolerance p) (Z.to_nat (maxIterations p)) 0%Z x ;;
r <- get_result ;;
when (falsy r)
(log warning [Str "Máximo de iteraciones alcanzado sin convergencia"] ;;
set_result (Some (RNum x'))).

End WithHost.

End FixedPointMethod.

(** ** Linear systems: what Gauss-Seidel and Gauss-Jacobi share

    The two classes declare the same parameters and carry the same text
    of [validateParams]. *)

Module LinearSystem.
Import Host NumericalMethod.
Local Open Scope float_scope.

Record params : Type := {
matrix : list (list num);
vector : list num;
initialGuess : list num;
tolerance : num;
maxIterations : Z
}.

(** [v[i]] read as a number: a missing entry is [undefined], [NaN] in
arithmetic.  After validation every index used is in range. *)
Definition at_ (v : list num) (i : nat) : num := default PrimFloat.nan (v !! i).

Definition row (m : list (list num)) (i : nat) : list num := default [] (m !! i).

Definition numN (n : nat) : num := numZ (Z.of_nat n).

(** [l.join(', ')] after mapping each entry to its printed form. *)
Fixpoint joined (f : num -> frag) (l : list num) : message :=
match l with
| [] => []
| [x] => [f x]
| x :: l' => f x :: Str ", " :: joined f l'
end.

Definition not_square : exn := Error [Str "La matriz debe ser cuadrada"].
Definition vector_size : exn :=
Error [Str "El vector de términos independientes debe tener el mismo tamaño que la matriz"].
Definition guess_size : exn :=
Error [Str "El vector inicial debe tener el mismo tamaño que la matriz"].
Definition zero_diagonal (i : nat) : exn :=
Error [Str "Elemento diagonal ("; NumStr (numN (i + 1)); Str ",";
NumStr (numN (i + 1)); Str ") es cero o muy pequeño"].
Definition bad_tolerance : exn :=
Error [Str "La tolerancia debe ser mayor que cero"].
Definition bad_budget : exn :=
Error [Str "El número máximo de iteraciones debe ser mayor que cero"].

(** The sum of [|matrix[i][j]|] over [j <> i], as the inner loop adds it. *)
Definition off_diagonal (m : list (list num)) (n i : nat) : num :=
fold_left (fun sum j => if (i =? j)%nat then sum
        else sum + Math_abs (at_ (row m i) j))
(seq 0 n) 0.

Definition not_dominant (m : list (list num)) (n i : nat) : bool :=
Math_abs (at_ (row m i) i) <=? off_diagonal m n i.

Definition tiny_diagonal (m : list (list num)) (i : nat) : bool :=
Math_abs (at_ (row m i) i) <? 1e-10.

Definition dominance_warning (i : nat) : M unit :=
log warning [Str "Fila "; NumStr (numN (i + 1));
Str ": La matriz no es estrictamente diagonal dominante"] ;;
log warning [Str "El método podría no converger"].

(** The parameters are arrays by their type, so the three [Array.isArray]
checks pass. *)
Definition validateParams (p : params) : M bool :=
NumericalMethod.validateParams ;;
let n := length (matrix p) in
for_each (seq 0 n) (fun i =>
if negb (length (row (matrix p) i) =? n)%nat then throw not_square
else ret tt) ;;
if negb (length (vector p) =? n)%nat then throw vector_size
else if negb (length (initialGuess p) =? n)%nat then throw guess_size
else
for_each (seq 0 n) (fun i =>
when (not_dominant (matrix p) n i) (dominance_warning i)) ;;
for_each (seq 0 n) (fun i =>
if tiny_diagonal (matrix p) i then throw (zero_diagonal i)
else ret tt) ;;
if tolerance p <=? 0 then throw bad_tolerance
else if (maxIterations p <=? 0)%Z then throw bad_budget
else ret true.

(** [sum += matrix[i][j] * x[j]] for [j] through [js], from [sum]. *)
Definition add_products (r x : list num) (js : list nat) (sum : num) : num :=
fold_left (fun sum j => sum + at_ r j * at_ x j) js sum.

Section WithHost.
Context `{MathHost}.

(** The maximum of [|x[i] - y[i]|]. *)
Definition max_error (n : nat) (x y : list num) : num :=
fold_left (fun error i => Math_max error (Math_abs (at_ x i - at_ y i)))
(seq 0 n) 0.

(** The norm of [matrix x - vector]. *)
Definition residual_norm (m : list (list num)) (v : list num) (n : nat)
(x : list num) : num :=
Math_sqrt
(fold_left (fun residual i =>
residual
+ Math_pow (add_products (row m i) x (seq 0 n) 0 - at_ v i) 2)
(seq 0 n) 0).

End WithHost.

End LinearSystem.

(** ** Gauss-Seidel *)

Module GaussSeidelMethod.
Import Host NumericalMethod.
Export LinearSystem.
Local Open Scope float_scope.

Definition construct (logger : list LogEvent) : Instance :=
Method.construct "Gauss-Seidel" logger.

(** The body of the loop over [i]: the sum over [j < i], then over
[j > i], both read from the array being updated, and the write. *)
Definition update_entry (m : list (list num)) (v : list num) (n : nat)
(x : list num) (i : nat) : list num :=
let sum := add_products (row m i) x (seq 0 i) 0 in
let sum := add_products (row m i) x (seq (i + 1) (n - (i + 1))) sum in
<[ i := (at_ v i - sum) / at_ (row m i) i ]> x.

Definition sweep (m : list (list num)) (v : list num) (n : nat)
(x : list num) : list num :=
fold_left (update_entry m v n) (seq 0 n) x.

Section WithHost.
Context `{MathHost}.

Definition relative_error (n : nat) (x xOld : list num) : num :=
let sums :=
fold_left (fun acc i =>
(fst acc + Math_pow (at_ x i - at_ xOld i) 2,
snd acc + Math_pow (at_ x i) 2))
(seq 0 n) (0, 0) in
Math_sqrt (fst sums) / Math_sqrt (snd sums).

(** The loop returns the [x] it stops with. *)
Fixpoint loop (m : list (list num)) (v : list num) (n : nat)
(tolerance : num) (fuel : nat) (iter : Z) (x : list num)
: M (list num) :=
match fuel with
| O => ret x
| S fuel' =>
let xOld := x in
let x := sweep m v n x in
let error := max_error n x xOld in
let residual := residual_norm m v n x in
let relativeError := relative_error n x xOld in
push_iteration
[ ("iteration", VNum (numZ (iter + 1))); ("xOld", VVec xOld);
("x", VVec x); ("error", VNum error);
("relativeError", VNum relativeError);
("residual", VNum residual) ]%string ;;
log info [Str "Iteración "; NumStr (numZ (iter + 1)); Str ":"] ;;
log info ([Str "  x = ["] ++ joined (fun v => Fixed v 6) x ++ [Str "]"]) ;;
log info [Str "  error = "; Fixed error 8; Str ", error relativo = ";
Fixed relativeError 8] ;;
log info [Str "  residual = "; Fixed residual 8] ;;
if (error <? tolerance) || (relativeError <? tolerance) then
set_result (Some (RVec x)) ;;
log success [Str "Convergencia alcanzada en ";
NumStr (numZ (iter + 1)); Str " iteraciones"] ;;
log success ([Str "Solución: ["] ++ joined (fun v => Fixed v 6) x
++ [Str "]"]) ;;
ret x
else loop m v n tolerance fuel' (iter + 1)%Z x
end.

Definition calculate (p : params) : M unit :=
log info [Str "Iniciando cálculo por método de Gauss-Seidel"] ;;
validateParams p ;;
let n := length (matrix p) in
let x := initialGuess p in
set_iterations [] ;;
set_result None ;;
log info [Str "Sistema de "; NumStr (numN n); Str "x"; NumStr (numN n);
Str " ecuaciones"] ;;
log info ([Str "Vector inicial: ["] ++ joined NumStr x ++ [Str "]"]) ;;
x' <- loop (matrix p) (vector p) n (tolerance p)
(Z.to_nat (maxIterations p)) 0%Z x ;;
r <- get_result ;;
when (falsy r)
(log warning [Str "Máximo de iteraciones alcanzado sin convergencia"] ;;
set_result (Some (RVec x')) ;;
log warning ([Str "Mejor aproximación: ["]
++ joined (fun v => Fixed v 6) x' ++ [Str "]"])).

End WithHost.

End GaussSeidelMethod.

(** ** Gauss-Jacobi *)

Module GaussJacobiMethod.
Import Host NumericalMethod.
Export LinearSystem.
Local Open Scope float_scope.

Definition construct (logger : list LogEvent) : Instance :=
Method.construct "Gauss-Jacobi" logger.

(** The sum over [j <> i] read from [x], as the inner loop adds it. *)
Definition row_sum (m : list (list num)) (n : nat) (x : list num) (i : nat)
: num :=
fold_left (fun sum j => if (i =? j)%nat then sum
        else sum + at_ (row m i) j * at_ x j)
(seq 0 n) 0.

(** The body of the loop over [i]: it reads [x] and writes [xNew]. *)
Definition update_entry (m : list (list num)) (v : list num) (n : nat)
(x : list num) (xNew : list num) (i : nat) : list num :=
<[ i := (at_ v i - row_sum m n x i) / at_ (row m i) i ]> xNew.

Definition sweep (m : list (list num)) (v : list num) (n : nat)
(x xNew : list num) : list num :=
fold_left (update_entry m v n x) (seq 0 n) xNew.

Section WithHost.
Context `{MathHost}.

(** The loop returns the [xNew] it stops with. *)
Fixpoint loop (m : list (list num)) (v : list num) (n : nat)
(tolerance : num) (fuel : nat) (iter : Z)
(x xNew : list num) : M (list num) :=
match fuel with
| O => ret xNew
| S fuel' =>
let xNew := sweep m v n x xNew in
let error := max_error n xNew x in
let residual := residual_norm m v n xNew in
push_iteration
[ ("iteration", VNum (numZ (iter + 1))); ("x", VVec x);
("xNew", VVec xNew); ("error", VNum error);
("residual", VNum residual) ]%string ;;
log info [Str "Iteración "; NumStr (numZ (iter + 1)); Str ":"] ;;
log info ([Str "  x = ["] ++ joined (fun v => Fixed v 6) xNew
++ [Str "]"]) ;;
log info [Str "  error = "; Fixed error 8; Str ", residual = ";
Fixed residual 8] ;;
if error <? tolerance then
set_result (Some (RVec xNew)) ;;
log success [Str "Convergencia alcanzada en ";
NumStr (numZ (iter + 1)); Str " iteraciones"] ;;
log success ([Str "Solución: ["] ++ joined (fun v => Fixed v 6) xNew
++ [Str "]"]) ;;
ret xNew
else loop m v n tolerance fuel' (iter + 1)%Z xNew xNew
end.

Definition calculate (p : params) : M unit :=
log info [Str "Iniciando cálculo por método de Gauss-Jacobi"] ;;
validateParams p ;;
let n := length (matrix p) in
let x := initialGuess p in
let xNew := replicate n 0 in
set_iterations [] ;;
set_result None ;;
log info [Str "Sistema de "; NumStr (numN n); Str "x"; NumStr (numN n);
Str " ecuaciones"] ;;
log info ([Str "Vector inicial: ["] ++ joined NumStr x ++ [Str "]"]) ;;
xNew' <- loop (matrix p) (vector p) n (tolerance p)
(Z.to_nat (maxIterations p)) 0%Z x xNew ;;
r <- get_result ;;
when (falsy r)
(log warning [Str "Máximo de iteraciones alcanzado sin convergencia"] ;;
set_result (Some (RVec xNew'))).

End WithHost.

End GaussJacobiMethod.

(** ** Lagrange interpolation *)

Module LagrangePolynomial.
Import Host NumericalMethod.
Local Open Scope float_scope.

Record params : Type := {
xPoints : list num;
yPoints : list num;
xEval : num
}.

Definition construct (logger : list LogEvent) : Instance :=
Method.construct "Polinomio de Lagrange" logger.

Definition at_ := LinearSystem.at_.
Definition numN := LinearSystem.numN.

Definition size_mismatch : exn :=
Error [Str "Los arrays de x e y deben tener el mismo tamaño"].
Definition too_few : exn :=
Error [Str "Se necesitan al menos 2 puntos para la interpolación"].
Definition repeated : exn :=
Error [Str "Los valores de x no pueden estar repetidos"].
Definition invalid_point (x y : num) : exn :=
Error [Str "El punto ("; NumStr x; Str ", "; NumStr y;
Str ") contiene valores inválidos"].
Definition invalid_eval : exn :=
Error [Str "El punto a evaluar debe ser un número válido"].

(** The equality a [Set] uses: [NaN] equals [NaN], [+0] equals [-0]. *)
Definition same_value_zero (x y : num) : bool :=
(x =? y) || (isNaN x && isNaN y).

(** The elements of [new Set(l)]. *)
Definition Set_of (l : list num) : list num :=
fold_left (fun seen x => if existsb (same_value_zero x) seen then seen
         else seen ++ [x]) l [].

(** The parameters are arrays by their type, so the two [Array.isArray]
checks pass. *)
Definition validateParams (p : params) : M bool :=
NumericalMethod.validateParams ;;
if negb (length (xPoints p) =? length (yPoints p))%nat then throw size_mismatch
else if (length (xPoints p) <? 2)%nat then throw too_few
else if negb (length (Set_of (xPoints p)) =? length (xPoints p))%nat
then throw repeated
else
for_each (seq 0 (length (xPoints p))) (fun i =>
if isNaN (at_ (xPoints p) i) || isNaN (at_ (yPoints p) i)
then throw (invalid_point (at_ (xPoints p) i) (at_ (yPoints p) i))
else ret tt) ;;
if isNaN (xEval p) then throw invalid_eval
else ret true.

Definition ltrim (s : string) : string :=
(fix go (fuel : nat) (s : string) : string :=
match fuel with
| O => s
| S fuel' =>
match space_length s with
| O => s
| k => go fuel' (String.substring k (String.length s - k) s)
end
end) (String.length s) s.

(** [trim] on a text whose last piece is a printed number: only white
space at the head of the first piece can go. *)
Definition trim_message (m : message) : message :=
match m with
| Str s :: rest => Str (ltrim s) :: rest
| _ => m
end.

Definition getPolynomialExpression (xs ys : list num) : message :=
let n := length xs in
trim_message
(fold_left
(fun polynomial i =>
if Math_abs (at_ ys i) <? 1e-10 then polynomial
else
let term :=
[Str (if (0 <? at_ ys i) && (0 <? i)%nat then " + " else " ");
Fixed (at_ ys i) 4] in
let term :=
fold_left
(fun term j =>
 if (i =? j)%nat then term
 else term ++ [Str " * (x - "; NumStr (at_ xs j); Str ")";
               Str " / "; Fixed (at_ xs i - at_ xs j) 4])
(seq 0 n) term in
polynomial ++ term)
(seq 0 n) []).

Definition calculateBasisPolynomial (xs : list num) (i : nat) (x : num) : num :=
fold_left (fun li j => if (i =? j)%nat then li
       else li * ((x - at_ xs j) / (at_ xs i - at_ xs j)))
(seq 0 (length xs)) 1.

(** The value of the interpolating polynomial at [x], as the loops add it. *)
Definition interpolate (xs ys : list num) (x : num) : num :=
fold_left (fun result i => result + at_ ys i * calculateBasisPolynomial xs i x)
(seq 0 (length xs)) 0.

Definition Math_min_all (l : list num) : num :=
fold_left Math_min l PrimFloat.infinity.

Definition Math_max_all (l : list num) : num :=
fold_left Math_max l PrimFloat.neg_infinity.

Definition extrapolates (p : params) : bool :=
(xEval p <? Math_min_all (xPoints p)) || (Math_max_all (xPoints p) <? xEval p).

Definition extrapolation_warning (p : params) : LogEvent :=
{| lvl := warning;
msg := [Str "ADVERTENCIA: x = "; NumStr (xEval p);
Str " está fuera del intervalo ["; NumStr (Math_min_all (xPoints p));
Str ", "; NumStr (Math_max_all (xPoints p)); Str "]"] |}.

(** The body of the main loop: term [i], its record and its log entry. *)
Definition term_step (xs ys : list num) (xEval : num) (result : num) (i : nat)
: M num :=
let n := length xs in
let li := calculateBasisPolynomial xs i xEval in
let term := at_ ys i * li in
let result := result + term in
let parts :=
fold_left
(fun acc j =>
if (i =? j)%nat then acc
else
let '(liExpression, numerator, denominator) := acc in
(liExpression
++ (match liExpression with [] => [] | _ => [Str " × "] end)
++ [Str "("; NumStr xEval; Str " - "; NumStr (at_ xs j); Str ")"],
numerator * (xEval - at_ xs j),
denominator * (at_ xs i - at_ xs j)))
(seq 0 n) ([], 1, 1) in
let '(liExpression, numerator, denominator) := parts in
let liExpression := liExpression ++ [Str " / "; Fixed denominator 4] in
push_iteration
[ ("i", VNum (numN i)); ("x_i", VNum (at_ xs i)); ("y_i", VNum (at_ ys i));
("L_i(x)", VNum li); ("L_i expresión", VStr liExpression);
("numerador", VNum numerator); ("denominador", VNum denominator);
("y_i × L_i(x)", VNum term); ("suma parcial", VNum result) ]%string ;;
log info [Str "Término "; NumStr (numN i); Str ": L_"; NumStr (numN i);
Str "("; NumStr xEval; Str ") = "; Fixed li 6; Str ", y_";
NumStr (numN i); Str " × L_"; NumStr (numN i); Str " = ";
Fixed term 6] ;;
ret result.

(** The body of the verification loop at point [i]. *)
Definition verify_step (xs ys : list num) (maxError : num) (i : nat) : M num :=
let pxi :=
fold_left (fun pxi j => pxi + at_ ys j * calculateBasisPolynomial xs j (at_ xs i))
(seq 0 (length xs)) 0 in
let error := Math_abs (pxi - at_ ys i) in
let maxError := Math_max maxError error in
log info [Str "  P("; NumStr (at_ xs i); Str ") = "; Fixed pxi 6; Str ", y_";
NumStr (numN i); Str " = "; NumStr (at_ ys i); Str ", error = ";
Expo error 2] ;;
ret maxError.

Definition calculate (p : params) : M unit :=
log info [Str "Iniciando cálculo del polinomio de Lagrange"] ;;
validateParams p ;;
let xs := xPoints p in
let ys := yPoints p in
let n := length xs in
log info [Str "Número de puntos: "; NumStr (numN n)] ;;
log info [Str "Puntos dados:"] ;;
for_each (seq 0 n) (fun i =>
log info [Str "  ("; NumStr (at_ xs i); Str ", "; NumStr (at_ ys i); Str ")"]) ;;
log info [Str "Punto a evaluar: x = "; NumStr (xEval p)] ;;
set_iterations [] ;;
result <- fold_each (seq 0 n) (term_step xs ys (xEval p)) 0 ;;
set_result (Some (RNum result)) ;;
log info (Str "Expresión del polinomio: P(x) = " :: getPolynomialExpression xs ys) ;;
log info [Str "Verificación de la interpolación:"] ;;
maxError <- fold_each (seq 0 n) (verify_step xs ys) 0 ;;
when (1e-10 <? maxError)
(log warning [Str "Error máximo en la interpolación: "; Expo maxError 2]) ;;
log success [Str "Valor interpolado: P("; NumStr (xEval p); Str ") = ";
Fixed result 8] ;;
when (extrapolates p)
(log warning (msg (extrapolation_warning p)) ;;
log warning [Str "Se está realizando extrapolación, los resultados pueden ser menos confiables"]).

End LagrangePolynomial.

(** ** Numerical differentiation *)

Module NumericalDifferentiation.
Import Host NumericalMethod.
Local Open Scope float_scope.

Record params : Type := {
function : string;
x : num;
h : num;
method : string
}.

Definition construct (logger : list LogEvent) : Instance :=
Method.construct "Diferenciación Numérica" logger.

Definition empty_function : exn :=
Error [Str "La función no puede estar vacía"].
Definition invalid_point : exn :=
Error [Str "El punto x debe ser un número válido"].
Definition invalid_step : exn :=
Error [Str "El tamaño del paso h debe ser un número positivo"].
Definition invalid_method : exn :=
Error [Str "El método debe ser: forward, backward o central"].

Definition validMethods : list string := ["forward"; "backward"; "central"]%string.

Definition validateParams (p : params) : M bool :=
NumericalMethod.validateParams ;;
if blank (function p) then throw empty_function
else if isNaN (x p) then throw invalid_point
else if isNaN (h p) || (h p <=? 0) then throw invalid_step
else
when (1 <? h p)
(log warning [Str "El tamaño del paso h es muy grande, los resultados pueden ser imprecisos"]) ;;
when (h p <? 1e-10)
(log warning [Str "El tamaño del paso h es muy pequeño, pueden ocurrir errores de redondeo"]) ;;
if negb (existsb (String.eqb (method p)) validMethods) then throw invalid_method
else ret true.

(** What a difference scheme returns: the object, and the two fields of
it that [calculate] reads. *)
Record difference : Type := {
fields : record;
derivative : num;
errorEstimate : num
}.

Section WithHost.
Context `{MathHost}.

Definition forwardDifference (func : string) (x h : num) : M difference :=
fx <- evaluateFunction func x ;;
fxh <- evaluateFunction func (x + h) ;;
let derivative := (fxh - fx) / h in
fx2h <- evaluateFunction func (x + 2 * h) ;;
let secondDerivative := (fx2h - 2 * fxh + fx) / (h * h) in
let errorEstimate := Math_abs (h * secondDerivative / 2) in
ret {| fields :=
[ ("method", VStr [Str "Diferencias hacia adelante"]);
("formula", VStr [Str "f'(x) ≈ [f(x+h) - f(x)] / h"]);
("x", VNum x); ("f(x)", VNum fx); ("x+h", VNum (x + h));
("f(x+h)", VNum fxh); ("h", VNum h);
("derivative", VNum derivative);
("errorEstimate", VNum errorEstimate) ]%string;
derivative := derivative;
errorEstimate := errorEstimate |}.

Definition backwardDifference (func : string) (x h : num) : M difference :=
fx <- evaluateFunction func x ;;
fxh <- evaluateFunction func (x - h) ;;
let derivative := (fx - fxh) / h in
fx2h <- evaluateFunction func (x - 2 * h) ;;
let secondDerivative := (fx - 2 * fxh + fx2h) / (h * h) in
let errorEstimate := Math_abs (h * secondDerivative / 2) in
ret {| fields :=
[ ("method", VStr [Str "Diferencias hacia atrás"]);
("formula", VStr [Str "f'(x) ≈ [f(x) - f(x-h)] / h"]);
("x", VNum x); ("f(x)", VNum fx); ("x-h", VNum (x - h));
("f(x-h)", VNum fxh); ("h", VNum h);
("derivative", VNum derivative);
("errorEstimate", VNum errorEstimate) ]%string;
derivative := derivative;
errorEstimate := errorEstimate |}.

Definition centralDifference (func : string) (x h : num) : M difference :=
fxh_plus <- evaluateFunction func (x + h) ;;
fxh_minus <- evaluateFunction func (x - h) ;;
fx <- evaluateFunction func x ;;
let derivative := (fxh_plus - fxh_minus) / (2 * h) in
fx2h_plus <- evaluateFunction func (x + 2 * h) ;;
fx2h_minus <- evaluateFunction func (x - 2 * h) ;;
let fourthDerivative :=
(fx2h_plus - 4 * fxh_plus + 6 * fx - 4 * fxh_minus + fx2h_minus)
/ (h * h * h * h) in
let errorEstimate := Math_abs (h * h * fourthDerivative / 6) in
ret {| fields :=
[ ("method", VStr [Str "Diferencias centrales"]);
("formula", VStr [Str "f'(x) ≈ [f(x+h) - f(x-h)] / (2h)"]);
("x", VNum x); ("f(x)", VNum fx); ("x-h", VNum (x - h));
("f(x-h)", VNum fxh_minus); ("x+h", VNum (x + h));
("f(x+h)", VNum fxh_plus); ("h", VNum h);
("derivative", VNum derivative);
("errorEstimate", VNum errorEstimate) ]%string;
derivative := derivative;
errorEstimate := errorEstimate |}.

(** The [switch (method)].  No case matches only for a method that
validation refuses; what the program does then with [undefined] is
left out of the model. *)
Definition dispatch (method func : string) (x h : num) : M difference :=
if String.eqb method "forward" then forwardDifference func x h
else if String.eqb method "backward" then backwardDifference func x h
else if String.eqb method "central" then centralDifference func x h
else out_of_model.

Definition calculate (p : params) : M unit :=
log info [Str "Iniciando cálculo de diferenciación numérica"] ;;
validateParams p ;;
let func := function p in
let xVal := x p in
let hVal := h p in
log info [Str "Función: "; Str func] ;;
log info [Str "Punto x: "; NumStr xVal] ;;
log info [Str "Tamaño del paso h: "; NumStr hVal] ;;
log info [Str "Método: "; Str (method p)] ;;
set_iterations [] ;;
try_catch
(result <- dispatch (method p) func xVal hVal ;;
push_iteration (fields result) ;;
set_result (Some (RNum (derivative result))) ;;
log info [Str "Análisis de convergencia con diferentes valores de h:"] ;;
let hValues := [hVal * 10; hVal * 5; hVal * 2; hVal; hVal / 2;
hVal / 5; hVal / 10] in
for_each hValues (fun h_test =>
testResult <- dispatch (method p) func xVal h_test ;;
log info [Str "  h = "; Expo h_test 2; Str ": f'(x) ≈ ";
Fixed (derivative testResult) 8; Str ", error estimado ≈ ";
Expo (errorEstimate testResult) 2]) ;;
log success [Str "Derivada calculada: "; NumStr (derivative result)] ;;
log success [Str "f'("; NumStr xVal; Str ") ≈ ";
Fixed (derivative result) 8] ;;
log info [Str "Error estimado: "; Expo (errorEstimate result) 2])
(fun e =>
log Logger.error (Str "Error en el cálculo: " :: exn_message e) ;;
throw e).

End WithHost.

End NumericalDifferentiation.

(** ** Numerical integration *)

Module NumericalIntegration.
Import Host NumericalMethod.
Local Open Scope float_scope.

Record params : Type := {
function : string;
a : num;
b : num;
n : Z
}.

Definition construct (logger : list LogEvent) : Instance :=
Method.construct "Integración Numérica" logger.

Definition empty_function : exn :=
Error [Str "La función no puede estar vacía"].
Definition invalid_bounds : exn :=
Error [Str "Los límites de integración deben ser números válidos"].
Definition bounds_order : exn :=
Error [Str "El límite inferior debe ser menor que el superior"].
Definition bad_count : exn :=
Error [Str "El número de subdivisiones debe ser mayor que cero"].

(** [n] is an integer by its type, so [Number.isInteger] holds, and
[!params.n] is [n = 0]. *)
Definition validateParams (p : params) : M bool :=
NumericalMethod.validateParams ;;
if blank (function p) then throw empty_function
else if isNaN (a p) || isNaN (b p) then throw invalid_bounds
else if b p <=? a p then throw bounds_order
else if (n p =? 0)%Z || (n p <=? 0)%Z then throw bad_count
else ret true.

(** The values [0, 1, ..., nVal] of the loop variable. *)
Definition indices (nVal : Z) : list Z :=
map Z.of_nat (seq 0 (Z.to_nat nVal + 1)).

Definition weight_at (nVal i : Z) : num :=
if (i =? 0)%Z || (i =? nVal)%Z then 0.5 else 1.

Section WithHost.
Context `{MathHost}.

(** The body of the trapezoid loop; it carries [sum]. *)
Definition trapezoid_step (func : string) (aVal h : num) (nVal : Z)
(sum : num) (i : Z) : M num :=
let x := aVal + numZ i * h in
fx <- try_catch
(evaluateFunction func x)
(fun e =>
log Logger.error ([Str "Error evaluando f("; NumStr x; Str "): "]
++ exn_message e) ;;
throw e) ;;
let weight := weight_at nVal i in
let contribution := weight * fx * h in
let sum := sum + weight * fx in
push_iteration
[ ("i", VNum (numZ i)); ("x", VNum x); ("f(x)", VNum fx);
("weight", VNum weight); ("contribution", VNum contribution);
("sumPartial", VNum (sum * h)) ]%string ;;
when (i mod Z.max 1 (nVal / 10) =? 0)%Z
(log info [Str "Punto "; NumStr (numZ i); Str ": x = "; Fixed x 4;
Str ", f(x) = "; Fixed fx 6]) ;;
ret sum.

(** The body of the Simpson loop; it carries [simpsonSum]. *)
Definition simpson_step (func : string) (aVal h : num) (nVal : Z)
(simpsonSum : num) (i : Z) : M num :=
let x := aVal + numZ i * h in
fx <- evaluateFunction func x ;;
if (i =? 0)%Z || (i =? nVal)%Z then ret (simpsonSum + fx)
else if (i mod 2 =? 1)%Z then ret (simpsonSum + 4 * fx)
else ret (simpsonSum + 2 * fx).

Definition calculate (p : params) : M unit :=
log info [Str "Iniciando cálculo de integración numérica"] ;;
validateParams p ;;
let func := function p in
let aVal := a p in
let bVal := b p in
let nVal := n p in
let h := (bVal - aVal) / numZ nVal in
log info [Str "Función: "; Str func] ;;
log info [Str "Intervalo: ["; NumStr aVal; Str ", "; NumStr bVal; Str "]"] ;;
log info [Str "Subdivisiones: "; NumStr (numZ nVal)] ;;
log info [Str "Tamaño del paso h: "; NumStr h] ;;
set_iterations [] ;;
sum <- fold_each (indices nVal) (trapezoid_step func aVal h nVal) 0 ;;
let result := sum * h in
set_result (Some (RNum result)) ;;
when (nVal mod 2 =? 0)%Z
(simpsonSum <- fold_each (indices nVal) (simpson_step func aVal h nVal) 0 ;;
let simpsonResult := (h / 3) * simpsonSum in
log info [Str "Resultado por trapecio: "; NumStr result] ;;
log info [Str "Resultado por Simpson: "; NumStr simpsonResult] ;;
log info [Str "Diferencia: "; NumStr (Math_abs (result - simpsonResult))]) ;;
log success [Str "Integral calculada: "; NumStr result] ;;
log success [Str "∫["; NumStr aVal; Str ", "; NumStr bVal; Str "] ";
Str func; Str " dx ≈ "; Fixed result 8].

End WithHost.

End NumericalIntegration.

(** ** What the specification admits in an expression *)

Module Spec.
Import Host.

(** Numbers, the operators [+ - * / ^] with parentheses, the six function
names and the variable [x]. *)
Definition whitelisted_token (t : token) : bool :=
match t with
| TNum _ | TLParen | TRParen | TPlus | TMinus | TStar | TSlash | TCaret => true
| TId s => existsb (String.eqb s) ["sin"; "cos"; "tan"; "log"; "sqrt"; "exp"; "x"]%string
| TDot | TComma => false
end.

Definition whitelisted (func : string) : bool :=
match lex (chars func) LStart with
| Some ts => forallb whitelisted_token ts
| None => false
end.

(** A well-formed expression: admitted tokens that form one expression. *)
Definition well_formed (func : string) : bool :=
match lex (chars func) LStart with
| Some ts =>
forallb whitelisted_token ts
&& match parse_level (8 * length ts + 8) LvComma ts with
| POk _ [] => true
| _ => false
end
| None => false
end.

(** The sum of [f j] over the indices [js], added left to right from [0]. *)
Definition sum_over (js : list nat) (f : nat -> num) : num :=
fold_left (fun sum j => PrimFloat.add sum (f j)) js PrimFloat.zero.

(** The indices [j < n] other than [i], in increasing order. *)
Definition others (i n : nat) : list nat :=
List.filter (fun j => negb (j =? i)%nat) (seq 0 n).

(** [(b[i] - sum over j <> i of a[i][j] * x j) / a[i][i]]. *)
Definition entry (m : list (list num)) (v : list num) (n i : nat)
(x : nat -> num) : num :=
PrimFloat.div
(PrimFloat.sub (LinearSystem.at_ v i)
(sum_over (others i n)
(fun j => PrimFloat.mul (LinearSystem.at_ (LinearSystem.row m i) j) (x j))))
(LinearSystem.at_ (LinearSystem.row m i) i).

(** [t 0 + t 1 + ... + t k], added left to right from [0]. *)
Fixpoint sum_to (k : nat) (t : nat -> num) : num :=
match k with
| O => PrimFloat.add PrimFloat.zero (t O)
| S k' => PrimFloat.add (sum_to k' t) (t k)
end.

(** The node [x_i = a + i h]. *)
Definition node (a h : num) (i : nat) : num :=
PrimFloat.add a (PrimFloat.mul (numZ (Z.of_nat i)) h).

(** The weight of node [i] of [n] in the trapezoid rule. *)
Definition weight (n i : nat) : num :=
if (i =? 0)%nat || (i =? n)%nat then 0.5%float else 1%float.

(** The composite trapezoid value [h * sum of weight_i * f(x_i)]. *)
Definition trapezoid (a b : num) (n : Z) (f : num -> num) : num :=
let h := PrimFloat.div (PrimFloat.sub b a) (numZ n) in
PrimFloat.mul h
(sum_to (Z.to_nat n)
(fun i => PrimFloat.mul (weight (Z.to_nat n) i) (f (node a h i)))).

(** The running sum of Simpson's rule: [f] at the two ends, [4 f] at the
odd nodes, [2 f] at the even ones in between. *)
Fixpoint simpson_sum (n k : nat) (t : nat -> num) : num :=
let term (i : nat) :=
if (i =? 0)%nat || (i =? n)%nat then t i
else if Nat.odd i then PrimFloat.mul 4%float (t i)
else PrimFloat.mul 2%float (t i) in
match k with
| O => PrimFloat.add PrimFloat.zero (term O)
| S k' => PrimFloat.add (simpson_sum n k' t) (term k)
end.

(** Simpson's value [(h/3) (f(x_0) + 4 f(x_1) + 2 f(x_2) + ... + f(x_n))]. *)
Definition simpson (a b : num) (n : Z) (f : num -> num) : num :=
let h := PrimFloat.div (PrimFloat.sub b a) (numZ n) in
PrimFloat.mul (PrimFloat.div h 3%float)
(simpson_sum (Z.to_nat n) (Z.to_nat n) (fun i => f (node a h i))).

End Spec.

(** ** Inputs of the examples *)

Module Examples.
Local Open Scope float_scope.

(** The bisection run of the specification: [x^2-2] on [[1, 2]]. *)
Definition sqrt2_bisection : BisectionMethod.params :=
{| BisectionMethod.function := "x^2-2";
BisectionMethod.a := 1;
BisectionMethod.b := 2;
BisectionMethod.tolerance := 1e-6;
BisectionMethod.maxIterations := 50 |}.

(** A fixed-point run whose first step leaves the threshold, and a Newton
run whose first step does. *)
Definition square_fixed_point : FixedPointMethod.params :=
{| FixedPointMethod.function := "x*x";
FixedPointMethod.x0 := 1000000;
FixedPointMethod.tolerance := 1e-8;
FixedPointMethod.maxIterations := 50 |}.

Definition flat_newton : NewtonMethod.params :=
{| NewtonMethod.function := "x*x+100";
NewtonMethod.x0 := 1e-9;
NewtonMethod.tolerance := 1e-8;
NewtonMethod.maxIterations := 50 |}.

(** A fixed-point run that starts beyond the threshold, at a fixed point. *)
Definition far_fixed_point : FixedPointMethod.params :=
{| FixedPointMethod.function := "x";
FixedPointMethod.x0 := 1e11;
FixedPointMethod.tolerance := 1e-8;
FixedPointMethod.maxIterations := 50 |}.

(** A strictly diagonally dominant system of three equations. *)
Definition dominant_matrix : list (list num) :=
[[4; 1; 1]; [1; 5; 2]; [1; 2; 6]].

Definition dominant_vector : list num := [6; 8; 9].

(** A system whose first row is not diagonally dominant. *)
Definition weak_system : LinearSystem.params :=
{| LinearSystem.matrix := [[1; 2]; [3; 4]];
LinearSystem.vector := [1; 1];
LinearSystem.initialGuess := [0; 0];
LinearSystem.tolerance := 1e-6;
LinearSystem.maxIterations := 5 |}.

(** The points of the specification, [(0,1), (1,2), (2,5)], evaluated
outside [[0, 2]]. *)
Definition parabola_beyond : LagrangePolynomial.params :=
{| LagrangePolynomial.xPoints := [0; 1; 2];
LagrangePolynomial.yPoints := [1; 2; 5];
LagrangePolynomial.xEval := 3 |}.

(** The integral of [x*x] over [[0, 1]] with four subdivisions. *)
Definition square_integral : NumericalIntegration.params :=
{| NumericalIntegration.function := "x*x";
NumericalIntegration.a := 0;
NumericalIntegration.b := 1;
NumericalIntegration.n := 4 |}.

End Examples.

(** ** All the methods behind one interface *)

Module Methods.

Inductive call : Type :=
| Bisection (p : BisectionMethod.params)
| Newton (p : NewtonMethod.params)
| FixedPoint (p : FixedPointMethod.params)
| GaussSeidel (p : LinearSystem.params)
| GaussJacobi (p : LinearSystem.params)
| Lagrange (p : LagrangePolynomial.params)
| Differentiation (p : NumericalDifferentiation.params)
| Integration (p : NumericalIntegration.params).

(** [new Method(logger)]. *)
Definition construct (c : call) (logger : list LogEvent) : Instance :=
match c with
| Bisection _ => BisectionMethod.construct logger
| Newton _ => NewtonMethod.construct logger
| FixedPoint _ => FixedPointMethod.construct logger
| GaussSeidel _ => GaussSeidelMethod.construct logger
| GaussJacobi _ => GaussJacobiMethod.construct logger
| Lagrange _ => LagrangePolynomial.construct logger
| Differentiation _ => NumericalDifferentiation.construct logger
| Integration _ => NumericalIntegration.construct logger
end.

(** [method.calculate(params)]. *)
Definition calculate `{Host.MathHost} (c : call) : M unit :=
match c with
| Bisection p => BisectionMethod.calculate p
| Newton p => NewtonMethod.calculate p
| FixedPoint p => FixedPointMethod.calculate p
| GaussSeidel p => GaussSeidelMethod.calculate p
| GaussJacobi p => GaussJacobiMethod.calculate p
| Lagrange p => LagrangePolynomial.calculate p
| Differentiation p => NumericalDifferentiation.calculate p
| Integration p => NumericalIntegration.calculate p
end.

(** The instance a run leaves, and what [getResults] then returns. *)
Definition run `{Host.MathHost} (c : call) (s : Instance) : Instance :=
snd (calculate c s).

End Methods.

(** ** Relations between instances *)

Module Run.

(** [s'] is [s] with more log entries and nothing else changed. *)
Definition only_logs (s s' : Instance) : Prop :=
name s' = name s /\ iterations s' = iterations s /\ result s' = result s
/\ exists l, logs s' = logs s ++ l.

(** The log entries of [s] are still in [s']. *)
Definition keeps_logs (s s' : Instance) : Prop :=
forall e, In e (logs s) -> In e (logs s').

(** A computation that only writes to the log, and whose outcome does not
depend on the instance it runs on (beyond its name). *)
Definition LogOnly {A} (m : M A) : Prop :=
(forall s, only_logs s (snd (m s)))
/\ (forall s s', name s = name s' -> fst (m s) = fst (m s')).

(** Two instances of the same method that agree on the fields flagged. *)
Definition agree (ki kr : bool) (s s' : Instance) : Prop :=
name s = name s'
/\ (ki = true -> iterations s = iterations s')
/\ (kr = true -> result s = result s').

(** After two runs from [s] and [s'], a field is the same in both, or each
run has left it as it found it. *)
Definition same_or_kept {B} (f : Instance -> B) (s s' t t' : Instance) : Prop :=
f t = f t' \/ (f t = f s /\ f t' = f s').

(** A computation that, run on two instances agreeing on the flagged
fields, has the same outcome on both and treats each field alike. *)
Definition Coherent {A} (ki kr : bool) (m : M A) : Prop :=
forall s s', agree ki kr s s' ->
fst (m s) = fst (m s')
/\ name (snd (m s)) = name s
/\ name (snd (m s')) = name s'
/\ same_or_kept iterations s s' (snd (m s)) (snd (m s'))
/\ same_or_kept result s s' (snd (m s)) (snd (m s')).

(** The host evaluates the text of [func] at [x] to the number [v]. *)
Definition evaluates `{Host.MathHost} (func : string) (x v : num) : Prop :=
Host.Function_call (NumericalMethod.expression_of func x) = Host.HVal (Host.JNum v).

End Run.

(** ** Validation and errors of the eight methods *)

Module Errors.
Import Methods.

(** [method.validateParams(params)]. *)
Definition validate (c : call) : M bool :=
match c with
| Bisection p => BisectionMethod.validateParams p
| Newton p => NewtonMethod.validateParams p
| FixedPoint p => FixedPointMethod.validateParams p
| GaussSeidel p => LinearSystem.validateParams p
| GaussJacobi p => LinearSystem.validateParams p
| Lagrange p => LagrangePolynomial.validateParams p
| Differentiation p => NumericalDifferentiation.validateParams p
| Integration p => NumericalIntegration.validateParams p
end.

(** The errors that the body of [calculate] throws by itself or lets
through, apart from those of [validateParams]. *)
Definition thrown_by (c : call) : list exn :=
match c with
| Bisection _ =>
[ NumericalMethod.invalid_function; BisectionMethod.same_signs;
ConstAssignment "fb"; ConstAssignment "fa" ]
| Newton _ =>
[ NumericalMethod.invalid_function; NewtonMethod.derivative_failed;
NewtonMethod.small_derivative; NewtonMethod.diverges ]
| FixedPoint _ =>
[ NumericalMethod.invalid_function; FixedPointMethod.diverges ]
| GaussSeidel _ | GaussJacobi _ | Lagrange _ => []
| Differentiation _ | Integration _ => [ NumericalMethod.invalid_function ]
end.

(** The message with which every [calculate] opens the log. *)
Definition opening (c : call) : message :=
match c with
| Bisection _ => [Str "Iniciando cálculo por método de Bisección"]
| Newton _ => [Str "Iniciando cálculo por método de Newton-Raphson"]
| FixedPoint _ => [Str "Iniciando cálculo por método de Punto Fijo"]
| GaussSeidel _ => [Str "Iniciando cálculo por método de Gauss-Seidel"]
| GaussJacobi _ => [Str "Iniciando cálculo por método de Gauss-Jacobi"]
| Lagrange _ => [Str "Iniciando cálculo del polinomio de Lagrange"]
| Differentiation _ => [Str "Iniciando cálculo de diferenciación numérica"]
| Integration _ => [Str "Iniciando cálculo de integración numérica"]
end.

(** Every error a computation throws satisfies [P]. *)
Definition Raises {A} (P : exn -> Prop) (m : M A) : Prop :=
forall s e, fst (m s) = Throw e -> P e.

(** A computation that keeps the name and only adds entries at the end of
the log. *)
Definition Appends {A} (m : M A) : Prop :=
forall s, name (snd (m s)) = name s /\ exists l, logs (snd (m s)) = logs s ++ l.

End Errors.

(** ** What [getResults] holds after a run that returns *)

Module Results.
Import Methods.

(** The number of entries of [this.iterations]: one per turn of the loop,
per point or per node. *)
Definition records (c : call) (k : nat) : Prop :=
match c with
| Bisection _ => k = 1%nat
| Newton p => (1 <= k <= Z.to_nat (NewtonMethod.maxIterations p))%nat
| FixedPoint p => (1 <= k <= Z.to_nat (FixedPointMethod.maxIterations p))%nat
| GaussSeidel p | GaussJacobi p =>
(1 <= k <= Z.to_nat (LinearSystem.maxIterations p))%nat
| Lagrange p => k = length (LagrangePolynomial.xPoints p)
| Differentiation _ => k = 1%nat
| Integration p => k = (Z.to_nat (NumericalIntegration.n p) + 1)%nat
end.

(** The kind of value in [this.result]: a number, or for the two linear
solvers an array with one entry per equation. *)
Definition shape (c : call) (r : option resval) : Prop :=
match c, r with
| (GaussSeidel p | GaussJacobi p), Some (RVec w) =>
length w = length (LinearSystem.matrix p)
| (GaussSeidel _ | GaussJacobi _), _ => False
| _, Some (RNum _) => True
| _, _ => False
end.

End Results.

(** ** Texts *)

Module Texts.
Import Host.

(** A text without the letter [x]. *)
Definition no_x (l : text) : Prop := Forall (fun s : sym => s <> Ch "x") l.

(** Two symbols that the host reads alike: the same character, or two
printed numbers that read back as the same number. *)
Definition same_reading (s t : sym) : Prop :=
match s, t with
| Ch c, Ch d => c = d
| Lit v, Lit w => printed v = printed w
| _, _ => False
end.

End Texts.

(** ** The tests of a Newton-Raphson turn *)

Module NewtonTurn.
Local Open Scope float_scope.

(** The values a turn computes from [f(x)], [f(x + h)] and [f(x - h)], and
the tests it makes on them, as the loop of [NewtonMethod.calculate] writes
them. *)
Definition quotient (f1 f2 : num) : num := (f1 - f2) / (2 * 0.0001).

Definition flat (f1 f2 : num) : bool := Math_abs (quotient f1 f2) <? 1e-10.

Definition next (x fx f1 f2 : num) : num := x - fx / quotient f1 f2.

Definition close (tol x fx f1 f2 : num) : bool :=
(Math_abs (next x fx f1 f2 - x) <? tol) || (Math_abs fx <? tol).

Definition far (x fx f1 f2 : num) : bool :=
(1e10 <? Math_abs (next x fx f1 f2)) || isNaN (next x fx f1 f2).

End NewtonTurn.

(** ** The tests of a turn of the linear solvers *)

Module LinearTurn.
Import LinearSystem.
Local Open Scope float_scope.

(** A Jacobi sweep into the array [new Array(n).fill(0)] of the first
turn. *)
Definition jacobi_step (m : list (list num)) (v : list num) (n : nat)
 (x : list num) : list num :=
GaussJacobiMethod.sweep m v n x (replicate n 0).

Section WithHost.
Context `{Host.MathHost}.

(** The convergence tests of the two loops, on the new and the previous
vector. *)
Definition jacobi_close (n : nat) (tol : num) (xNew x : list num) : bool :=
max_error n xNew x <? tol.

Definition seidel_close (n : nat) (tol : num) (x xOld : list num) : bool :=
(max_error n x xOld <? tol)
|| (GaussSeidelMethod.relative_error n x xOld <? tol).

End WithHost.

End LinearTurn.

(** ** The set of the points, while it is filled *)

Module Points.
Import LagrangePolynomial.

(** The elements of a [Set] that holds [seen], once the values of [l] are
added in order; [Set_of l] is [fill l []]. *)
Definition fill (l seen : list num) : list num :=
fold_left (fun seen x => if existsb (same_value_zero x) seen then seen
                     else seen ++ [x]) l seen.

End Points.

(** ** The warnings of a Lagrange run *)

Module LagrangeWarnings.
Import Host NumericalMethod LagrangePolynomial.
Local Open Scope float_scope.

(** [maxError] after the verification loop: the largest distance between
the polynomial at a point [x_i] and [y_i]. *)
Definition verification_error (xs ys : list num) : num :=
fold_left
(fun maxError i =>
Math_max maxError (Math_abs (interpolate xs ys (at_ xs i) - at_ ys i)))
(seq 0 (length xs)) 0.

Definition error_warning (xs ys : list num) : LogEvent :=
{| lvl := warning;
msg := [Str "Error máximo en la interpolación: ";
Expo (verification_error xs ys) 2] |}.

Definition reliability_warning : LogEvent :=
{| lvl := warning;
msg := [Str "Se está realizando extrapolación, los resultados pueden ser menos confiables"] |}.

(** The warnings that the two tests at the end of [calculate] ask for. *)
Definition expected_warnings (p : params) : list LogEvent :=
(if 1e-10 <? verification_error (xPoints p) (yPoints p)
then [error_warning (xPoints p) (yPoints p)] else [])
++ (if extrapolates p then [extrapolation_warning p; reliability_warning] else []).

(** From [s] to [s'] the log has grown, by entries that are no warnings. *)
Definition quiet (s s' : Instance) : Prop :=
exists l, logs s' = logs s ++ l /\ warnings l = [].

End LagrangeWarnings.

(** * Properties *)

(** ** Numbers *)

Module NumFacts.
Local Open Scope float_scope.

Lemma SFmul_comm (prec emax : Z) (x y : spec_float) :
SFmul prec emax x y = SFmul prec emax y x.
Proof.
destruct x as [sx|sx| |sx mx ex], y as [sy|sy| |sy my ey]; simpl;
try reflexivity; try (now rewrite xorb_comm).
now rewrite xorb_comm, Pos.mul_comm, Z.add_comm.
Qed.

(** Multiplication of numbers is commutative. *)
Lemma mul_comm (x y : num) : x * y = y * x.
Proof.
rewrite <- (SF2Prim_Prim2SF (x * y)), <- (SF2Prim_Prim2SF (y * x)).
rewrite !FloatAxioms.mul_spec. unfold SF64mul. now rewrite SFmul_comm.
Qed.

Lemma SFcompare_refl (x y : spec_float) (c : comparison) :
SFcompare x y = Some c -> SFcompare x x = Some Eq.
Proof.
destruct x as [sx|sx| |sx mx ex]; simpl.
- reflexivity.
- now destruct sx.
- destruct y; discriminate.
- intros _.
destruct sx; rewrite Z.compare_refl; simpl;
rewrite (Pos.compare_cont_refl mx Eq); reflexivity.
Qed.

(** A number that compares below or equal to another is not NaN. *)
Lemma leb_not_nan_l (x y : num) : (x <=? y) = true -> isNaN x = false.
Proof.
unfold isNaN. rewrite FloatAxioms.leb_spec, FloatAxioms.eqb_spec. unfold SFleb, SFeqb.
destruct (SFcompare (Prim2SF x) (Prim2SF y)) as [c|] eqn:E; [|discriminate].
intros _. now rewrite (SFcompare_refl _ _ _ E).
Qed.

Lemma SFcompare_refl_r (x y : spec_float) (c : comparison) :
SFcompare x y = Some c -> SFcompare y y = Some Eq.
Proof.
destruct y as [sy|sy| |sy my ey]; simpl.
- reflexivity.
- now destruct sy.
- destruct x; discriminate.
- intros _.
destruct sy; rewrite Z.compare_refl; simpl;
rewrite (Pos.compare_cont_refl my Eq); reflexivity.
Qed.

Lemma leb_not_nan_r (x y : num) : (x <=? y) = true -> isNaN y = false.
Proof.
unfold isNaN. rewrite FloatAxioms.leb_spec, FloatAxioms.eqb_spec. unfold SFleb, SFeqb.
destruct (SFcompare (Prim2SF x) (Prim2SF y)) as [c|] eqn:E; [|discriminate].
intros _. now rewrite (SFcompare_refl_r _ _ _ E).
Qed.

End NumFacts.

(** ** The evaluator *)

Module EvaluatorFacts.
Import Host NumericalMethod Spec.
Local Open Scope float_scope.



(** C5, as stated, fails: the text [1)+(2] is not a well-formed expression,
and evaluating it returns [3]. *)
Lemma malformed_text_evaluates :
well_formed "1)+(2" = false
/\ evaluateFunction (H := SeriesHost.series_host) "1)+(2" 0 (Method.construct "" [])
= (Ret 3, Method.construct "" []).
Proof. split; vm_compute; reflexivity. Qed.

(** C5, amended: on a host with [Math.pow(2, 2) = 4] and [Math.sin(0) = 0],
[x^2+3*x-2] at [2] is exactly [8] and [sin(x)] at [0] is [0]; a text
on which the host throws, such as [x +], fails with the error
[Función inválida] instead of returning a value. *)
Theorem evaluator_test_values `{MathHost} (s : Instance) :
Math_pow 2 2 = 4 ->
Math_sin 0 = 0 ->
evaluateFunction "x^2+3*x-2" 2 s = (Ret 8, s)
/\ evaluateFunction "sin(x)" 0 s = (Ret 0, s)
/\ (forall x, fst (evaluateFunction "x +" x s) = Throw invalid_function)
/\ (forall func x e,
Function_call (expression_of func x) = HThrow e ->
fst (evaluateFunction func x s) = Throw invalid_function).
Proof.
intros Hpow Hsin. destruct H as [sin cos tan log sqrt exp pow].
simpl in Hpow, Hsin. split; [|split; [|split]].
- unfold evaluateFunction. vm_compute. rewrite Hpow. vm_compute. reflexivity.
- unfold evaluateFunction. vm_compute. rewrite Hsin. reflexivity.
- intros x. reflexivity.
- intros func x e He. unfold evaluateFunction. rewrite He. reflexivity.
Qed.

Lemma evaluator_test_values_witness :
evaluateFunction (H := SeriesHost.series_host) "x^2+3*x-2" 2 (Method.construct "" [])
= (Ret 8, Method.construct "" []).
Proof.
apply (evaluator_test_values (H := SeriesHost.series_host) (Method.construct "" []));
vm_compute; reflexivity.
Defined.

End EvaluatorFacts.

(** ** Running a method body *)

Module RunFacts.
Import Host NumericalMethod Run.

Lemma only_logs_refl (s : Instance) : only_logs s s.
Proof. repeat split. exists []. now rewrite app_nil_r. Qed.

Lemma only_logs_trans (s t u : Instance) :
only_logs s t -> only_logs t u -> only_logs s u.
Proof.
intros (Hn & Hi & Hr & l & Hl) (Hn' & Hi' & Hr' & l' & Hl').
repeat split; try congruence.
exists (l ++ l'). now rewrite Hl', Hl, app_assoc.
Qed.

Lemma only_logs_logged (l : level) (m : message) (s : Instance) :
only_logs s (logged l m s).
Proof. repeat split. eexists. reflexivity. Qed.

(** Entries already in the log stay in it. *)
Lemma only_logs_In (s t : Instance) (e : LogEvent) :
only_logs s t -> In e (logs s) -> In e (logs t).
Proof.
intros (_ & _ & _ & l & Hl) Hin. rewrite Hl. apply in_or_app. now left.
Qed.

(** *** Computations that only log *)

Lemma logonly_ret {A} (a : A) : LogOnly (ret a).
Proof. split; intros; [apply only_logs_refl | reflexivity]. Qed.

Lemma logonly_throw {A} (e : exn) : LogOnly (@throw A e).
Proof. split; intros; [apply only_logs_refl | reflexivity]. Qed.

Lemma logonly_out_of_model {A} : LogOnly (@out_of_model A).
Proof. split; intros; [apply only_logs_refl | reflexivity]. Qed.

Lemma logonly_log (l : level) (m : message) : LogOnly (log l m).
Proof. split; intros; [apply only_logs_logged | reflexivity]. Qed.

Lemma logonly_get_name : LogOnly get_name.
Proof.
split; intros; [apply only_logs_refl | simpl; congruence].
Qed.

Lemma logonly_bind {A B} (m : M A) (k : A -> M B) :
LogOnly m -> (forall a, LogOnly (k a)) -> LogOnly (bind m k).
Proof.
intros [Hm1 Hm2] Hk. split.
- intros s. unfold bind. specialize (Hm1 s).
destruct (m s) as [[a|e|] s1]; simpl in *; trivial.
eapply only_logs_trans; [exact Hm1 | apply (Hk a)].
- intros s s' Hn. unfold bind.
specialize (Hm2 s s' Hn).
pose proof (Hm1 s) as (Hn1 & _). pose proof (Hm1 s') as (Hn1' & _).
destruct (m s) as [o s1], (m s') as [o' s1']; simpl in *. subst o'.
destruct o as [a|e|]; trivial.
apply (Hk a). congruence.
Qed.

Lemma logonly_try_catch {A} (m : M A) (h : exn -> M A) :
LogOnly m -> (forall e, LogOnly (h e)) -> LogOnly (try_catch m h).
Proof.
intros [Hm1 Hm2] Hh. split.
- intros s. unfold try_catch. specialize (Hm1 s).
destruct (m s) as [[a|e|] s1]; simpl in *; trivial.
eapply only_logs_trans; [exact Hm1 | apply (Hh e)].
- intros s s' Hn. unfold try_catch.
specialize (Hm2 s s' Hn).
pose proof (Hm1 s) as (Hn1 & _). pose proof (Hm1 s') as (Hn1' & _).
destruct (m s) as [o s1], (m s') as [o' s1']; simpl in *. subst o'.
destruct o as [a|e|]; trivial.
apply (Hh e). congruence.
Qed.

Lemma logonly_if {A} (c : bool) (m1 m2 : M A) :
LogOnly m1 -> LogOnly m2 -> LogOnly (if c then m1 else m2).
Proof. now destruct c. Qed.

Lemma logonly_when (c : bool) (m : M unit) : LogOnly m -> LogOnly (when c m).
Proof. intros Hm. unfold when. destruct c; [exact Hm | apply logonly_ret]. Qed.

Lemma logonly_for_each {A} (l : list A) (body : A -> M unit) :
(forall x, LogOnly (body x)) -> LogOnly (for_each l body).
Proof.
intros Hb. induction l as [|x l IH]; simpl.
- apply logonly_ret.
- apply logonly_bind; [apply Hb | intros _; exact IH].
Qed.

Lemma logonly_fold_each {A S} (l : list A) (body : S -> A -> M S) (s0 : S) :
(forall s x, LogOnly (body s x)) -> LogOnly (fold_each l body s0).
Proof.
intros Hb. revert s0. induction l as [|x l IH]; intros s0; simpl.
- apply logonly_ret.
- apply logonly_bind; [apply Hb | intros s1; apply IH].
Qed.

Lemma logonly_evaluateFunction `{MathHost} (func : string) (x : num) :
LogOnly (evaluateFunction func x).
Proof.
unfold evaluateFunction.
destruct (Function_call (expression_of func x)) as [[v| | |b]|e|].
- apply logonly_ret.
- apply logonly_out_of_model.
- apply logonly_out_of_model.
- apply logonly_out_of_model.
- apply logonly_bind; [apply logonly_log | intros _; apply logonly_throw].
- apply logonly_out_of_model.
Qed.

Lemma logonly_validateParams : LogOnly NumericalMethod.validateParams.
Proof.
unfold NumericalMethod.validateParams.
apply logonly_bind; [apply logonly_get_name | intros n].
apply logonly_bind; [apply logonly_log | intros _; apply logonly_ret].
Qed.

Create HintDb logonly.
#[export] Hint Resolve logonly_ret logonly_throw logonly_out_of_model logonly_log
logonly_get_name logonly_bind logonly_try_catch logonly_if logonly_when
logonly_for_each logonly_fold_each logonly_evaluateFunction
logonly_validateParams : logonly.

(** The use of a logging computation inside a run: its outcome can be read
on any instance of the same name, and the run goes on from an instance
that differs by log entries only. *)
Lemma run_logonly {A} (m : M A) (s0 s : Instance) (o : outcome A) :
LogOnly m -> name s0 = name s -> fst (m s0) = o ->
exists s1, only_logs s s1 /\ m s = (o, s1).
Proof.
intros [H1 H2] Hn Ho. exists (snd (m s)). split; [apply H1|].
rewrite <- Ho, (H2 s0 s Hn). now destruct (m s).
Qed.

Lemma bind_ret {A B} (m : M A) (k : A -> M B) (s s' : Instance) (a : A) :
m s = (Ret a, s') -> bind m k s = k a s'.
Proof. intros E. unfold bind. now rewrite E. Qed.

Lemma bind_throw {A B} (m : M A) (k : A -> M B) (s s' : Instance) (e : exn) :
m s = (Throw e, s') -> bind m k s = (Throw e, s').
Proof. intros E. unfold bind. now rewrite E. Qed.

Lemma run_ret {A B} (a : A) (k : A -> M B) (s : Instance) :
bind (ret a) k s = k a s.
Proof. reflexivity. Qed.

Lemma run_throw {A B} (e : exn) (k : A -> M B) (s : Instance) :
bind (throw e) k s = (Throw e, s).
Proof. reflexivity. Qed.

Lemma run_log {B} (l : level) (m : message) (k : unit -> M B) (s : Instance) :
bind (log l m) k s = k tt (logged l m s).
Proof. reflexivity. Qed.

Lemma run_get_name {B} (k : string -> M B) (s : Instance) :
bind get_name k s = k (name s) s.
Proof. reflexivity. Qed.

Lemma run_get_result {B} (k : option resval -> M B) (s : Instance) :
bind get_result k s = k (result s) s.
Proof. reflexivity. Qed.

Lemma run_set_result {B} (r : option resval) (k : unit -> M B) (s : Instance) :
bind (set_result r) k s = k tt (with_result r s).
Proof. reflexivity. Qed.

Lemma run_set_iterations {B} (l : list record) (k : unit -> M B) (s : Instance) :
bind (set_iterations l) k s = k tt (with_iterations l s).
Proof. reflexivity. Qed.

Lemma run_push {B} (r : record) (k : unit -> M B) (s : Instance) :
bind (push_iteration r) k s = k tt (pushed r s).
Proof. reflexivity. Qed.

Lemma run_base_validate {B} (k : bool -> M B) (s : Instance) :
bind NumericalMethod.validateParams k s
= k true (logged info [Str "Validando parámetros para "; Str (name s)] s).
Proof. reflexivity. Qed.

Lemma run_assoc {A B C} (m : M A) (k1 : A -> M B) (k2 : B -> M C) (s : Instance) :
bind (bind m k1) k2 s = bind m (fun a => bind (k1 a) k2) s.
Proof. unfold bind. now destruct (m s) as [[a|e|] s1]. Qed.

(** Running the next primitive step of a body. *)
Ltac run_step :=
first [ rewrite run_log | rewrite run_set_result | rewrite run_set_iterations
| rewrite run_push | rewrite run_get_result | rewrite run_get_name
| rewrite run_base_validate | rewrite run_ret | rewrite run_throw
| rewrite run_assoc ];
cbv beta.

Lemma evaluateFunction_value `{MathHost} (func : string) (x v : num) (s : Instance) :
evaluates func x v -> evaluateFunction func x s = (Ret v, s).
Proof. unfold evaluates, evaluateFunction. now intros ->. Qed.

Lemma evaluateFunction_ret `{MathHost} (func : string) (x v : num) (s s' : Instance) :
evaluateFunction func x s = (Ret v, s') -> evaluates func x v /\ s' = s.
Proof.
unfold evaluates, evaluateFunction.
destruct (Function_call (expression_of func x)) as [[w| | |b]|e|];
try discriminate.
intros E. inversion E. now subst.
Qed.

End RunFacts.

(** ** Bisection *)

Module BisectionFacts.
Import Host NumericalMethod Run RunFacts BisectionMethod.
Local Open Scope float_scope.

Lemma logonly_bisection_validate (p : params) : LogOnly (validateParams p).
Proof. unfold validateParams. auto 20 with logonly. Qed.

(** One turn of the loop: it either stops on convergence at the midpoint, or
throws at the assignment to [fb] or [fa] that follows the narrowing.  It
never goes on to a second turn. *)
Lemma loop_step `{MathHost} (func : string) (tol fa : num) (fuel : nat)
(iter : Z) (aVal bVal fc : num) (s : Instance) :
evaluates func ((aVal + bVal) / 2) fc ->
exists s',
iterations s' = iterations s ++
[ [ ("iteration", VNum (numZ (iter + 1))); ("a", VNum aVal);
("b", VNum bVal); ("c", VNum ((aVal + bVal) / 2)); ("fc", VNum fc);
("error", VNum (Math_abs (bVal - aVal) / 2)) ]%string ]
/\ name s' = name s
/\ if (Math_abs fc <? tol) || (Math_abs (bVal - aVal) / 2 <? tol)
then loop func tol fa (S fuel) iter aVal bVal s = (Ret (aVal, bVal), s')
/\ result s' = Some (RNum ((aVal + bVal) / 2))
else loop func tol fa (S fuel) iter aVal bVal s
= (Throw (ConstAssignment (if fa * fc <? 0 then "fb" else "fa")), s')
/\ result s' = result s.
Proof.
intros Hfc. cbn [loop].
rewrite (bind_ret _ _ _ _ _ (evaluateFunction_value _ _ _ s Hfc)).
destruct ((Math_abs fc <? tol) || (Math_abs (bVal - aVal) / 2 <? tol)) eqn:Hc.
- eexists. split; [|split; [|split]]; [| |reflexivity|]; reflexivity.
- destruct (fa * fc <? 0);
(eexists; split; [|split; [|split]]; [| |reflexivity|]; reflexivity).
Qed.

Lemma validate_inv (p : params) (s : Instance) :
fst (validateParams p s) = Ret true ->
blank (function p) = false
/\ isNaN (a p) || isNaN (b p) = false
/\ (b p <=? a p) = false
/\ (tolerance p <=? 0) = false
/\ (maxIterations p <=? 0)%Z = false.
Proof.
unfold validateParams. rewrite run_base_validate.
destruct (blank (function p)); [discriminate|].
destruct (isNaN (a p) || isNaN (b p)); [discriminate|].
destruct (b p <=? a p); [discriminate|].
destruct (tolerance p <=? 0); [discriminate|].
destruct (maxIterations p <=? 0)%Z; [discriminate|].
now intros _.
Qed.

(** C2, the defect: a run that passes validation and the sign test, and
whose first midpoint does not meet the tolerance, throws the TypeError
of an assignment to a constant ([fb] or [fa]) at the end of its first
turn.  It has then recorded one iteration and no result. *)
Theorem bisection_stops_at_first_narrowing `{MathHost}
(p : params) (s : Instance) (fa fb fc : num) :
fst (validateParams p s) = Ret true ->
evaluates (function p) (a p) fa ->
evaluates (function p) (b p) fb ->
(0 <? fa * fb) = false ->
evaluates (function p) ((a p + b p) / 2) fc ->
(Math_abs fc <? tolerance p) || (Math_abs (b p - a p) / 2 <? tolerance p) = false ->
fst (calculate p s) = Throw (ConstAssignment (if fa * fc <? 0 then "fb" else "fa"))
/\ result (snd (calculate p s)) = None
/\ length (iterations (snd (calculate p s))) = 1%nat.
Proof.
intros Hv Hfa Hfb Hsign Hfc Hconv.
destruct (validate_inv p s Hv) as (_ & _ & _ & _ & Hmax).
unfold calculate. run_step.
destruct (run_logonly (validateParams p) s
(logged info [Str "Iniciando cálculo por método de Bisección"] s)
(Ret true) (logonly_bisection_validate p) eq_refl Hv) as (s1 & Hs1 & E1).
rewrite (bind_ret _ _ _ _ _ E1).
rewrite (bind_ret _ _ _ _ _ (evaluateFunction_value _ _ _ _ Hfa)).
rewrite (bind_ret _ _ _ _ _ (evaluateFunction_value _ _ _ _ Hfb)).
run_step. rewrite Hsign. run_step. run_step.
destruct (Z.to_nat (maxIterations p)) as [|fuel] eqn:Hfuel;
[apply Z.leb_gt in Hmax; lia|].
match goal with
| |- context [bind (loop ?f ?t ?x (S fuel) ?i ?u ?v) _ ?st] =>
destruct (loop_step f t x fuel i u v fc st Hfc) as (s' & Hit & Hnm & Hloop)
end.
rewrite Hconv in Hloop. destruct Hloop as [E Hres].
rewrite (bind_throw _ _ _ _ _ E). simpl.
split; [reflexivity|]. split.
- rewrite Hres. reflexivity.
- rewrite Hit. reflexivity.
Qed.

(** The run of the specification, [x^2-2] on [[1, 2]] with tolerance [1e-6]
and 50 iterations: it throws after its first midpoint [1.5]. *)
Lemma bisection_sqrt2_throws :
fst (calculate (H := SeriesHost.series_host) Examples.sqrt2_bisection
(construct []))
= Throw (ConstAssignment "fb")
/\ result (snd (calculate (H := SeriesHost.series_host)
  Examples.sqrt2_bisection (construct []))) = None
/\ length (iterations (snd (calculate (H := SeriesHost.series_host)
              Examples.sqrt2_bisection (construct [])))) = 1%nat.
Proof.
apply (bisection_stops_at_first_narrowing (H := SeriesHost.series_host)
Examples.sqrt2_bisection (construct []) (-1) 2 0.25);
vm_compute; reflexivity.
Defined.

End BisectionFacts.

(** ** Bounds of an interval *)

Module BoundsFacts.
Import Host NumericalMethod Run RunFacts NumFacts.
Local Open Scope float_scope.

Lemma bisection_bounds (p : BisectionMethod.params) (s : Instance) :
(BisectionMethod.b p <=? BisectionMethod.a p) = true ->
exists e,
fst (BisectionMethod.validateParams p s) = Throw e
/\ (blank (BisectionMethod.function p) = false -> e = BisectionMethod.bounds_order).
Proof.
intros Hle. unfold BisectionMethod.validateParams. rewrite run_base_validate.
destruct (blank (BisectionMethod.function p)).
- eexists. split; [reflexivity | discriminate].
- rewrite (leb_not_nan_r _ _ Hle), (leb_not_nan_l _ _ Hle), Hle.
eexists. split; reflexivity.
Qed.

Lemma integration_bounds (p : NumericalIntegration.params) (s : Instance) :
(NumericalIntegration.b p <=? NumericalIntegration.a p) = true ->
exists e,
fst (NumericalIntegration.validateParams p s) = Throw e
/\ (blank (NumericalIntegration.function p) = false ->
e = NumericalIntegration.bounds_order).
Proof.
intros Hle. unfold NumericalIntegration.validateParams. rewrite run_base_validate.
destruct (blank (NumericalIntegration.function p)).
- eexists. split; [reflexivity | discriminate].
- rewrite (leb_not_nan_r _ _ Hle), (leb_not_nan_l _ _ Hle), Hle.
eexists. split; reflexivity.
Qed.

(** C10: when [a >= b], the validation of bisection and that of integration
both fail, whatever the other fields; when the function text is not
blank the error is the one that says the lower bound must be less than
the upper bound.  The same error ends [calculate]. *)
Theorem bounds_must_be_ordered `{MathHost} :
(forall (p : BisectionMethod.params) (s : Instance),
(BisectionMethod.b p <=? BisectionMethod.a p) = true ->
exists e,
fst (BisectionMethod.validateParams p s) = Throw e
/\ fst (BisectionMethod.calculate p s) = Throw e
/\ (blank (BisectionMethod.function p) = false ->
e = BisectionMethod.bounds_order))
/\ (forall (p : NumericalIntegration.params) (s : Instance),
(NumericalIntegration.b p <=? NumericalIntegration.a p) = true ->
exists e,
fst (NumericalIntegration.validateParams p s) = Throw e
/\ fst (NumericalIntegration.calculate p s) = Throw e
/\ (blank (NumericalIntegration.function p) = false ->
e = NumericalIntegration.bounds_order)).
Proof.
split; intros p s Hle.
- destruct (bisection_bounds p s Hle) as (e & He & Hmsg).
exists e. split; [exact He|]. split; [|exact Hmsg].
unfold BisectionMethod.calculate. run_step.
destruct (run_logonly _ s
(logged info [Str "Iniciando cálculo por método de Bisección"] s)
_ (BisectionFacts.logonly_bisection_validate p) eq_refl He)
as (s1 & _ & E1).
now rewrite (bind_throw _ _ _ _ _ E1).
- destruct (integration_bounds p s Hle) as (e & He & Hmsg).
exists e. split; [exact He|]. split; [|exact Hmsg].
unfold NumericalIntegration.calculate. run_step.
assert (Hlo : LogOnly (NumericalIntegration.validateParams p)).
{ unfold NumericalIntegration.validateParams. auto 20 with logonly. }
destruct (run_logonly _ s
(logged info [Str "Iniciando cálculo de integración numérica"] s)
_ Hlo eq_refl He)
as (s1 & _ & E1).
now rewrite (bind_throw _ _ _ _ _ E1).
Qed.

Lemma bounds_must_be_ordered_witness :
exists e,
fst (BisectionMethod.validateParams
{| BisectionMethod.function := "x";
BisectionMethod.a := 2;
BisectionMethod.b := 1;
BisectionMethod.tolerance := 1e-6;
BisectionMethod.maxIterations := 50 |}
(BisectionMethod.construct [])) = Throw e
/\ fst (BisectionMethod.calculate (H := SeriesHost.series_host)
{| BisectionMethod.function := "x";
BisectionMethod.a := 2;
BisectionMethod.b := 1;
BisectionMethod.tolerance := 1e-6;
BisectionMethod.maxIterations := 50 |}
(BisectionMethod.construct [])) = Throw e
/\ (blank "x" = false -> e = BisectionMethod.bounds_order).
Proof.
apply (proj1 (bounds_must_be_ordered (H := SeriesHost.series_host))).
vm_compute. reflexivity.
Defined.

End BoundsFacts.

(** ** Newton-Raphson and fixed point: divergence *)

Module DivergenceFacts.
Import Host NumericalMethod Run RunFacts.
Local Open Scope float_scope.

Lemma try_catch_ret {A} (m : M A) (h : exn -> M A) (s s' : Instance) (a : A) :
m s = (Ret a, s') -> try_catch m h s = (Ret a, s').
Proof. intros E. unfold try_catch. now rewrite E. Qed.

Lemma logonly_fixed_point_validate (p : FixedPointMethod.params) :
LogOnly (FixedPointMethod.validateParams p).
Proof. unfold FixedPointMethod.validateParams. auto 20 with logonly. Qed.

Lemma logonly_newton_validate (p : NewtonMethod.params) :
LogOnly (NewtonMethod.validateParams p).
Proof. unfold NewtonMethod.validateParams. auto 20 with logonly. Qed.

(** A diverging turn of the fixed-point loop. *)
Lemma fixed_point_step_diverges `{MathHost} (func : string) (tol : num)
(fuel : nat) (iter : Z) (x xNext : num) (s : Instance) :
evaluates func x xNext ->
(Math_abs (xNext - x) <? tol) = false ->
(1e10 <? Math_abs xNext) = true ->
exists s',
FixedPointMethod.loop func tol (S fuel) iter x s
= (Throw FixedPointMethod.diverges, s')
/\ result s' = result s.
Proof.
intros Hx Hconv Hbig. cbn [FixedPointMethod.loop].
rewrite (bind_ret _ _ _ _ _
(try_catch_ret _ _ _ _ _ (evaluateFunction_value _ _ _ s Hx))).
do 2 run_step. rewrite Hconv, Hbig. run_step.
eexists. split; reflexivity.
Qed.

Lemma derivative_value `{MathHost} (func : string) (x f1 f2 : num) (s : Instance) :
evaluates func (x + 0.0001) f1 ->
evaluates func (x - 0.0001) f2 ->
NewtonMethod.calculateDerivative func x s = (Ret ((f1 - f2) / (2 * 0.0001)), s).
Proof.
intros H1 H2. unfold NewtonMethod.calculateDerivative.
apply try_catch_ret.
rewrite (bind_ret _ _ _ _ _ (evaluateFunction_value _ _ _ s H1)).
rewrite (bind_ret _ _ _ _ _ (evaluateFunction_value _ _ _ s H2)).
reflexivity.
Qed.

(** A diverging turn of the Newton-Raphson loop. *)
Lemma newton_step_diverges `{MathHost} (func : string) (tol : num)
(fuel : nat) (iter : Z) (x fx f1 f2 : num) (s : Instance) :
evaluates func x fx ->
evaluates func (x + 0.0001) f1 ->
evaluates func (x - 0.0001) f2 ->
let fpx := (f1 - f2) / (2 * 0.0001) in
let xNext := x - fx / fpx in
(Math_abs fpx <? 1e-10) = false ->
(Math_abs (xNext - x) <? tol) || (Math_abs fx <? tol) = false ->
(1e10 <? Math_abs xNext) || isNaN xNext = true ->
exists s',
NewtonMethod.loop func tol (S fuel) iter x s = (Throw NewtonMethod.diverges, s')
/\ result s' = result s.
Proof.
intros Hx H1 H2 fpx xNext Hder Hconv Hbig. cbn [NewtonMethod.loop].
assert (E : try_catch
(bind (evaluateFunction func x) (fun fx0 =>
bind (NewtonMethod.calculateDerivative func x) (fun fpx0 =>
ret (fx0, fpx0))))
(fun e =>
 bind (log Logger.error
         ([Str "Error en iteración "; NumStr (numZ (iter + 1));
           Str ": "] ++ exn_message e))
      (fun _ => throw e)) s
= (Ret (fx, fpx), s)).
{ apply try_catch_ret.
rewrite (bind_ret _ _ _ _ _ (evaluateFunction_value _ _ _ s Hx)).
rewrite (bind_ret _ _ _ _ _ (derivative_value _ _ _ _ s H1 H2)).
reflexivity. }
rewrite (bind_ret _ _ _ _ _ E). cbn [fst snd].
fold fpx. rewrite Hder. fold xNext.
do 3 run_step. rewrite Hconv, Hbig. run_step.
eexists. split; reflexivity.
Qed.

Lemma fixed_point_budget (p : FixedPointMethod.params) (s : Instance) :
fst (FixedPointMethod.validateParams p s) = Ret true ->
exists fuel, Z.to_nat (FixedPointMethod.maxIterations p) = S fuel.
Proof.
unfold FixedPointMethod.validateParams. rewrite run_base_validate.
destruct (blank _); [discriminate|].
destruct (isNaN _); [discriminate|].
destruct (_ <=? 0); [discriminate|].
destruct (FixedPointMethod.maxIterations p <=? 0)%Z eqn:Hmax; [discriminate|].
intros _. apply Z.leb_gt in Hmax.
exists (Nat.pred (Z.to_nat (FixedPointMethod.maxIterations p))). lia.
Qed.

Lemma newton_budget (p : NewtonMethod.params) (s : Instance) :
fst (NewtonMethod.validateParams p s) = Ret true ->
exists fuel, Z.to_nat (NewtonMethod.maxIterations p) = S fuel.
Proof.
unfold NewtonMethod.validateParams. rewrite run_base_validate.
destruct (blank _); [discriminate|].
destruct (isNaN _); [discriminate|].
destruct (_ <=? 0); [discriminate|].
destruct (NewtonMethod.maxIterations p <=? 0)%Z eqn:Hmax; [discriminate|].
intros _. apply Z.leb_gt in Hmax.
exists (Nat.pred (Z.to_nat (NewtonMethod.maxIterations p))). lia.
Qed.

Lemma fixed_point_first_step_diverges `{MathHost}
(p : FixedPointMethod.params) (s : Instance) (xNext : num) :
fst (FixedPointMethod.validateParams p s) = Ret true ->
evaluates (FixedPointMethod.function p) (FixedPointMethod.x0 p) xNext ->
(Math_abs (xNext - FixedPointMethod.x0 p) <? FixedPointMethod.tolerance p) = false ->
(1e10 <? Math_abs xNext) = true ->
fst (FixedPointMethod.calculate p s) = Throw FixedPointMethod.diverges
/\ result (snd (FixedPointMethod.calculate p s)) = None.
Proof.
intros Hv Hx Hconv Hbig.
destruct (fixed_point_budget p s Hv) as (fuel & Hfuel).
unfold FixedPointMethod.calculate. run_step.
destruct (run_logonly (FixedPointMethod.validateParams p) s
(logged info [Str "Iniciando cálculo por método de Punto Fijo"] s)
(Ret true) (logonly_fixed_point_validate p) eq_refl Hv)
as (s1 & Hs1 & E1).
rewrite (bind_ret _ _ _ _ _ E1). do 4 run_step. rewrite Hfuel.
match goal with
| |- context [bind (FixedPointMethod.loop ?f ?t (S fuel) ?i ?u) _ ?st] =>
destruct (fixed_point_step_diverges f t fuel i u xNext st Hx Hconv Hbig)
as (s' & E & Hres)
end.
rewrite (bind_throw _ _ _ _ _ E). simpl. split; [reflexivity|].
rewrite Hres. reflexivity.
Qed.

Lemma newton_first_step_diverges `{MathHost}
(p : NewtonMethod.params) (s : Instance) (fx f1 f2 : num) :
fst (NewtonMethod.validateParams p s) = Ret true ->
evaluates (NewtonMethod.function p) (NewtonMethod.x0 p) fx ->
evaluates (NewtonMethod.function p) (NewtonMethod.x0 p + 0.0001) f1 ->
evaluates (NewtonMethod.function p) (NewtonMethod.x0 p - 0.0001) f2 ->
let fpx := (f1 - f2) / (2 * 0.0001) in
let xNext := NewtonMethod.x0 p - fx / fpx in
(Math_abs fpx <? 1e-10) = false ->
(Math_abs (xNext - NewtonMethod.x0 p) <? NewtonMethod.tolerance p)
|| (Math_abs fx <? NewtonMethod.tolerance p) = false ->
(1e10 <? Math_abs xNext) || isNaN xNext = true ->
fst (NewtonMethod.calculate p s) = Throw NewtonMethod.diverges
/\ result (snd (NewtonMethod.calculate p s)) = None.
Proof.
intros Hv Hx H1 H2 fpx xNext Hder Hconv Hbig.
destruct (newton_budget p s Hv) as (fuel & Hfuel).
unfold NewtonMethod.calculate. run_step.
destruct (run_logonly (NewtonMethod.validateParams p) s
(logged info [Str "Iniciando cálculo por método de Newton-Raphson"] s)
(Ret true) (logonly_newton_validate p) eq_refl Hv)
as (s1 & Hs1 & E1).
rewrite (bind_ret _ _ _ _ _ E1). do 4 run_step. rewrite Hfuel.
match goal with
| |- context [bind (NewtonMethod.loop ?f ?t (S fuel) ?i ?u) _ ?st] =>
destruct (newton_step_diverges f t fuel i u fx f1 f2 st Hx H1 H2
Hder Hconv Hbig) as (s' & E & Hres)
end.
rewrite (bind_throw _ _ _ _ _ E). simpl. split; [reflexivity|].
rewrite Hres. reflexivity.
Qed.




End DivergenceFacts.

(** ** The sweeps of Gauss-Jacobi and Gauss-Seidel *)

Module SweepFacts.
Import Host NumericalMethod Run RunFacts LinearSystem.
Local Open Scope float_scope.
Local Open Scope nat_scope.

Lemma at_lookup (l : list num) (i : nat) (x : num) :
l !! i = Some x -> at_ l i = x.
Proof. unfold at_, num in *. now intros ->. Qed.

(** A loop that skips one index adds over the other indices. *)
Lemma fold_skip (f : nat -> num) (i : nat) (js : list nat) (a : num) :
fold_left (fun sum j => if i =? j then sum else (sum + f j)%float) js a
= fold_left (fun sum j => (sum + f j)%float)
(List.filter (fun j => negb (j =? i)) js) a.
Proof.
revert a. induction js as [|j js IH]; intros a; simpl; [reflexivity|].
rewrite (Nat.eqb_sym j i). destruct (i =? j); simpl; apply IH.
Qed.

(** A sum of products reads the vector at the indices it runs over only. *)
Lemma add_products_ext (r x : list num) (g : nat -> num) (js : list nat) (a : num) :
(forall j, In j js -> at_ x j = g j) ->
add_products r x js a = fold_left (fun sum j => (sum + at_ r j * g j)%float) js a.
Proof.
unfold add_products. revert a.
induction js as [|j js IH]; intros a Hg; simpl; [reflexivity|].
rewrite (Hg j (or_introl eq_refl)). apply IH. intros k Hk. apply Hg. now right.
Qed.

Lemma filter_all {A} (p : A -> bool) (l : list A) :
(forall x, In x l -> p x = true) -> List.filter p l = l.
Proof.
induction l as [|x l IH]; intros Hp; [reflexivity|].
simpl. rewrite (Hp x (or_introl eq_refl)).
f_equal. apply IH. intros y Hy. apply Hp. now right.
Qed.

Lemma filter_none {A} (p : A -> bool) (l : list A) :
(forall x, In x l -> p x = false) -> List.filter p l = [].
Proof.
induction l as [|x l IH]; intros Hp; [reflexivity|].
simpl. rewrite (Hp x (or_introl eq_refl)).
apply IH. intros y Hy. apply Hp. now right.
Qed.

(** The indices other than [i] are those below it, then those above it. *)
Lemma others_split (i n : nat) :
i < n -> Spec.others i n = seq 0 i ++ seq (i + 1) (n - (i + 1)).
Proof.
intros Hi. unfold Spec.others.
replace n with (i + (1 + (n - (i + 1)))) at 1 by lia.
rewrite !seq_app, !List.filter_app. simpl seq.
rewrite filter_all, filter_none, filter_all; [reflexivity| | |].
- intros j Hj. apply in_seq in Hj. apply negb_true_iff, Nat.eqb_neq. lia.
- intros j [<-|[]]. apply negb_false_iff, Nat.eqb_refl.
- intros j Hj. apply in_seq in Hj. apply negb_true_iff, Nat.eqb_neq. lia.
Qed.

Lemma sum_over_ext (js : list nat) (f g : nat -> num) :
(forall j, In j js -> f j = g j) -> Spec.sum_over js f = Spec.sum_over js g.
Proof.
unfold Spec.sum_over. generalize PrimFloat.zero as a.
induction js as [|j js IH]; intros a Hfg; simpl; [reflexivity|].
rewrite (Hfg j (or_introl eq_refl)). apply IH. intros k Hk. apply Hfg. now right.
Qed.

Lemma entry_ext (m : list (list num)) (v : list num) (n i : nat) (f g : nat -> num) :
(forall j, j < n -> j <> i -> f j = g j) ->
Spec.entry m v n i f = Spec.entry m v n i g.
Proof.
intros Hfg. unfold Spec.entry. f_equal. f_equal. apply sum_over_ext.
intros j Hj. unfold Spec.others in Hj. apply List.filter_In in Hj as [Hj Hne].
apply in_seq in Hj. apply negb_true_iff, Nat.eqb_neq in Hne.
f_equal. apply Hfg; lia.
Qed.

(** The Jacobi sweep after its first [k] writes. *)
Lemma jacobi_prefix (m : list (list num)) (v x xNew : list num) (n k : nat) :
k <= length xNew ->
let y := fold_left (GaussJacobiMethod.update_entry m v n x) (seq 0 k) xNew in
length y = length xNew
/\ (forall i, i < k -> y !! i = Some (Spec.entry m v n i (at_ x)))
/\ (forall i, k <= i -> y !! i = xNew !! i).
Proof.
induction k as [|k IH]; intros Hk y.
- subst y. simpl. split; [reflexivity | split; [intros; lia | reflexivity]].
- destruct IH as (Hlen & Hlow & Hhigh); [lia|].
subst y. rewrite seq_S, fold_left_app. simpl.
set (y := fold_left (GaussJacobiMethod.update_entry m v n x) (seq 0 k) xNew) in *.
unfold GaussJacobiMethod.update_entry.
split; [|split].
+ now rewrite length_insert.
+ intros i Hi. destruct (decide (i = k)) as [->|Hne].
* rewrite list_lookup_insert_eq by lia. f_equal.
unfold Spec.entry, Spec.sum_over, GaussJacobiMethod.row_sum.
now rewrite fold_skip.
* rewrite list_lookup_insert_ne by congruence. apply Hlow. lia.
+ intros i Hi. rewrite list_lookup_insert_ne by lia. apply Hhigh. lia.
Qed.

(** The Gauss-Seidel sweep after its first [k] writes: the entries below
[k] are final, the others are still those of the previous iterate. *)
Lemma seidel_prefix (m : list (list num)) (v x : list num) (n k : nat) :
k <= n -> length x = n ->
let y := fold_left (GaussSeidelMethod.update_entry m v n) (seq 0 k) x in
length y = n
/\ (forall i, i < k ->
y !! i = Some (Spec.entry m v n i
         (fun j => if j <? i then at_ y j else at_ x j)))
/\ (forall i, k <= i -> y !! i = x !! i).
Proof.
intros Hk Hx. induction k as [|k IH]; intros y.
- subst y. simpl. split; [exact Hx | split; [intros; lia | reflexivity]].
- destruct IH as (Hlen & Hlow & Hhigh); [lia|].
subst y. rewrite seq_S, fold_left_app. simpl.
set (y := fold_left (GaussSeidelMethod.update_entry m v n) (seq 0 k) x) in *.
unfold GaussSeidelMethod.update_entry.
set (e := ((at_ v k - _) / _)%float).
assert (Hsame : forall j, j <> k -> at_ (<[k:=e]> y) j = at_ y j).
{ intros j Hj. unfold at_. now rewrite list_lookup_insert_ne by congruence. }
split; [|split].
+ now rewrite length_insert.
+ intros i Hi. destruct (decide (i = k)) as [->|Hne].
* rewrite list_lookup_insert_eq by lia. f_equal.
unfold Spec.entry, Spec.sum_over. rewrite others_split by lia.
rewrite fold_left_app. unfold e at 1. f_equal. f_equal.
rewrite (add_products_ext _ y
   (fun j => if j <? k then at_ (<[k:=e]> y) j else at_ x j)).
2:{ intros j Hj. apply in_seq in Hj.
destruct (j <? k) eqn:Hjk; [apply Nat.ltb_lt in Hjk; lia|].
unfold at_. f_equal. apply Hhigh. lia. }
f_equal.
apply (add_products_ext _ y
 (fun j => if j <? k then at_ (<[k:=e]> y) j else at_ x j)).
intros j Hj. apply in_seq in Hj.
destruct (j <? k) eqn:Hjk; [|apply Nat.ltb_ge in Hjk; lia].
symmetry. apply Hsame. lia.
* rewrite list_lookup_insert_ne by congruence.
rewrite Hlow by lia. f_equal. apply entry_ext.
intros j Hj Hji. destruct (j <? i) eqn:Hjk; [|reflexivity].
apply Nat.ltb_lt in Hjk. symmetry. apply Hsame. lia.
+ intros i Hi. rewrite list_lookup_insert_ne by lia. apply Hhigh. lia.
Qed.

Lemma jacobi_sweep_entry (m : list (list num)) (v x xNew : list num) (n i : nat) :
length xNew = n -> i < n ->
at_ (GaussJacobiMethod.sweep m v n x xNew) i = Spec.entry m v n i (at_ x).
Proof.
intros Hlen Hi. apply at_lookup.
destruct (jacobi_prefix m v x xNew n n) as (_ & Hlow & _); [lia|].
now apply Hlow.
Qed.

Lemma seidel_sweep_entry (m : list (list num)) (v x : list num) (n i : nat) :
length x = n -> i < n ->
at_ (GaussSeidelMethod.sweep m v n x) i
= Spec.entry m v n i
(fun j => if j <? i then at_ (GaussSeidelMethod.sweep m v n x) j else at_ x j).
Proof.
intros Hlen Hi. apply at_lookup.
destruct (seidel_prefix m v x n n) as (_ & Hlow & _); [lia | exact Hlen |].
now apply Hlow.
Qed.

(** A turn of the Jacobi loop that does not converge hands the whole swept
vector to the next turn. *)
Lemma jacobi_loop_continues `{MathHost} (m : list (list num)) (v : list num)
(n : nat) (tol : num) (fuel : nat) (iter : Z) (x xNew : list num)
(s : Instance) :
(max_error n (GaussJacobiMethod.sweep m v n x xNew) x <? tol)%float = false ->
exists s1,
GaussJacobiMethod.loop m v n tol (S fuel) iter x xNew s
= GaussJacobiMethod.loop m v n tol fuel (iter + 1)%Z
(GaussJacobiMethod.sweep m v n x xNew)
(GaussJacobiMethod.sweep m v n x xNew) s1.
Proof.
intros Hconv. cbn [GaussJacobiMethod.loop]. do 4 run_step. rewrite Hconv.
eexists. reflexivity.
Qed.

(** A turn of the Gauss-Seidel loop that does not converge goes on from the
vector it has updated in place. *)
Lemma seidel_loop_continues `{MathHost} (m : list (list num)) (v : list num)
(n : nat) (tol : num) (fuel : nat) (iter : Z) (x : list num)
(s : Instance) :
(max_error n (GaussSeidelMethod.sweep m v n x) x <? tol)%float
|| (GaussSeidelMethod.relative_error n (GaussSeidelMethod.sweep m v n x) x <? tol)%float
= false ->
exists s1,
GaussSeidelMethod.loop m v n tol (S fuel) iter x s
= GaussSeidelMethod.loop m v n tol fuel (iter + 1)%Z
(GaussSeidelMethod.sweep m v n x) s1.
Proof.
intros Hconv. cbn [GaussSeidelMethod.loop]. do 5 run_step. rewrite Hconv.
eexists. reflexivity.
Qed.



End SweepFacts.

(** ** Linear systems: validation and completion *)

Module LinearFacts.
Import Host NumericalMethod Run RunFacts LinearSystem.
Local Open Scope float_scope.
Local Open Scope nat_scope.

Lemma logonly_linear_validate (p : params) : LogOnly (validateParams p).
Proof.
unfold validateParams, dominance_warning. auto 30 with logonly.
Qed.

(** A loop of checks throws at the first element that fails its check. *)
Lemma for_each_check {A} (c : A -> bool) (e : A -> exn) (l : list A) (s : Instance) :
for_each l (fun x => if c x then throw (e x) else ret tt) s
= match List.find c l with
| Some x => (Throw (e x), s)
| None => (Ret tt, s)
end.
Proof.
induction l as [|x l IH]; simpl; [reflexivity|].
destruct (c x); [reflexivity|]. rewrite run_ret. exact IH.
Qed.

Lemma run_checks {A B} (c : A -> bool) (e : A -> exn) (l : list A)
(k : unit -> M B) (s : Instance) :
bind (for_each l (fun x => if c x then throw (e x) else ret tt)) k s
= match List.find c l with
| Some x => (Throw (e x), s)
| None => k tt s
end.
Proof.
unfold bind at 1. rewrite for_each_check. now destruct (List.find c l).
Qed.

(** The loop of dominance warnings: it cannot fail, and it leaves a warning
for every row that is not strictly dominant. *)
Lemma dominance_loop (m : list (list num)) (n : nat) (l : list nat) (s : Instance) :
exists s',
for_each l (fun i => when (not_dominant m n i) (dominance_warning i)) s
= (Ret tt, s')
/\ only_logs s s'
/\ forall i, In i l -> not_dominant m n i = true ->
In {| lvl := warning;
msg := [Str "Fila "; NumStr (numN (i + 1));
       Str ": La matriz no es estrictamente diagonal dominante"] |}
(logs s').
Proof.
revert s. induction l as [|j l IH]; intros s; simpl.
- exists s. split; [reflexivity|]. split; [apply only_logs_refl | intros i []].
- unfold when at 1. destruct (not_dominant m n j) eqn:Hj.
+ unfold dominance_warning at 1.
rewrite run_assoc. do 2 run_step.
match goal with |- context [for_each l ?b ?st] =>
destruct (IH st) as (s' & E & Hl & Hin) end.
exists s'. split; [exact E|]. split.
* eapply only_logs_trans; [|exact Hl].
eapply only_logs_trans; apply only_logs_logged.
* intros i [<-|Hi] Hd; [|now apply Hin].
apply (only_logs_In _ _ _ Hl). simpl.
apply in_or_app. left. apply in_or_app. right. now left.
+ rewrite run_ret. destruct (IH s) as (s' & E & Hl & Hin).
exists s'. split; [exact E|]. split; [exact Hl|].
intros i [<-|Hi] Hd; [congruence | now apply Hin].
Qed.

(** What a run of the shared validation can end with. *)
Lemma validate_run (p : params) (s : Instance) :
let n := length (matrix p) in
match fst (validateParams p s) with
| Ret b =>
b = true
/\ (forall i, i < n -> tiny_diagonal (matrix p) i = false)
/\ length (initialGuess p) = n
/\ (0 < maxIterations p)%Z
/\ only_logs s (snd (validateParams p s))
/\ (forall i, i < n -> not_dominant (matrix p) n i = true ->
In {| lvl := warning;
  msg := [Str "Fila "; NumStr (numN (i + 1));
          Str ": La matriz no es estrictamente diagonal dominante"] |}
(logs (snd (validateParams p s))))
| Throw e =>
(e = not_square \/ e = vector_size \/ e = guess_size)
\/ (exists j, j < n /\ tiny_diagonal (matrix p) j = true /\ e = zero_diagonal j)
\/ ((forall i, i < n -> tiny_diagonal (matrix p) i = false)
/\ (e = bad_tolerance \/ e = bad_budget))
| OutOfModel => False
end.
Proof.
intros n. unfold validateParams. fold n. run_step.
rewrite (run_checks (fun i => negb (length (row (matrix p) i) =? n))
(fun _ => not_square)).
destruct (List.find _ (seq 0 n)); [simpl; auto|].
destruct (negb (length (vector p) =? n)); [simpl; auto|].
destruct (negb (length (initialGuess p) =? n)) eqn:Hg; [simpl; auto|].
apply negb_false_iff, Nat.eqb_eq in Hg.
match goal with |- context [bind (for_each (seq 0 n) ?b) _ ?st] =>
destruct (dominance_loop (matrix p) n (seq 0 n) st) as (s1 & E & Hl & Hin) end.
rewrite (bind_ret _ _ _ _ _ E).
rewrite (run_checks (tiny_diagonal (matrix p)) zero_diagonal).
destruct (List.find (tiny_diagonal (matrix p)) (seq 0 n)) as [j|] eqn:Hf.
- simpl. right. left. apply List.find_some in Hf as [Hj Ht].
apply in_seq in Hj. exists j. repeat split; [lia | exact Ht].
- assert (Htiny : forall i, i < n -> tiny_diagonal (matrix p) i = false).
{ intros i Hi. apply (List.find_none _ _ Hf). apply in_seq. lia. }
destruct (tolerance p <=? 0)%float; [simpl; auto|].
destruct (maxIterations p <=? 0)%Z eqn:Hmax; [simpl; auto|].
apply Z.leb_gt in Hmax. simpl.
split; [reflexivity|]. split; [exact Htiny|]. split; [exact Hg|].
split; [exact Hmax|]. split.
+ eapply only_logs_trans; [apply only_logs_logged | exact Hl].
+ intros i Hi Hd. apply Hin; [apply in_seq; lia | exact Hd].
Qed.

Lemma keeps_logs_refl (s : Instance) : keeps_logs s s.
Proof. now intros e. Qed.

Lemma keeps_logs_trans (s t u : Instance) :
keeps_logs s t -> keeps_logs t u -> keeps_logs s u.
Proof. intros H1 H2 e He. now apply H2, H1. Qed.

Lemma keeps_logs_logged (l : level) (m : message) (s : Instance) :
keeps_logs s (logged l m s).
Proof. intros e He. simpl. apply in_or_app. now left. Qed.

Lemma keeps_logs_only (s t : Instance) : only_logs s t -> keeps_logs s t.
Proof. intros H e. now apply only_logs_In. Qed.

Ltac keep_logs :=
let e := fresh "e" in
let He := fresh "He" in
intros e He; simpl; repeat (apply in_or_app; left); exact He.

(** The Gauss-Seidel loop has no failing step: it returns, and if it has
changed the result, the result is a vector. *)
Lemma seidel_loop_returns `{MathHost} (m : list (list num)) (v : list num)
(n : nat) (tol : num) (fuel : nat) :
forall (iter : Z) (x : list num) (s : Instance),
exists x' s',
GaussSeidelMethod.loop m v n tol fuel iter x s = (Ret x', s')
/\ keeps_logs s s'
/\ (result s' = result s \/ exists w, result s' = Some (RVec w)).
Proof.
induction fuel as [|fuel IH]; intros iter x s.
- exists x, s. split; [reflexivity|]. split; [apply keeps_logs_refl | now left].
- cbn [GaussSeidelMethod.loop]. do 5 run_step.
match goal with |- context [if ?c then _ else _] => destruct c end.
+ do 3 run_step. eexists _, _. split; [reflexivity|].
split; [keep_logs | right; eexists; reflexivity].
+ match goal with |- context [GaussSeidelMethod.loop _ _ _ _ fuel ?i ?y ?st] =>
destruct (IH i y st) as (x' & s' & E & Hk & Hr) end.
exists x', s'. split; [exact E|]. split; [|exact Hr].
eapply keeps_logs_trans; [|exact Hk]. keep_logs.
Qed.

Lemma jacobi_loop_returns `{MathHost} (m : list (list num)) (v : list num)
(n : nat) (tol : num) (fuel : nat) :
forall (iter : Z) (x xNew : list num) (s : Instance),
exists x' s',
GaussJacobiMethod.loop m v n tol fuel iter x xNew s = (Ret x', s')
/\ keeps_logs s s'
/\ (result s' = result s \/ exists w, result s' = Some (RVec w)).
Proof.
induction fuel as [|fuel IH]; intros iter x xNew s.
- exists xNew, s. split; [reflexivity|]. split; [apply keeps_logs_refl | now left].
- cbn [GaussJacobiMethod.loop]. do 4 run_step.
match goal with |- context [if ?c then _ else _] => destruct c end.
+ do 3 run_step. eexists _, _. split; [reflexivity|].
split; [keep_logs | right; eexists; reflexivity].
+ match goal with
| |- context [GaussJacobiMethod.loop _ _ _ _ fuel ?i ?y ?z ?st] =>
destruct (IH i y z st) as (x' & s' & E & Hk & Hr)
end.
exists x', s'. split; [exact E|]. split; [|exact Hr].
eapply keeps_logs_trans; [|exact Hk]. keep_logs.
Qed.

Lemma validate_transfer (p : params) (s s0 : Instance) :
name s = name s0 ->
fst (validateParams p s) = Ret true ->
exists s1,
validateParams p s0 = (Ret true, s1)
/\ only_logs s0 s1
/\ (forall i, i < length (matrix p) ->
not_dominant (matrix p) (length (matrix p)) i = true ->
In {| lvl := warning;
msg := [Str "Fila "; NumStr (numN (i + 1));
        Str ": La matriz no es estrictamente diagonal dominante"] |}
(logs s1)).
Proof.
intros Hn Hv.
rewrite (proj2 (logonly_linear_validate p) s s0 Hn) in Hv.
pose proof (validate_run p s0) as Hrun. simpl in Hrun.
destruct (validateParams p s0) as [o s1]. simpl in *. subst o.
destruct Hrun as (_ & _ & _ & _ & Hl & Hin). now exists s1.
Qed.

(** After a validation that passes, Gauss-Seidel runs to completion. *)
Lemma seidel_completes `{MathHost} (p : params) (s : Instance) :
fst (validateParams p s) = Ret true ->
exists s' w,
GaussSeidelMethod.calculate p s = (Ret tt, s')
/\ result s' = Some (RVec w)
/\ (forall i, i < length (matrix p) ->
not_dominant (matrix p) (length (matrix p)) i = true ->
In {| lvl := warning;
msg := [Str "Fila "; NumStr (numN (i + 1));
        Str ": La matriz no es estrictamente diagonal dominante"] |}
(logs s')).
Proof.
intros Hv. unfold GaussSeidelMethod.calculate. run_step.
destruct (validate_transfer p s
(logged info [Str "Iniciando cálculo por método de Gauss-Seidel"] s)
eq_refl Hv) as (s1 & E1 & _ & Hin).
rewrite (bind_ret _ _ _ _ _ E1). do 4 run_step.
match goal with
| |- context [bind (GaussSeidelMethod.loop ?m ?v ?n ?t ?f ?i ?x) _ ?st] =>
destruct (seidel_loop_returns m v n t f i x st) as (x' & s2 & E2 & Hk & Hr)
end.
rewrite (bind_ret _ _ _ _ _ E2). run_step.
assert (Hkeep : keeps_logs s1 s2).
{ eapply keeps_logs_trans; [|exact Hk]. keep_logs. }
destruct Hr as [Hr|(w & Hr)]; rewrite Hr; simpl.
- eexists _, _. split; [do 2 run_step; reflexivity|].
split; [reflexivity|]. intros i Hi Hd. simpl.
do 2 (apply in_or_app; left). apply Hkeep. now apply Hin.
- exists s2, w. split; [reflexivity|]. split; [exact Hr|].
intros i Hi Hd. apply Hkeep. now apply Hin.
Qed.

(** After a validation that passes, Gauss-Jacobi runs to completion. *)
Lemma jacobi_completes `{MathHost} (p : params) (s : Instance) :
fst (validateParams p s) = Ret true ->
exists s' w,
GaussJacobiMethod.calculate p s = (Ret tt, s')
/\ result s' = Some (RVec w)
/\ (forall i, i < length (matrix p) ->
not_dominant (matrix p) (length (matrix p)) i = true ->
In {| lvl := warning;
msg := [Str "Fila "; NumStr (numN (i + 1));
        Str ": La matriz no es estrictamente diagonal dominante"] |}
(logs s')).
Proof.
intros Hv. unfold GaussJacobiMethod.calculate. run_step.
destruct (validate_transfer p s
(logged info [Str "Iniciando cálculo por método de Gauss-Jacobi"] s)
eq_refl Hv) as (s1 & E1 & _ & Hin).
rewrite (bind_ret _ _ _ _ _ E1). do 4 run_step.
match goal with
| |- context [bind (GaussJacobiMethod.loop ?m ?v ?n ?t ?f ?i ?x ?y) _ ?st] =>
destruct (jacobi_loop_returns m v n t f i x y st) as (x' & s2 & E2 & Hk & Hr)
end.
rewrite (bind_ret _ _ _ _ _ E2). run_step.
assert (Hkeep : keeps_logs s1 s2).
{ eapply keeps_logs_trans; [|exact Hk]. keep_logs. }
destruct Hr as [Hr|(w & Hr)]; rewrite Hr; simpl.
- eexists _, _. split; [run_step; reflexivity|].
split; [reflexivity|]. intros i Hi Hd. simpl.
apply in_or_app; left. apply Hkeep. now apply Hin.
- exists s2, w. split; [reflexivity|]. split; [exact Hr|].
intros i Hi Hd. apply Hkeep. now apply Hin.
Qed.

Lemma calculate_throws_with_validation `{MathHost} (p : params) (s : Instance) (e : exn) :
fst (validateParams p s) = Throw e ->
fst (GaussSeidelMethod.calculate p s) = Throw e
/\ fst (GaussJacobiMethod.calculate p s) = Throw e.
Proof.
intros He. split.
- unfold GaussSeidelMethod.calculate. run_step.
destruct (run_logonly _ s
(logged info [Str "Iniciando cálculo por método de Gauss-Seidel"] s)
_ (logonly_linear_validate p) eq_refl He) as (s1 & _ & E1).
now rewrite (bind_throw _ _ _ _ _ E1).
- unfold GaussJacobiMethod.calculate. run_step.
destruct (run_logonly _ s
(logged info [Str "Iniciando cálculo por método de Gauss-Jacobi"] s)
_ (logonly_linear_validate p) eq_refl He) as (s1 & _ & E1).
now rewrite (bind_throw _ _ _ _ _ E1).
Qed.

(** C6: for both methods, a diagonal entry of magnitude below [1e-10] makes
the validation, and with it the run, fail; a row that is not strictly
diagonally dominant only leaves a warning in the log, and the run of a
system that passes validation still completes with a vector. *)
Theorem diagonal_checks `{MathHost} :
(forall (p : params) (s : Instance) (i : nat),
i < length (matrix p) ->
tiny_diagonal (matrix p) i = true ->
exists e,
fst (validateParams p s) = Throw e
/\ fst (GaussSeidelMethod.calculate p s) = Throw e
/\ fst (GaussJacobiMethod.calculate p s) = Throw e
/\ ((e = not_square \/ e = vector_size \/ e = guess_size)
\/ exists j, tiny_diagonal (matrix p) j = true /\ e = zero_diagonal j))
/\ (forall (p : params) (s : Instance) (i : nat),
fst (validateParams p s) = Ret true ->
i < length (matrix p) ->
not_dominant (matrix p) (length (matrix p)) i = true ->
(exists s' w,
GaussSeidelMethod.calculate p s = (Ret tt, s')
/\ result s' = Some (RVec w)
/\ In {| lvl := warning;
      msg := [Str "Fila "; NumStr (numN (i + 1));
              Str ": La matriz no es estrictamente diagonal dominante"] |}
   (logs s'))
/\ (exists s' w,
GaussJacobiMethod.calculate p s = (Ret tt, s')
/\ result s' = Some (RVec w)
/\ In {| lvl := warning;
         msg := [Str "Fila "; NumStr (numN (i + 1));
                 Str ": La matriz no es estrictamente diagonal dominante"] |}
      (logs s'))).
Proof.
split.
- intros p s i Hi Ht. pose proof (validate_run p s) as Hrun. simpl in Hrun.
destruct (fst (validateParams p s)) as [b|e|] eqn:E.
+ destruct Hrun as (_ & Htiny & _). rewrite (Htiny i Hi) in Ht. discriminate.
+ exists e. split; [reflexivity|].
destruct (calculate_throws_with_validation p s e E) as [Hs Hj].
split; [exact Hs|]. split; [exact Hj|].
destruct Hrun as [Hshape|[(j & _ & Hj1 & Hj2)|(Htiny & _)]].
* now left.
* right. now exists j.
* rewrite (Htiny i Hi) in Ht. discriminate.
+ contradiction.
- intros p s i Hv Hi Hd. split.
+ destruct (seidel_completes p s Hv) as (s' & w & E & Hr & Hin).
exists s', w. split; [exact E|]. split; [exact Hr|]. now apply Hin.
+ destruct (jacobi_completes p s Hv) as (s' & w & E & Hr & Hin).
exists s', w. split; [exact E|]. split; [exact Hr|]. now apply Hin.
Qed.

Lemma diagonal_checks_witness :
(exists s' w,
GaussSeidelMethod.calculate (H := SeriesHost.series_host)
Examples.weak_system (GaussSeidelMethod.construct []) = (Ret tt, s')
/\ result s' = Some (RVec w)
/\ In {| lvl := warning;
msg := [Str "Fila "; NumStr (numN (0 + 1));
       Str ": La matriz no es estrictamente diagonal dominante"] |}
(logs s'))
/\ (exists s' w,
GaussJacobiMethod.calculate (H := SeriesHost.series_host)
Examples.weak_system (GaussSeidelMethod.construct []) = (Ret tt, s')
/\ result s' = Some (RVec w)
/\ In {| lvl := warning;
  msg := [Str "Fila "; NumStr (numN (0 + 1));
          Str ": La matriz no es estrictamente diagonal dominante"] |}
(logs s')).
Proof.
apply (proj2 (diagonal_checks (H := SeriesHost.series_host))).
- vm_compute. reflexivity.
- simpl. lia.
- vm_compute. reflexivity.
Defined.

End LinearFacts.

(** ** Lagrange interpolation *)

Module LagrangeFacts.
Import Host NumericalMethod Run RunFacts LagrangePolynomial.
Import LinearFacts.
Local Open Scope float_scope.

Lemma logonly_lagrange_validate (p : params) : LogOnly (validateParams p).
Proof. unfold validateParams. auto 30 with logonly. Qed.

(** A loop that only logs returns, and keeps the instance otherwise. *)
Lemma logging_loop {A} (l : list A) (lv : level) (f : A -> message) (s : Instance) :
exists s', for_each l (fun x => log lv (f x)) s = (Ret tt, s') /\ only_logs s s'.
Proof.
revert s. induction l as [|x l IH]; intros s; simpl.
- exists s. split; [reflexivity | apply only_logs_refl].
- run_step. destruct (IH (logged lv (f x) s)) as (s' & E & Hl).
exists s'. split; [exact E|].
eapply only_logs_trans; [apply only_logs_logged | exact Hl].
Qed.

(** The main loop adds the terms left to right; it keeps the log and the
result slot. *)
Lemma terms_loop (xs ys : list num) (xe : num) (l : list nat) :
forall (acc : num) (s : Instance),
exists s',
fold_each l (term_step xs ys xe) acc s
= (Ret (fold_left (fun r i => r + at_ ys i * calculateBasisPolynomial xs i xe)
l acc), s')
/\ keeps_logs s s' /\ result s' = result s.
Proof.
induction l as [|i l IH]; intros acc s; simpl.
- exists s. split; [reflexivity|]. split; [apply keeps_logs_refl | reflexivity].
- unfold term_step at 1.
destruct (fold_left _ (seq 0 (length xs)) ([], 1, 1)) as [[le nu] de].
repeat run_step.
match goal with |- context [fold_each l _ ?a ?st] =>
destruct (IH a st) as (s' & E & Hk & Hr) end.
exists s'. split; [exact E|]. split; [|exact Hr].
eapply keeps_logs_trans; [|exact Hk]. keep_logs.
Qed.

(** The verification loop only logs. *)
Lemma verify_loop (xs ys : list num) (l : list nat) :
forall (acc : num) (s : Instance),
exists m s',
fold_each l (verify_step xs ys) acc s = (Ret m, s') /\ only_logs s s'.
Proof.
induction l as [|i l IH]; intros acc s; simpl.
- exists acc, s. split; [reflexivity | apply only_logs_refl].
- unfold verify_step at 1. repeat run_step.
match goal with |- context [fold_each l _ ?a ?st] =>
destruct (IH a st) as (m & s' & E & Hl) end.
exists m, s'. split; [exact E|].
eapply only_logs_trans; [apply only_logs_logged | exact Hl].
Qed.

(** C8: when the evaluation point lies outside [[min x_i, max x_i]], a run
that passes validation does not fail: it returns the interpolated number
as its result and leaves the extrapolation warning in the log. *)
Theorem extrapolation_only_warns (p : params) (s : Instance) :
fst (validateParams p s) = Ret true ->
extrapolates p = true ->
exists s',
calculate p s = (Ret tt, s')
/\ result s' = Some (RNum (interpolate (xPoints p) (yPoints p) (xEval p)))
/\ In (extrapolation_warning p) (logs s').
Proof.
intros Hv Hex. unfold calculate. run_step.
destruct (run_logonly (validateParams p) s
(logged info [Str "Iniciando cálculo del polinomio de Lagrange"] s)
(Ret true) (logonly_lagrange_validate p) eq_refl Hv) as (s1 & _ & E1).
rewrite (bind_ret _ _ _ _ _ E1). do 2 run_step.
match goal with |- context [bind (for_each ?l (fun i => log ?lv (@?f i))) _ ?st] =>
destruct (logging_loop l lv f st) as (s2 & E2 & _) end.
rewrite (bind_ret _ _ _ _ _ E2). do 2 run_step.
match goal with |- context [bind (fold_each ?l (term_step ?xs ?ys ?xe) ?a) _ ?st] =>
destruct (terms_loop xs ys xe l a st) as (s3 & E3 & _ & _) end.
rewrite (bind_ret _ _ _ _ _ E3). do 3 run_step.
match goal with |- context [bind (fold_each ?l (verify_step ?xs ?ys) ?a) _ ?st] =>
destruct (verify_loop xs ys l a st) as (mx & s4 & E4 & (_ & _ & Hr4 & _)) end.
rewrite (bind_ret _ _ _ _ _ E4).
rewrite Hex. unfold when.
destruct (1e-10 <? mx); repeat run_step;
(eexists; split; [reflexivity|]; split;
[simpl; rewrite Hr4; reflexivity
| simpl; apply in_or_app; left; apply in_or_app; right; left;
unfold extrapolation_warning; reflexivity]).
Qed.

Lemma extrapolation_only_warns_witness :
exists s',
calculate Examples.parabola_beyond (construct []) = (Ret tt, s')
/\ result s' = Some (RNum (interpolate (xPoints Examples.parabola_beyond)
                 (yPoints Examples.parabola_beyond)
                 (xEval Examples.parabola_beyond)))
/\ In (extrapolation_warning Examples.parabola_beyond) (logs s').
Proof.
apply (extrapolation_only_warns Examples.parabola_beyond (construct []));
vm_compute; reflexivity.
Defined.

End LagrangeFacts.

(** ** Numerical integration *)

Module IntegrationFacts.
Import Host NumericalMethod Run RunFacts NumericalIntegration.
Import LinearFacts DivergenceFacts.
Local Open Scope float_scope.

Lemma logonly_integration_validate (p : params) : LogOnly (validateParams p).
Proof. unfold validateParams. auto 30 with logonly. Qed.

Lemma validate_budget (p : params) (s : Instance) :
fst (validateParams p s) = Ret true -> (0 < n p)%Z.
Proof.
unfold validateParams. run_step.
destruct (blank _); [discriminate|].
destruct (isNaN _ || isNaN _); [discriminate|].
destruct (_ <=? _); [discriminate|].
destruct ((n p =? 0)%Z || (n p <=? 0)%Z) eqn:Hn; [discriminate|].
intros _. apply orb_false_iff in Hn as [_ Hn]. now apply Z.leb_gt in Hn.
Qed.

(** A sum over [0, ..., k] written as a loop over the list of indices. *)
Lemma fold_sum_to (t : nat -> num) (k : nat) :
fold_left (fun sum i => sum + t i) (seq 0 (S k)) 0 = Spec.sum_to k t.
Proof.
induction k as [|k IH]; [reflexivity|].
rewrite seq_S, fold_left_app, IH. reflexivity.
Qed.

Lemma fold_indices {S} (g : S -> Z -> S) (l : list nat) (a : S) :
fold_left g (map Z.of_nat l) a = fold_left (fun s i => g s (Z.of_nat i)) l a.
Proof. revert a. induction l as [|i l IH]; intros a; simpl; [reflexivity | apply IH]. Qed.

(** The trapezoid loop over the indices [l], when the function evaluates
to [f] at every node: it adds the weighted values and keeps the log and
the result slot. *)
Lemma trapezoid_loop `{MathHost} (func : string) (aVal h : num) (nVal : Z)
(f : num -> num) (l : list Z) :
(forall i, In i l -> evaluates func (aVal + numZ i * h) (f (aVal + numZ i * h))) ->
forall (acc : num) (s : Instance),
exists s',
fold_each l (trapezoid_step func aVal h nVal) acc s
= (Ret (fold_left (fun sum i => sum + weight_at nVal i * f (aVal + numZ i * h))
l acc), s')
/\ keeps_logs s s' /\ result s' = result s.
Proof.
induction l as [|i l IH]; intros Hev acc s; simpl.
- exists s. split; [reflexivity|]. split; [apply keeps_logs_refl | reflexivity].
- unfold trapezoid_step at 1. rewrite run_assoc.
rewrite (bind_ret _ _ _ _ _
(try_catch_ret _ _ _ _ _
  (evaluateFunction_value _ _ _ s (Hev i (or_introl eq_refl))))).
repeat run_step. unfold when.
destruct (i mod Z.max 1 (nVal / 10) =? 0)%Z; repeat run_step;
(match goal with |- context [fold_each l _ ?a ?st] =>
destruct (IH (fun j Hj => Hev j (or_intror Hj)) a st)
as (s' & E & Hk & Hr) end;
exists s'; split; [exact E|]; split; [|exact Hr];
eapply keeps_logs_trans; [|exact Hk]; keep_logs).
Qed.

(** The Simpson loop under the same assumption: it leaves the instance as it
found it. *)
Lemma simpson_loop `{MathHost} (func : string) (aVal h : num) (nVal : Z)
(f : num -> num) (l : list Z) :
(forall i, In i l -> evaluates func (aVal + numZ i * h) (f (aVal + numZ i * h))) ->
forall (acc : num) (s : Instance),
fold_each l (simpson_step func aVal h nVal) acc s
= (Ret (fold_left
(fun sum i =>
 if (i =? 0)%Z || (i =? nVal)%Z then sum + f (aVal + numZ i * h)
 else if (i mod 2 =? 1)%Z then sum + 4 * f (aVal + numZ i * h)
 else sum + 2 * f (aVal + numZ i * h))
l acc), s).
Proof.
induction l as [|i l IH]; intros Hev acc s; simpl; [reflexivity|].
unfold simpson_step at 1. rewrite run_assoc.
rewrite (bind_ret _ _ _ _ _
(evaluateFunction_value _ _ _ s (Hev i (or_introl eq_refl)))).
destruct ((i =? 0)%Z || (i =? nVal)%Z); [|destruct (i mod 2 =? 1)%Z];
run_step; apply IH; intros j Hj; apply Hev; now right.
Qed.

Lemma odd_mod (i : nat) : (Z.of_nat i mod 2 =? 1)%Z = Nat.odd i.
Proof.
destruct (Nat.odd i) eqn:E.
- apply Nat.odd_spec in E. destruct E as [k ->]. apply Z.eqb_eq.
rewrite Nat2Z.inj_add, Nat2Z.inj_mul. simpl Z.of_nat.
rewrite Z.add_comm, Z.mul_comm. now rewrite Z_mod_plus_full.
- rewrite <- Nat.negb_even in E. apply negb_false_iff, Nat.even_spec in E.
destruct E as [k ->]. apply Z.eqb_neq.
rewrite Nat2Z.inj_mul. simpl Z.of_nat.
rewrite Z.mul_comm, Z_mod_mult. discriminate.
Qed.

Lemma fold_left_same {A B} (g g' : A -> B -> A) (l : list B) (a : A) :
(forall x y, g x y = g' x y) -> fold_left g l a = fold_left g' l a.
Proof.
intros Hg. revert a. induction l as [|y l IH]; intros a; simpl; [reflexivity|].
now rewrite Hg, IH.
Qed.

(** The two loops compute the sums of the two rules. *)
Lemma trapezoid_fold (n : nat) (t : num -> num) (aVal h : num) :
fold_left (fun sum i => sum + weight_at (Z.of_nat n) i * t (aVal + numZ i * h))
(indices (Z.of_nat n)) 0
= Spec.sum_to n (fun i => Spec.weight n i * t (Spec.node aVal h i)).
Proof.
unfold indices. rewrite Nat2Z.id, Nat.add_1_r, fold_indices, <- fold_sum_to.
apply fold_left_same. intros sum i. unfold weight_at, Spec.weight, Spec.node.
replace (Z.of_nat i =? 0)%Z with (i =? 0)%nat
by (destruct (Nat.eqb_spec i 0), (Z.eqb_spec (Z.of_nat i) 0); try reflexivity; lia).
replace (Z.of_nat i =? Z.of_nat n)%Z with (i =? n)%nat
by (destruct (Nat.eqb_spec i n), (Z.eqb_spec (Z.of_nat i) (Z.of_nat n));
try reflexivity; lia).
reflexivity.
Qed.

Lemma simpson_fold (n : nat) (t : num -> num) (aVal h : num) :
fold_left
(fun sum i =>
if (i =? 0)%Z || (i =? Z.of_nat n)%Z then sum + t (aVal + numZ i * h)
else if (i mod 2 =? 1)%Z then sum + 4 * t (aVal + numZ i * h)
else sum + 2 * t (aVal + numZ i * h))
(indices (Z.of_nat n)) 0
= Spec.simpson_sum n n (fun i => t (Spec.node aVal h i)).
Proof.
unfold indices. rewrite Nat2Z.id, Nat.add_1_r, fold_indices.
generalize n at 2 4 as k. intros k.
induction k as [|k IH].
- simpl. now destruct (0 =? Z.of_nat n)%Z.
- rewrite seq_S, fold_left_app, IH. cbn [fold_left Nat.add]. cbn [Spec.simpson_sum].
unfold Spec.node. rewrite odd_mod.
replace (Z.of_nat (S k) =? 0)%Z with (S k =? 0)%nat by reflexivity.
replace (Z.of_nat (S k) =? Z.of_nat n)%Z with (S k =? n)%nat
by (destruct (Nat.eqb_spec (S k) n),
   (Z.eqb_spec (Z.of_nat (S k)) (Z.of_nat n));
try reflexivity; lia).
destruct ((S k =? 0)%nat || (S k =? n)%nat); [reflexivity|].
now destruct (Nat.odd (S k)).
Qed.

Lemma trapezoid_value (a b : num) (n : Z) (f : num -> num) :
(0 < n)%Z ->
fold_left
(fun sum i => sum + weight_at n i * f (a + numZ i * ((b - a) / numZ n)))
(indices n) 0 * ((b - a) / numZ n)
= Spec.trapezoid a b n f.
Proof.
intros Hn. unfold Spec.trapezoid.
set (h := (b - a) / numZ n). clearbody h.
assert (Hn' : n = Z.of_nat (Z.to_nat n)) by lia.
set (k := Z.to_nat n) in *. clearbody k. subst n.
rewrite NumFacts.mul_comm. f_equal. apply trapezoid_fold.
Qed.

Lemma simpson_value (a b : num) (n : Z) (f : num -> num) :
(0 < n)%Z ->
(b - a) / numZ n / 3
* fold_left
(fun sum i =>
if (i =? 0)%Z || (i =? n)%Z
then sum + f (a + numZ i * ((b - a) / numZ n))
else if (i mod 2 =? 1)%Z
then sum + 4 * f (a + numZ i * ((b - a) / numZ n))
else sum + 2 * f (a + numZ i * ((b - a) / numZ n)))
(indices n) 0
= Spec.simpson a b n f.
Proof.
intros Hn. unfold Spec.simpson.
set (h := (b - a) / numZ n). clearbody h.
assert (Hn' : n = Z.of_nat (Z.to_nat n)) by lia.
set (k := Z.to_nat n) in *. clearbody k. subst n.
f_equal. apply simpson_fold.
Qed.



End IntegrationFacts.

(** ** Repeating a run *)

Module CoherenceFacts.
Import Host NumericalMethod Run RunFacts.

Lemma coherent_logonly {A} (ki kr : bool) (m : M A) :
LogOnly m -> Coherent ki kr m.
Proof.
intros [H1 H2] s s' (Hn & _ & _).
destruct (H1 s) as (Hn1 & Hi1 & Hr1 & _).
destruct (H1 s') as (Hn2 & Hi2 & Hr2 & _).
split; [now apply H2|]. split; [exact Hn1|]. split; [exact Hn2|].
split; right; split; assumption.
Qed.

Lemma coherent_set_result (ki kr : bool) (r : option resval) :
Coherent ki kr (set_result r).
Proof.
intros s s' (Hn & _ & _). simpl.
split; [reflexivity|]. split; [reflexivity|]. split; [reflexivity|].
split; [right; split; reflexivity | left; reflexivity].
Qed.

Lemma coherent_set_iterations (ki kr : bool) (l : list record) :
Coherent ki kr (set_iterations l).
Proof.
intros s s' (Hn & _ & _). simpl.
split; [reflexivity|]. split; [reflexivity|]. split; [reflexivity|].
split; [left; reflexivity | right; split; reflexivity].
Qed.

Lemma coherent_push (kr : bool) (r : record) : Coherent true kr (push_iteration r).
Proof.
intros s s' (Hn & Hi & _). simpl.
split; [reflexivity|]. split; [reflexivity|]. split; [reflexivity|].
split; [left; now rewrite Hi | right; split; reflexivity].
Qed.

Lemma coherent_get_result (ki : bool) : Coherent ki true get_result.
Proof.
intros s s' (Hn & _ & Hr). simpl.
split; [now rewrite Hr|]. split; [reflexivity|]. split; [reflexivity|].
split; right; split; reflexivity.
Qed.

(** What two coherent runs leave still agrees on the flagged fields. *)
Lemma agree_after {B} (f : Instance -> B) (k : bool) (s s' t t' : Instance) :
(k = true -> f s = f s') -> same_or_kept f s s' t t' -> k = true -> f t = f t'.
Proof. intros Hk [He|[H1 H2]] Hkt; [exact He | rewrite H1, H2; auto]. Qed.

Lemma same_or_kept_trans {B} (f : Instance -> B) (s s' t t' u u' : Instance) :
same_or_kept f s s' t t' -> same_or_kept f t t' u u' -> same_or_kept f s s' u u'.
Proof.
intros [He|[H1 H2]] [He'|[H1' H2']].
- now left.
- left. now rewrite H1', H2'.
- now left.
- right. split; congruence.
Qed.

Lemma coherent_bind {A B} (ki kr : bool) (m : M A) (k : A -> M B) :
Coherent ki kr m -> (forall a, Coherent ki kr (k a)) -> Coherent ki kr (bind m k).
Proof.
intros Hm Hk s s' Hag.
destruct (Hm s s' Hag) as (Ho & Hn1 & Hn2 & Hi & Hr).
destruct Hag as (Hn & Hki & Hkr). unfold bind.
destruct (m s) as [o t], (m s') as [o' t']. simpl in *. subst o'.
destruct o as [a|e|]; simpl; try (repeat split; assumption).
assert (Hag' : agree ki kr t t').
{ split; [congruence|]. split.
- now apply (agree_after iterations ki s s').
- now apply (agree_after result kr s s'). }
destruct (Hk a t t' Hag') as (Ho' & Hn1' & Hn2' & Hi' & Hr').
split; [exact Ho'|]. split; [congruence|]. split; [congruence|].
split; eapply same_or_kept_trans; eassumption.
Qed.

Lemma coherent_try_catch {A} (ki kr : bool) (m : M A) (h : exn -> M A) :
Coherent ki kr m -> (forall e, Coherent ki kr (h e)) ->
Coherent ki kr (try_catch m h).
Proof.
intros Hm Hh s s' Hag.
destruct (Hm s s' Hag) as (Ho & Hn1 & Hn2 & Hi & Hr).
destruct Hag as (Hn & Hki & Hkr). unfold try_catch.
destruct (m s) as [o t], (m s') as [o' t']. simpl in *. subst o'.
destruct o as [a|e|]; simpl; try (repeat split; assumption).
assert (Hag' : agree ki kr t t').
{ split; [congruence|]. split.
- now apply (agree_after iterations ki s s').
- now apply (agree_after result kr s s'). }
destruct (Hh e t t' Hag') as (Ho' & Hn1' & Hn2' & Hi' & Hr').
split; [exact Ho'|]. split; [congruence|]. split; [congruence|].
split; eapply same_or_kept_trans; eassumption.
Qed.

(** After [this.result = r] the continuation may read the result. *)
Lemma coherent_bind_set_result {B} (ki kr : bool) (r : option resval)
(k : unit -> M B) :
Coherent ki true (k tt) -> Coherent ki kr (bind (set_result r) k).
Proof.
intros Hk s s' (Hn & Hki & _). rewrite !run_set_result.
assert (Hag : agree ki true (with_result r s) (with_result r s')).
{ split; [exact Hn|]. split; [exact Hki | reflexivity]. }
destruct (Hk _ _ Hag) as (Ho & Hn1 & Hn2 & Hi & Hr).
split; [exact Ho|]. split; [exact Hn1|]. split; [exact Hn2|].
split; [exact Hi|]. left. destruct Hr as [He|[H1 H2]]; [exact He|].
now rewrite H1, H2.
Qed.

(** After [this.iterations = l] the continuation may push onto it. *)
Lemma coherent_bind_set_iterations {B} (ki kr : bool) (l : list record)
(k : unit -> M B) :
Coherent true kr (k tt) -> Coherent ki kr (bind (set_iterations l) k).
Proof.
intros Hk s s' (Hn & _ & Hkr). rewrite !run_set_iterations.
assert (Hag : agree true kr (with_iterations l s) (with_iterations l s')).
{ split; [exact Hn|]. split; [reflexivity | exact Hkr]. }
destruct (Hk _ _ Hag) as (Ho & Hn1 & Hn2 & Hi & Hr).
split; [exact Ho|]. split; [exact Hn1|]. split; [exact Hn2|].
split; [|exact Hr]. left. destruct Hi as [He|[H1 H2]]; [exact He|].
now rewrite H1, H2.
Qed.

Lemma coherent_for_each {A} (ki kr : bool) (l : list A) (body : A -> M unit) :
(forall x, Coherent ki kr (body x)) -> Coherent ki kr (for_each l body).
Proof.
intros Hb. induction l as [|x l IH]; simpl.
- apply coherent_logonly, logonly_ret.
- apply coherent_bind; [apply Hb | intros _; exact IH].
Qed.

Lemma coherent_fold_each {A S} (ki kr : bool) (l : list A)
(body : S -> A -> M S) (s0 : S) :
(forall s x, Coherent ki kr (body s x)) -> Coherent ki kr (fold_each l body s0).
Proof.
intros Hb. revert s0. induction l as [|x l IH]; intros s0; simpl.
- apply coherent_logonly, logonly_ret.
- apply coherent_bind; [apply Hb | intros s1; apply IH].
Qed.

Lemma coherent_when (ki kr : bool) (c : bool) (m : M unit) :
Coherent ki kr m -> Coherent ki kr (when c m).
Proof.
intros Hm. unfold when. destruct c; [exact Hm|].
apply coherent_logonly, logonly_ret.
Qed.

(** One step of the proof that a body is coherent, chosen by its head. *)
Ltac coherent_step :=
cbv beta iota zeta;
lazymatch goal with
| |- Coherent _ _ (bind (set_iterations _) _) =>
apply coherent_bind_set_iterations
| |- Coherent _ _ (bind (set_result _) _) => apply coherent_bind_set_result
| |- Coherent _ _ (bind _ _) => apply coherent_bind; [|intro]
| |- Coherent _ _ (try_catch _ _) => apply coherent_try_catch; [|intro]
| |- Coherent _ _ (for_each _ _) => apply coherent_for_each; intro
| |- Coherent _ _ (fold_each _ _ _) => apply coherent_fold_each; intros
| |- Coherent _ _ (set_result _) => apply coherent_set_result
| |- Coherent _ _ (set_iterations _) => apply coherent_set_iterations
| |- Coherent _ _ (push_iteration _) => apply coherent_push
| |- Coherent _ _ get_result => apply coherent_get_result
| |- Coherent _ _ (when _ _) => apply coherent_when
| |- Coherent _ _ (assign_const _) => apply coherent_logonly, logonly_throw
| |- Coherent _ _ (evaluateFunction _ _) =>
apply coherent_logonly, logonly_evaluateFunction
| |- Coherent _ _ (match ?c with _ => _ end) => destruct c
| |- Coherent _ _ _ => apply coherent_logonly; solve [auto 30 with logonly]
end.

Section WithHost.
Context `{MathHost}.

Lemma coherent_bisection_loop (func : string) (tol fa : num) (fuel : nat) :
forall (iter : Z) (aVal bVal : num),
Coherent true true (BisectionMethod.loop func tol fa fuel iter aVal bVal).
Proof.
induction fuel as [|fuel IH]; intros iter aVal bVal; simpl;
repeat (coherent_step || apply IH).
Qed.

Lemma coherent_bisection (p : BisectionMethod.params) :
Coherent false false (BisectionMethod.calculate p).
Proof.
unfold BisectionMethod.calculate.
apply coherent_bind; [coherent_step | intros _].
apply coherent_bind;
[apply coherent_logonly, BisectionFacts.logonly_bisection_validate | intros _].
repeat (coherent_step || apply coherent_bisection_loop).
Qed.

Lemma coherent_newton_loop (func : string) (tol : num) (fuel : nat) :
forall (iter : Z) (x : num),
Coherent true true (NewtonMethod.loop func tol fuel iter x).
Proof.
induction fuel as [|fuel IH]; intros iter x; simpl;
unfold NewtonMethod.calculateDerivative;
repeat (coherent_step || apply IH).
Qed.

Lemma coherent_newton (p : NewtonMethod.params) :
Coherent false false (NewtonMethod.calculate p).
Proof.
unfold NewtonMethod.calculate.
apply coherent_bind; [coherent_step | intros _].
apply coherent_bind;
[apply coherent_logonly, DivergenceFacts.logonly_newton_validate | intros _].
repeat (coherent_step || apply coherent_newton_loop).
Qed.

Lemma coherent_fixed_point_loop (func : string) (tol : num) (fuel : nat) :
forall (iter : Z) (x : num),
Coherent true true (FixedPointMethod.loop func tol fuel iter x).
Proof.
induction fuel as [|fuel IH]; intros iter x; simpl;
repeat (coherent_step || apply IH).
Qed.

Lemma coherent_fixed_point (p : FixedPointMethod.params) :
Coherent false false (FixedPointMethod.calculate p).
Proof.
unfold FixedPointMethod.calculate.
apply coherent_bind; [coherent_step | intros _].
apply coherent_bind;
[apply coherent_logonly, DivergenceFacts.logonly_fixed_point_validate
| intros _].
repeat (coherent_step || apply coherent_fixed_point_loop).
Qed.

Lemma coherent_seidel_loop (m : list (list num)) (v : list num) (n : nat)
(tol : num) (fuel : nat) :
forall (iter : Z) (x : list num),
Coherent true true (GaussSeidelMethod.loop m v n tol fuel iter x).
Proof.
induction fuel as [|fuel IH]; intros iter x; simpl;
repeat (coherent_step || apply IH).
Qed.

Lemma coherent_seidel (p : LinearSystem.params) :
Coherent false false (GaussSeidelMethod.calculate p).
Proof.
unfold GaussSeidelMethod.calculate.
apply coherent_bind; [coherent_step | intros _].
apply coherent_bind;
[apply coherent_logonly, LinearFacts.logonly_linear_validate | intros _].
repeat (coherent_step || apply coherent_seidel_loop).
Qed.

Lemma coherent_jacobi_loop (m : list (list num)) (v : list num) (n : nat)
(tol : num) (fuel : nat) :
forall (iter : Z) (x xNew : list num),
Coherent true true (GaussJacobiMethod.loop m v n tol fuel iter x xNew).
Proof.
induction fuel as [|fuel IH]; intros iter x xNew; simpl;
repeat (coherent_step || apply IH).
Qed.

Lemma coherent_jacobi (p : LinearSystem.params) :
Coherent false false (GaussJacobiMethod.calculate p).
Proof.
unfold GaussJacobiMethod.calculate.
apply coherent_bind; [coherent_step | intros _].
apply coherent_bind;
[apply coherent_logonly, LinearFacts.logonly_linear_validate | intros _].
repeat (coherent_step || apply coherent_jacobi_loop).
Qed.

Lemma coherent_lagrange (p : LagrangePolynomial.params) :
Coherent false false (LagrangePolynomial.calculate p).
Proof.
unfold LagrangePolynomial.calculate.
apply coherent_bind; [coherent_step | intros _].
apply coherent_bind;
[apply coherent_logonly, LagrangeFacts.logonly_lagrange_validate | intros _].
unfold LagrangePolynomial.term_step, LagrangePolynomial.verify_step.
repeat coherent_step.
Qed.

Lemma logonly_differentiation_validate (p : NumericalDifferentiation.params) :
LogOnly (NumericalDifferentiation.validateParams p).
Proof. unfold NumericalDifferentiation.validateParams. auto 30 with logonly. Qed.

Lemma logonly_dispatch (method func : string) (x h : num) :
LogOnly (NumericalDifferentiation.dispatch method func x h).
Proof.
unfold NumericalDifferentiation.dispatch,
NumericalDifferentiation.forwardDifference,
NumericalDifferentiation.backwardDifference,
NumericalDifferentiation.centralDifference.
auto 40 with logonly.
Qed.

Lemma coherent_differentiation (p : NumericalDifferentiation.params) :
Coherent false false (NumericalDifferentiation.calculate p).
Proof.
unfold NumericalDifferentiation.calculate.
apply coherent_bind; [coherent_step | intros _].
apply coherent_bind;
[apply coherent_logonly, logonly_differentiation_validate | intros _].
repeat (apply coherent_logonly, logonly_dispatch || coherent_step).
Qed.

Lemma coherent_integration (p : NumericalIntegration.params) :
Coherent false false (NumericalIntegration.calculate p).
Proof.
unfold NumericalIntegration.calculate.
apply coherent_bind; [coherent_step | intros _].
apply coherent_bind;
[apply coherent_logonly, IntegrationFacts.logonly_integration_validate
| intros _].
unfold NumericalIntegration.trapezoid_step, NumericalIntegration.simpson_step.
repeat coherent_step.
Qed.

Lemma coherent_calculate (c : Methods.call) :
Coherent false false (Methods.calculate c).
Proof.
destruct c; simpl.
- apply coherent_bisection.
- apply coherent_newton.
- apply coherent_fixed_point.
- apply coherent_seidel.
- apply coherent_jacobi.
- apply coherent_lagrange.
- apply coherent_differentiation.
- apply coherent_integration.
Qed.

(** Two runs of a coherent computation, the second from the instance the
first one left: same outcome, and the same [result] and [iterations]. *)
Lemma coherent_again {A} (m : M A) (s : Instance) :
Coherent false false m ->
fst (m (snd (m s))) = fst (m s)
/\ getResults (snd (m (snd (m s)))) = getResults (snd (m s)).
Proof.
intros Hm.
assert (Hs : agree false false s s) by (repeat split).
destruct (Hm s s Hs) as (_ & Hn & _).
assert (Hag : agree false false s (snd (m s))).
{ split; [now rewrite Hn|]. split; discriminate. }
destruct (Hm _ _ Hag) as (Ho & _ & _ & Hi & Hr).
split; [now rewrite Ho|]. unfold getResults. f_equal.
- destruct Hr as [He|[_ H2]]; [now rewrite He | exact H2].
- destruct Hi as [He|[_ H2]]; [now rewrite He | exact H2].
Qed.

(** Two runs from instances that agree on all but their logs. *)
Lemma coherent_fresh {A} (m : M A) (s s' : Instance) :
Coherent false false m ->
name s = name s' -> getResults s = getResults s' ->
fst (m s) = fst (m s') /\ getResults (snd (m s)) = getResults (snd (m s')).
Proof.
intros Hm Hn Hg. unfold getResults in *. injection Hg as Hr Hi.
assert (Hag : agree false false s s').
{ split; [exact Hn|]. split; discriminate. }
destruct (Hm _ _ Hag) as (Ho & _ & _ & Hi' & Hr').
split; [exact Ho|]. f_equal.
- destruct Hr' as [He|[H1 H2]]; [exact He | congruence].
- destruct Hi' as [He|[H1 H2]]; [exact He | congruence].
Qed.


End WithHost.

End CoherenceFacts.

(** ** What a run throws, and what it does to the log *)

Module ErrorFacts.
Import Host NumericalMethod Run RunFacts Methods Errors.

Lemma raises_weaken {A} (P Q : exn -> Prop) (m : M A) :
(forall e, P e -> Q e) -> Raises P m -> Raises Q m.
Proof. intros HPQ Hm s e E. apply HPQ, (Hm s e E). Qed.

Lemma raises_throw {A} (P : exn -> Prop) (e : exn) : P e -> Raises P (@throw A e).
Proof. intros He s e' E. simpl in E. now inversion E; subst. Qed.

Lemma raises_bind {A B} (P : exn -> Prop) (m : M A) (k : A -> M B) :
Raises P m -> (forall a, Raises P (k a)) -> Raises P (bind m k).
Proof.
intros Hm Hk s e. unfold bind. specialize (Hm s).
destruct (m s) as [[a|e'|] s']; simpl in *.
- apply Hk.
- intros E. inversion E; subst. now apply Hm.
- discriminate.
Qed.

(** What the body throws reaches the handler; only the handler's errors
leave the [try]. *)
Lemma raises_try_catch {A} (P Q : exn -> Prop) (m : M A) (h : exn -> M A) :
Raises Q m -> (forall e, Q e -> Raises P (h e)) -> Raises P (try_catch m h).
Proof.
intros Hm Hh s e. unfold try_catch. specialize (Hm s).
destruct (m s) as [[a|e'|] s']; simpl in *.
- discriminate.
- apply (Hh e'). now apply Hm.
- discriminate.
Qed.

Lemma raises_when (P : exn -> Prop) (c : bool) (m : M unit) :
Raises P m -> Raises P (when c m).
Proof. intros Hm. unfold when. destruct c; [exact Hm|]. intros s e E. discriminate E. Qed.

Lemma raises_for_each {A} (P : exn -> Prop) (l : list A) (body : A -> M unit) :
(forall x, Raises P (body x)) -> Raises P (for_each l body).
Proof.
intros Hb. induction l as [|x l IH]; simpl.
- intros s e E. discriminate E.
- apply raises_bind; [apply Hb | intros _; exact IH].
Qed.

Lemma raises_fold_each {A S} (P : exn -> Prop) (l : list A)
(body : S -> A -> M S) (s0 : S) :
(forall s x, Raises P (body s x)) -> Raises P (fold_each l body s0).
Proof.
intros Hb. revert s0. induction l as [|x l IH]; intros s0; simpl.
- intros s e E. discriminate E.
- apply raises_bind; [apply Hb | intros s1; apply IH].
Qed.

(** The evaluator throws one error only. *)
Lemma raises_evaluateFunction `{MathHost} (P : exn -> Prop) (func : string) (x : num) :
P invalid_function -> Raises P (evaluateFunction func x).
Proof.
intros HP s e. unfold evaluateFunction.
destruct (Function_call (expression_of func x)) as [[v| | |b]|e'|]; simpl;
try discriminate.
intros E. now inversion E; subst.
Qed.

(** One step of the proof that a body throws errors of [P] only. *)
Ltac raises_step :=
cbv beta iota zeta;
lazymatch goal with
| |- Raises _ (bind _ _) => apply raises_bind; [|intro]
| |- Raises ?P (try_catch _ _) => apply (raises_try_catch P P); [|intros ? ?]
| |- Raises _ (for_each _ _) => apply raises_for_each; intro
| |- Raises _ (fold_each _ _ _) => apply raises_fold_each; intros
| |- Raises _ (when _ _) => apply raises_when
| |- Raises _ (throw _) =>
apply raises_throw; first [assumption | simpl; auto 10]
| |- Raises _ (assign_const _) =>
unfold assign_const; apply raises_throw; simpl; auto 10
| |- Raises _ (evaluateFunction _ _) =>
apply raises_evaluateFunction; simpl; auto 10
| |- Raises _ (match ?c with _ => _ end) => destruct c
| |- Raises _ _ => solve [intros ? ? E; discriminate E]
end.

(** A body that opens with a log entry and the validation: what it throws
is the error of the validation, or an error of what follows. *)
Lemma after_validation {A} (P : exn -> Prop) (lv : level) (ms : message)
(v : M bool) (rest : bool -> M A) :
LogOnly v -> (forall b, Raises P (rest b)) ->
forall s e,
fst (bind (log lv ms) (fun _ => bind v rest) s) = Throw e ->
fst (v s) = Throw e \/ P e.
Proof.
intros Hv Hrest s e. rewrite run_log.
destruct (run_logonly v s (logged lv ms s) (fst (v s)) Hv eq_refl eq_refl)
as (s1 & _ & E1).
unfold bind. rewrite E1.
destruct (fst (v s)) as [b|e'|].
- intros E. right. exact (Hrest b s1 e E).
- simpl. intros E. left. now inversion E.
- discriminate.
Qed.

(** A validation that fails ends the run with its error, and the run has
then touched the log only. *)
Lemma failed_validation {A} (lv : level) (ms : message)
(v : M bool) (rest : bool -> M A) (s : Instance) (e : exn) :
LogOnly v -> fst (v s) = Throw e ->
fst (bind (log lv ms) (fun _ => bind v rest) s) = Throw e
/\ getResults (snd (bind (log lv ms) (fun _ => bind v rest) s)) = getResults s.
Proof.
intros Hv He. rewrite run_log.
destruct (run_logonly v s (logged lv ms s) (Throw e) Hv eq_refl He)
as (s1 & (_ & Hi & Hr & _) & E1).
rewrite (bind_throw _ _ _ _ _ E1). split; [reflexivity|].
unfold getResults. simpl. now rewrite Hi, Hr.
Qed.

Section WithHost.
Context `{MathHost}.

Lemma raises_bisection_loop (P : exn -> Prop) (func : string) (tol fa : num)
(fuel : nat) :
P invalid_function -> P (ConstAssignment "fb") -> P (ConstAssignment "fa") ->
forall (iter : Z) (aVal bVal : num),
Raises P (BisectionMethod.loop func tol fa fuel iter aVal bVal).
Proof.
intros H1 H2 H3.
induction fuel as [|fuel IH]; intros iter aVal bVal; simpl;
repeat (raises_step || apply IH).
Qed.

Lemma raises_newton_loop (P : exn -> Prop) (func : string) (tol : num) (fuel : nat) :
P invalid_function -> P NewtonMethod.derivative_failed ->
P NewtonMethod.small_derivative -> P NewtonMethod.diverges ->
forall (iter : Z) (x : num), Raises P (NewtonMethod.loop func tol fuel iter x).
Proof.
intros H1 H2 H3 H4.
induction fuel as [|fuel IH]; intros iter x; simpl;
unfold NewtonMethod.calculateDerivative;
repeat (raises_step || apply IH).
Qed.

Lemma raises_fixed_point_loop (P : exn -> Prop) (func : string) (tol : num)
(fuel : nat) :
P invalid_function -> P FixedPointMethod.diverges ->
forall (iter : Z) (x : num), Raises P (FixedPointMethod.loop func tol fuel iter x).
Proof.
intros H1 H2.
induction fuel as [|fuel IH]; intros iter x; simpl;
repeat (raises_step || apply IH).
Qed.

Lemma raises_seidel_loop (P : exn -> Prop) (m : list (list num)) (v : list num)
(n : nat) (tol : num) (fuel : nat) :
forall (iter : Z) (x : list num),
Raises P (GaussSeidelMethod.loop m v n tol fuel iter x).
Proof.
induction fuel as [|fuel IH]; intros iter x; simpl;
repeat (raises_step || apply IH).
Qed.

Lemma raises_jacobi_loop (P : exn -> Prop) (m : list (list num)) (v : list num)
(n : nat) (tol : num) (fuel : nat) :
forall (iter : Z) (x xNew : list num),
Raises P (GaussJacobiMethod.loop m v n tol fuel iter x xNew).
Proof.
induction fuel as [|fuel IH]; intros iter x xNew; simpl;
repeat (raises_step || apply IH).
Qed.

Lemma logonly_validate (c : call) : LogOnly (validate c).
Proof.
destruct c; simpl.
- apply BisectionFacts.logonly_bisection_validate.
- apply DivergenceFacts.logonly_newton_validate.
- apply DivergenceFacts.logonly_fixed_point_validate.
- apply LinearFacts.logonly_linear_validate.
- apply LinearFacts.logonly_linear_validate.
- apply LagrangeFacts.logonly_lagrange_validate.
- apply CoherenceFacts.logonly_differentiation_validate.
- apply IntegrationFacts.logonly_integration_validate.
Qed.


(** Failed validation.  For every method, when the validation of the
parameters throws, [calculate] throws the same error and [getResults]
still returns what it returned before the call: the result and the
iterations of an earlier run stay in place. *)
Theorem failed_validation_keeps_results (c : call) (s : Instance) (e : exn) :
fst (validate c s) = Throw e ->
fst (calculate c s) = Throw e /\ getResults (run c s) = getResults s.
Proof.
pose proof (logonly_validate c) as Hv. unfold run.
destruct c; simpl in *; intros He;
exact (failed_validation _ _ _ _ s e Hv He).
Qed.

End WithHost.


Lemma failed_validation_keeps_results_witness :
let p := {| BisectionMethod.function := "x";
    BisectionMethod.a := 2%float;
    BisectionMethod.b := 1%float;
    BisectionMethod.tolerance := 1e-6%float;
    BisectionMethod.maxIterations := 50 |} in
let s := {| name := "Bisección"; logs := [];
    iterations := [[("iteration"%string, VNum 1%float)]];
    result := Some (RNum 1.5%float) |} in
fst (calculate (H := SeriesHost.series_host) (Bisection p) s)
= Throw BisectionMethod.bounds_order
/\ getResults (run (H := SeriesHost.series_host) (Bisection p) s)
= (Some (RNum 1.5%float), [[("iteration"%string, VNum 1%float)]]).
Proof.
intros p s.
apply (failed_validation_keeps_results (H := SeriesHost.series_host)
 (Bisection p) s BisectionMethod.bounds_order).
vm_compute. reflexivity.
Defined.

End ErrorFacts.

(** ** The log only grows *)

Module LogFacts.
Import Host NumericalMethod Run RunFacts Methods Errors.

Lemma appends_logonly {A} (m : M A) : LogOnly m -> Appends m.
Proof. intros [H1 _] s. destruct (H1 s) as (Hn & _ & _ & Hl). now split. Qed.

Lemma appends_bind {A B} (m : M A) (k : A -> M B) :
Appends m -> (forall a, Appends (k a)) -> Appends (bind m k).
Proof.
intros Hm Hk s. unfold bind. destruct (Hm s) as (Hn & l & Hl).
destruct (m s) as [[a|e|] s']; simpl in *; try (split; [exact Hn | now exists l]).
destruct (Hk a s') as (Hn' & l' & Hl').
split; [congruence|]. exists (l ++ l'). now rewrite Hl', Hl, app_assoc.
Qed.

Lemma appends_try_catch {A} (m : M A) (h : exn -> M A) :
Appends m -> (forall e, Appends (h e)) -> Appends (try_catch m h).
Proof.
intros Hm Hh s. unfold try_catch. destruct (Hm s) as (Hn & l & Hl).
destruct (m s) as [[a|e|] s']; simpl in *; try (split; [exact Hn | now exists l]).
destruct (Hh e s') as (Hn' & l' & Hl').
split; [congruence|]. exists (l ++ l'). now rewrite Hl', Hl, app_assoc.
Qed.

Lemma appends_quiet {A} (m : M A) :
(forall s, name (snd (m s)) = name s /\ logs (snd (m s)) = logs s) -> Appends m.
Proof.
intros Hm s. destruct (Hm s) as [Hn Hl]. split; [exact Hn|].
exists []. now rewrite app_nil_r.
Qed.

Lemma appends_when (c : bool) (m : M unit) : Appends m -> Appends (when c m).
Proof.
intros Hm. unfold when. destruct c; [exact Hm|]. now apply appends_quiet.
Qed.

Lemma appends_for_each {A} (l : list A) (body : A -> M unit) :
(forall x, Appends (body x)) -> Appends (for_each l body).
Proof.
intros Hb. induction l as [|x l IH]; simpl.
- now apply appends_quiet.
- apply appends_bind; [apply Hb | intros _; exact IH].
Qed.

Lemma appends_fold_each {A S} (l : list A) (body : S -> A -> M S) (s0 : S) :
(forall s x, Appends (body s x)) -> Appends (fold_each l body s0).
Proof.
intros Hb. revert s0. induction l as [|x l IH]; intros s0; simpl.
- now apply appends_quiet.
- apply appends_bind; [apply Hb | intros s1; apply IH].
Qed.

(** One step of the proof that a body only adds to the log. *)
Ltac appends_step :=
cbv beta iota zeta;
lazymatch goal with
| |- Appends (bind _ _) => apply appends_bind; [|intro]
| |- Appends (try_catch _ _) => apply appends_try_catch; [|intro]
| |- Appends (for_each _ _) => apply appends_for_each; intro
| |- Appends (fold_each _ _ _) => apply appends_fold_each; intros
| |- Appends (when _ _) => apply appends_when
| |- Appends (evaluateFunction _ _) =>
apply appends_logonly, logonly_evaluateFunction
| |- Appends (log _ _) => apply appends_logonly, logonly_log
| |- Appends (match ?c with _ => _ end) => destruct c
| |- Appends _ => solve [apply appends_quiet; intros ?; split; reflexivity]
end.

Section WithHost.
Context `{MathHost}.

Lemma appends_bisection_loop (func : string) (tol fa : num) (fuel : nat) :
forall (iter : Z) (aVal bVal : num),
Appends (BisectionMethod.loop func tol fa fuel iter aVal bVal).
Proof.
induction fuel as [|fuel IH]; intros iter aVal bVal; simpl;
repeat (appends_step || apply IH).
Qed.

Lemma appends_newton_loop (func : string) (tol : num) (fuel : nat) :
forall (iter : Z) (x : num), Appends (NewtonMethod.loop func tol fuel iter x).
Proof.
induction fuel as [|fuel IH]; intros iter x; simpl;
unfold NewtonMethod.calculateDerivative;
repeat (appends_step || apply IH).
Qed.

Lemma appends_fixed_point_loop (func : string) (tol : num) (fuel : nat) :
forall (iter : Z) (x : num), Appends (FixedPointMethod.loop func tol fuel iter x).
Proof.
induction fuel as [|fuel IH]; intros iter x; simpl;
repeat (appends_step || apply IH).
Qed.

Lemma appends_seidel_loop (m : list (list num)) (v : list num) (n : nat)
(tol : num) (fuel : nat) :
forall (iter : Z) (x : list num),
Appends (GaussSeidelMethod.loop m v n tol fuel iter x).
Proof.
induction fuel as [|fuel IH]; intros iter x; simpl;
repeat (appends_step || apply IH).
Qed.

Lemma appends_jacobi_loop (m : list (list num)) (v : list num) (n : nat)
(tol : num) (fuel : nat) :
forall (iter : Z) (x xNew : list num),
Appends (GaussJacobiMethod.loop m v n tol fuel iter x xNew).
Proof.
induction fuel as [|fuel IH]; intros iter x xNew; simpl;
repeat (appends_step || apply IH).
Qed.

(** The first two entries a body adds when it opens with a log entry and
a validation that starts with that of the base class. *)
Lemma opening_entries {A B} (ms : message) (checks : bool -> M A)
(rest : A -> M B) (s : Instance) :
(forall b, Appends (bind (checks b) rest)) ->
name (snd (bind (log info ms)
(fun _ => bind (bind NumericalMethod.validateParams checks) rest)
s))
= name s
/\ exists l,
logs (snd (bind (log info ms)
  (fun _ => bind (bind NumericalMethod.validateParams checks)
                 rest) s))
= logs s
++ {| lvl := info; msg := ms |}
:: {| lvl := info; msg := [Str "Validando parámetros para "; Str (name s)] |}
:: l.
Proof.
intros Hm. rewrite run_log, run_assoc, run_base_validate.
destruct (Hm true (logged info [Str "Validando parámetros para ";
              Str (name (logged info ms s))]
   (logged info ms s))) as (Hn & l & Hl).
split; [exact Hn|]. exists l. rewrite Hl. simpl.
now rewrite <- !app_assoc.
Qed.

(** The log is append-only.  A run of any method, whatever its parameters
and however it ends, keeps the name of the instance and every entry the
log already had, in place; what it adds starts with the opening message of
the method and the notice [Validando parámetros para <name>]. *)
Theorem run_appends_to_log (c : call) (s : Instance) :
name (run c s) = name s
/\ exists l,
logs (run c s)
= logs s
++ {| lvl := info; msg := opening c |}
:: {| lvl := info; msg := [Str "Validando parámetros para "; Str (name s)] |}
:: l.
Proof.
unfold run.
destruct c; simpl.
- unfold BisectionMethod.calculate, BisectionMethod.validateParams.
apply opening_entries. intros _.
repeat (appends_step || apply appends_bisection_loop).
- unfold NewtonMethod.calculate, NewtonMethod.validateParams.
apply opening_entries. intros _.
repeat (appends_step || apply appends_newton_loop).
- unfold FixedPointMethod.calculate, FixedPointMethod.validateParams.
apply opening_entries. intros _.
repeat (appends_step || apply appends_fixed_point_loop).
- unfold GaussSeidelMethod.calculate, LinearSystem.validateParams,
LinearSystem.dominance_warning.
apply opening_entries. intros _.
repeat (appends_step || apply appends_seidel_loop).
- unfold GaussJacobiMethod.calculate, LinearSystem.validateParams,
LinearSystem.dominance_warning.
apply opening_entries. intros _.
repeat (appends_step || apply appends_jacobi_loop).
- unfold LagrangePolynomial.calculate, LagrangePolynomial.validateParams,
LagrangePolynomial.term_step, LagrangePolynomial.verify_step.
apply opening_entries. intros _.
repeat appends_step.
- unfold NumericalDifferentiation.calculate,
NumericalDifferentiation.validateParams,
NumericalDifferentiation.dispatch,
NumericalDifferentiation.forwardDifference,
NumericalDifferentiation.backwardDifference,
NumericalDifferentiation.centralDifference.
apply opening_entries. intros _.
repeat appends_step.
- unfold NumericalIntegration.calculate, NumericalIntegration.validateParams,
NumericalIntegration.trapezoid_step, NumericalIntegration.simpson_step.
apply opening_entries. intros _.
repeat appends_step.
Qed.

End WithHost.

End LogFacts.

(** ** Runs that return *)

Module ReturnFacts.
Import Host NumericalMethod Run RunFacts.
Local Open Scope float_scope.

Lemma bind_oom {A B} (m : M A) (k : A -> M B) (s s' : Instance) :
m s = (OutOfModel, s') -> bind m k s = (OutOfModel, s').
Proof. intros E. unfold bind. now rewrite E. Qed.

Lemma try_catch_throw {A} (m : M A) (h : exn -> M A) (s s' : Instance) (e : exn) :
m s = (Throw e, s') -> try_catch m h s = h e s'.
Proof. intros E. unfold try_catch. now rewrite E. Qed.

Lemma try_catch_oom {A} (m : M A) (h : exn -> M A) (s s' : Instance) :
m s = (OutOfModel, s') -> try_catch m h s = (OutOfModel, s').
Proof. intros E. unfold try_catch. now rewrite E. Qed.

(** In a run known to return, the next step has returned too. *)
Tactic Notation "returned" hyp(E) "as" ident(o) ident(s1) ident(Em) :=
lazymatch type of E with
| bind ?m ?k ?st = (Ret _, _) =>
destruct (m st) as [[o|o|] s1] eqn:Em;
[ rewrite (bind_ret _ _ _ _ _ Em) in E
| rewrite (bind_throw _ _ _ _ _ Em) in E; discriminate E
| rewrite (bind_oom _ _ _ _ Em) in E; discriminate E ]
end.

Lemma bisection_validate_returns (p : BisectionMethod.params) (s s' : Instance)
(b : bool) :
BisectionMethod.validateParams p s = (Ret b, s') ->
fst (BisectionMethod.validateParams p s) = Ret true.
Proof.
intros E. rewrite E. simpl. f_equal.
revert E. unfold BisectionMethod.validateParams. rewrite run_base_validate.
destruct (blank _); [discriminate|].
destruct (_ || _); [discriminate|].
destruct (_ <=? _); [discriminate|].
destruct (_ <=? _); [discriminate|].
destruct (_ <=? _)%Z; [discriminate|].
intros E. now inversion E.
Qed.

Section WithHost.
Context `{MathHost}.

(** A run of bisection that returns has stopped at its first midpoint. *)
Lemma bisection_run_returns (p : BisectionMethod.params) (s s' : Instance) :
BisectionMethod.calculate p s = (Ret tt, s') ->
result s' = Some (RNum ((BisectionMethod.a p + BisectionMethod.b p) / 2))
/\ length (iterations s') = 1%nat.
Proof.
unfold BisectionMethod.calculate. intros E.
rewrite run_log in E.
returned E as b0 s0 E0.
pose proof (BisectionFacts.validate_inv p _ (bisection_validate_returns _ _ _ _ E0))
as (_ & _ & _ & _ & Hmax).
returned E as fa s1 E1. apply evaluateFunction_ret in E1 as [Hfa ->].
returned E as fb s2 E2. apply evaluateFunction_ret in E2 as [Hfb ->].
rewrite run_log in E.
destruct (0 <? fa * fb); [discriminate E|].
rewrite run_set_iterations, run_set_result in E.
destruct (Z.to_nat (BisectionMethod.maxIterations p)) as [|fuel] eqn:Hfuel;
[apply Z.leb_gt in Hmax; lia|].
returned E as ab s3 E3.
assert (exists fc, evaluates (BisectionMethod.function p)
       ((BisectionMethod.a p + BisectionMethod.b p) / 2) fc)
as [fc Hfc].
{ revert E3. cbn [BisectionMethod.loop]. intros E3.
returned E3 as fc s4 E4. apply evaluateFunction_ret in E4 as [Hfc _].
now exists fc. }
match type of E3 with
| BisectionMethod.loop ?f ?t ?x (S fuel) ?i ?u ?v ?st = _ =>
destruct (BisectionFacts.loop_step f t x fuel i u v fc st Hfc)
as (t' & Hit & _ & Hloop)
end.
destruct (_ || _).
- destruct Hloop as [El Hres]. rewrite El in E3. inversion E3; subst ab s3.
rewrite run_get_result, Hres in E. unfold when in E.
destruct (falsy _).
+ rewrite run_log in E. simpl in E. inversion E; subst s'. simpl.
split; [reflexivity|]. now rewrite Hit.
+ simpl in E. inversion E; subst s'. split; [exact Hres|]. now rewrite Hit.
- destruct Hloop as [El _]. rewrite El in E3. discriminate E3.
Qed.


End WithHost.


End ReturnFacts.

(** ** The turns of the fixed-point and Newton-Raphson loops *)

Module IterationFacts.
Import Host NumericalMethod Run RunFacts DivergenceFacts.
Local Open Scope float_scope.

Lemma nan_sub_l (x : num) : nan - x = nan.
Proof.
rewrite <- (SF2Prim_Prim2SF (nan - x)), FloatAxioms.sub_spec.
change (Prim2SF nan) with S754_nan. reflexivity.
Qed.

Lemma nan_ltb_l (x : num) : (nan <? x) = false.
Proof.
rewrite FloatAxioms.ltb_spec. change (Prim2SF nan) with S754_nan. reflexivity.
Qed.

Lemma isNaN_nan (x : num) : isNaN x = true -> x = nan.
Proof.
unfold isNaN. rewrite FloatAxioms.eqb_spec. intros Hx.
rewrite <- (SF2Prim_Prim2SF x).
destruct (Prim2SF x) as [sx|sx| |sx mx ex]; simpl in Hx; try discriminate.
- now destruct sx.
- reflexivity.
- unfold SFeqb, SFcompare in Hx.
destruct sx; rewrite Z.compare_refl, (Pos.compare_cont_refl mx Eq) in Hx;
discriminate.
Qed.

Section WithHost.
Context `{MathHost}.

(** A turn of the fixed-point loop that meets the tolerance: it records the
turn, stores the new iterate as result and stops. *)
Lemma fixed_point_turn_converges (func : string) (tol : num) (fuel : nat)
(iter : Z) (x v : num) (s : Instance) :
evaluates func x v ->
(Math_abs (v - x) <? tol) = true ->
exists s',
FixedPointMethod.loop func tol (S fuel) iter x s = (Ret x, s')
/\ result s' = Some (RNum v)
/\ length (iterations s') = S (length (iterations s))
/\ exists l,
logs s'
= logs s ++ l
++ [{| lvl := success;
 msg := [Str "Convergencia alcanzada en ";
         NumStr (numZ (iter + 1)); Str " iteraciones"] |};
{| lvl := success;
 msg := [Str "Punto fijo encontrado: "; NumStr v] |}].
Proof.
intros Hx Hconv. cbn [FixedPointMethod.loop].
rewrite (bind_ret _ _ _ _ _
(try_catch_ret _ _ _ _ _ (evaluateFunction_value _ _ _ s Hx))).
do 2 run_step. rewrite Hconv. do 3 run_step.
eexists. split; [reflexivity|]. split; [reflexivity|]. split.
- simpl. rewrite length_app. simpl. lia.
- eexists [_]. simpl. rewrite <- !app_assoc. reflexivity.
Qed.

(** A turn that neither meets the tolerance nor leaves the threshold: the
loop goes on from the new iterate with one more record. *)
Lemma fixed_point_turn_continues (func : string) (tol : num) (fuel : nat)
(iter : Z) (x v : num) (s : Instance) :
evaluates func x v ->
(Math_abs (v - x) <? tol) = false ->
(1e10 <? Math_abs v) = false ->
exists s1,
FixedPointMethod.loop func tol (S fuel) iter x s
= FixedPointMethod.loop func tol fuel (iter + 1)%Z v s1
/\ result s1 = result s
/\ length (iterations s1) = S (length (iterations s))
/\ name s1 = name s.
Proof.
intros Hx Hconv Hbig. cbn [FixedPointMethod.loop].
rewrite (bind_ret _ _ _ _ _
(try_catch_ret _ _ _ _ _ (evaluateFunction_value _ _ _ s Hx))).
do 2 run_step. rewrite Hconv, Hbig.
eexists. split; [reflexivity|]. split; [reflexivity|]. split; [|reflexivity].
simpl. rewrite length_app. simpl. lia.
Qed.

(** Once the iterate is NaN, on a text that gives NaN at NaN, the loop
runs through its whole budget: no test of the loop holds of NaN. *)
Lemma fixed_point_nan_loop (func : string) (tol : num) :
evaluates func nan nan ->
forall (fuel : nat) (iter : Z) (s : Instance),
exists s',
FixedPointMethod.loop func tol fuel iter nan s = (Ret nan, s')
/\ result s' = result s
/\ length (iterations s') = (length (iterations s) + fuel)%nat.
Proof.
intros Hnan. induction fuel as [|fuel IH]; intros iter s.
- exists s. split; [reflexivity|]. split; [reflexivity | lia].
- destruct (fixed_point_turn_continues func tol fuel iter nan nan s Hnan)
as (s1 & E & Hr & Hi & _).
+ change (Math_abs (nan - nan)) with nan. apply nan_ltb_l.
+ reflexivity.
+ destruct (IH (iter + 1)%Z s1) as (s' & E' & Hr' & Hi').
exists s'. rewrite E, E'. split; [reflexivity|].
split; [congruence | lia].
Qed.

(** What the [try] at the head of a Newton-Raphson turn returns. *)
Lemma newton_turn_start (func : string) (iter : Z) (x fx f1 f2 : num)
(s : Instance) :
evaluates func x fx ->
evaluates func (x + 0.0001) f1 ->
evaluates func (x - 0.0001) f2 ->
try_catch
(bind (evaluateFunction func x) (fun fx0 =>
bind (NewtonMethod.calculateDerivative func x) (fun fpx0 =>
ret (fx0, fpx0))))
(fun e =>
bind (log Logger.error
([Str "Error en iteración "; NumStr (numZ (iter + 1));
 Str ": "] ++ exn_message e))
(fun _ => throw e)) s
= (Ret (fx, (f1 - f2) / (2 * 0.0001)), s).
Proof.
intros Hx H1 H2. apply try_catch_ret.
rewrite (bind_ret _ _ _ _ _ (evaluateFunction_value _ _ _ s Hx)).
rewrite (bind_ret _ _ _ _ _ (derivative_value _ _ _ _ s H1 H2)).
reflexivity.
Qed.

(** A turn of the Newton-Raphson loop at a point where the difference
quotient is below [1e-10]: it throws before anything is recorded. *)
Lemma newton_turn_flat (func : string) (tol : num) (fuel : nat)
(iter : Z) (x fx f1 f2 : num) (s : Instance) :
evaluates func x fx ->
evaluates func (x + 0.0001) f1 ->
evaluates func (x - 0.0001) f2 ->
(Math_abs ((f1 - f2) / (2 * 0.0001)) <? 1e-10) = true ->
NewtonMethod.loop func tol (S fuel) iter x s
= (Throw NewtonMethod.small_derivative,
logged Logger.error
[Str "Derivada muy pequeña en x = "; NumStr x; Str ": f'(x) = ";
NumStr ((f1 - f2) / (2 * 0.0001))] s).
Proof.
intros Hx H1 H2 Hflat. cbn [NewtonMethod.loop].
rewrite (bind_ret _ _ _ _ _ (newton_turn_start _ iter _ _ _ _ s Hx H1 H2)).
cbn [fst snd]. rewrite Hflat. reflexivity.
Qed.

(** A turn of the Newton-Raphson loop that meets the tolerance. *)
Lemma newton_turn_converges (func : string) (tol : num) (fuel : nat)
(iter : Z) (x fx f1 f2 : num) (s : Instance) :
evaluates func x fx ->
evaluates func (x + 0.0001) f1 ->
evaluates func (x - 0.0001) f2 ->
(Math_abs ((f1 - f2) / (2 * 0.0001)) <? 1e-10) = false ->
(Math_abs (x - fx / ((f1 - f2) / (2 * 0.0001)) - x) <? tol)
|| (Math_abs fx <? tol) = true ->
exists s',
NewtonMethod.loop func tol (S fuel) iter x s = (Ret x, s')
/\ result s' = Some (RNum (x - fx / ((f1 - f2) / (2 * 0.0001))))
/\ length (iterations s') = S (length (iterations s))
/\ exists l,
logs s'
= logs s ++ l
++ [{| lvl := success;
 msg := [Str "Convergencia alcanzada en ";
         NumStr (numZ (iter + 1)); Str " iteraciones"] |};
{| lvl := success;
 msg := [Str "Raíz encontrada: ";
         NumStr (x - fx / ((f1 - f2) / (2 * 0.0001)))] |}].
Proof.
intros Hx H1 H2 Hder Hconv. cbn [NewtonMethod.loop].
rewrite (bind_ret _ _ _ _ _ (newton_turn_start _ iter _ _ _ _ s Hx H1 H2)).
cbn [fst snd]. rewrite Hder. do 3 run_step. rewrite Hconv. do 3 run_step.
eexists. split; [reflexivity|]. split; [reflexivity|]. split.
- simpl. rewrite length_app. simpl. lia.
- eexists [_; _]. simpl. rewrite <- !app_assoc. reflexivity.
Qed.

(** Fixed point does not notice NaN.  When the function text gives NaN at
the starting value, and NaN at NaN, a run that passes validation does not
fail: it spends its whole budget of iterations on NaN and returns NaN as
its result. *)
Theorem fixed_point_returns_nan (p : FixedPointMethod.params) (s : Instance) :
fst (FixedPointMethod.validateParams p s) = Ret true ->
evaluates (FixedPointMethod.function p) (FixedPointMethod.x0 p) nan ->
evaluates (FixedPointMethod.function p) nan nan ->
exists s',
FixedPointMethod.calculate p s = (Ret tt, s')
/\ result s' = Some (RNum nan)
/\ length (iterations s') = Z.to_nat (FixedPointMethod.maxIterations p).
Proof.
intros Hv Hx Hnan.
destruct (fixed_point_budget p s Hv) as (fuel & Hfuel).
unfold FixedPointMethod.calculate. run_step.
destruct (run_logonly (FixedPointMethod.validateParams p) s
(logged info [Str "Iniciando cálculo por método de Punto Fijo"] s)
(Ret true) (logonly_fixed_point_validate p) eq_refl Hv)
as (s1 & Hs1 & E1).
rewrite (bind_ret _ _ _ _ _ E1). do 4 run_step. rewrite Hfuel.
match goal with
| |- context [bind (FixedPointMethod.loop ?f ?t (S fuel) ?i ?u) _ ?st] =>
destruct (fixed_point_turn_continues f t fuel i u nan st Hx)
as (s2 & E & Hr & Hi & _)
end.
{ rewrite nan_sub_l. change (Math_abs nan) with nan. apply nan_ltb_l. }
{ reflexivity. }
destruct (fixed_point_nan_loop (FixedPointMethod.function p)
(FixedPointMethod.tolerance p) Hnan fuel (0 + 1)%Z s2)
as (s3 & E' & Hr' & Hi').
rewrite E' in E. rewrite (bind_ret _ _ _ _ _ E).
rewrite run_get_result, Hr', Hr. simpl result. simpl falsy. unfold when.
run_step. eexists. split; [reflexivity|]. split; [reflexivity|].
simpl. rewrite Hi', Hi. simpl. lia.
Qed.

End WithHost.

Lemma fixed_point_returns_nan_witness :
exists s',
FixedPointMethod.calculate (H := SeriesHost.series_host)
{| FixedPointMethod.function := "(x-x)/(x-x)";
 FixedPointMethod.x0 := 1;
 FixedPointMethod.tolerance := 1e-6;
 FixedPointMethod.maxIterations := 50 |}
(FixedPointMethod.construct []) = (Ret tt, s')
/\ result s' = Some (RNum nan)
/\ length (iterations s') = Z.to_nat 50.
Proof.
apply (fixed_point_returns_nan (H := SeriesHost.series_host)
   {| FixedPointMethod.function := "(x-x)/(x-x)";
      FixedPointMethod.x0 := 1;
      FixedPointMethod.tolerance := 1e-6;
      FixedPointMethod.maxIterations := 50 |});
vm_compute; reflexivity.
Defined.

Section ZeroResult.
Context `{MathHost}.


(** Newton-Raphson and a flat difference quotient.  A turn in which the
central difference quotient, taken with step [0.0001], is below [1e-10] in
magnitude throws the small-derivative error before anything is recorded or
tested, so also when the function is zero at the point.  In the first turn
[calculate] ends with that error, no iteration and no result. *)
Theorem flat_derivative_is_fatal :
(forall (func : string) (tol : num) (fuel : nat) (iter : Z)
(x fx f1 f2 : num) (s : Instance),
evaluates func x fx ->
evaluates func (x + 0.0001) f1 ->
evaluates func (x - 0.0001) f2 ->
(Math_abs ((f1 - f2) / (2 * 0.0001)) <? 1e-10) = true ->
fst (NewtonMethod.loop func tol (S fuel) iter x s)
= Throw NewtonMethod.small_derivative
/\ getResults (snd (NewtonMethod.loop func tol (S fuel) iter x s))
= getResults s)
/\ (forall (p : NewtonMethod.params) (s : Instance) (fx f1 f2 : num),
fst (NewtonMethod.validateParams p s) = Ret true ->
evaluates (NewtonMethod.function p) (NewtonMethod.x0 p) fx ->
evaluates (NewtonMethod.function p) (NewtonMethod.x0 p + 0.0001) f1 ->
evaluates (NewtonMethod.function p) (NewtonMethod.x0 p - 0.0001) f2 ->
(Math_abs ((f1 - f2) / (2 * 0.0001)) <? 1e-10) = true ->
fst (NewtonMethod.calculate p s) = Throw NewtonMethod.small_derivative
/\ getResults (snd (NewtonMethod.calculate p s)) = (None, [])).
Proof.
split.
- intros func tol fuel iter x fx f1 f2 s Hx H1 H2 Hflat.
rewrite (newton_turn_flat func tol fuel iter x fx f1 f2 s Hx H1 H2 Hflat).
split; reflexivity.
- intros p s fx f1 f2 Hv Hx H1 H2 Hflat.
destruct (newton_budget p s Hv) as (fuel & Hfuel).
unfold NewtonMethod.calculate. run_step.
destruct (run_logonly (NewtonMethod.validateParams p) s
(logged info [Str "Iniciando cálculo por método de Newton-Raphson"] s)
(Ret true) (logonly_newton_validate p) eq_refl Hv)
as (s1 & Hs1 & E1).
rewrite (bind_ret _ _ _ _ _ E1). do 4 run_step. rewrite Hfuel.
match goal with
| |- context [bind (NewtonMethod.loop ?f ?t (S fuel) ?i ?u) _ ?st] =>
rewrite (bind_throw _ _ _ _ _
   (newton_turn_flat f t fuel i u fx f1 f2 st Hx H1 H2 Hflat))
end.
split; reflexivity.
Qed.

End ZeroResult.


Lemma flat_derivative_is_fatal_witness :
fst (NewtonMethod.calculate (H := SeriesHost.series_host)
 {| NewtonMethod.function := "x*x*x*x*x";
    NewtonMethod.x0 := 0;
    NewtonMethod.tolerance := 1e-6;
    NewtonMethod.maxIterations := 50 |}
 (NewtonMethod.construct []))
= Throw NewtonMethod.small_derivative
/\ getResults (snd (NewtonMethod.calculate (H := SeriesHost.series_host)
                {| NewtonMethod.function := "x*x*x*x*x";
                   NewtonMethod.x0 := 0;
                   NewtonMethod.tolerance := 1e-6;
                   NewtonMethod.maxIterations := 50 |}
                (NewtonMethod.construct [])))
= (None, []).
Proof.
apply (proj2 (flat_derivative_is_fatal (H := SeriesHost.series_host))
   {| NewtonMethod.function := "x*x*x*x*x";
      NewtonMethod.x0 := 0;
      NewtonMethod.tolerance := 1e-6;
      NewtonMethod.maxIterations := 50 |}
   (NewtonMethod.construct [])
   0 (0.0001 * 0.0001 * 0.0001 * 0.0001 * 0.0001)
   (-0.0001 * -0.0001 * -0.0001 * -0.0001 * -0.0001));
vm_compute; reflexivity.
Defined.

End IterationFacts.

(** ** What a run that returns leaves for [getResults] *)

Module ResultFacts.
Import Host NumericalMethod Run RunFacts Methods Results ReturnFacts.
Local Open Scope float_scope.

Lemma logonly_run {A} (m : M A) (s s1 : Instance) (o : outcome A) :
LogOnly m -> m s = (o, s1) -> only_logs s s1.
Proof. intros [H1 _] E. specialize (H1 s). now rewrite E in H1. Qed.

(** A [try] whose handler always throws returns only if its body does. *)
Lemma try_catch_returns {A} (m : M A) (h : exn -> M A) (s s' : Instance) (a : A) :
(forall e st, exists e' st', h e st = (Throw e', st')) ->
try_catch m h s = (Ret a, s') -> m s = (Ret a, s').
Proof.
intros Hh. unfold try_catch. destruct (m s) as [[b|e|] s1]; try easy.
destruct (Hh e s1) as (e' & st' & ->). discriminate.
Qed.

(** A loop whose body adds one record and keeps the result. *)
Lemma fold_each_pushes {A St} (body : St -> A -> M St) (l : list A) :
(forall acc x s acc' s',
body acc x s = (Ret acc', s') ->
length (iterations s') = S (length (iterations s))
/\ result s' = result s) ->
forall acc s acc' s',
fold_each l body acc s = (Ret acc', s') ->
length (iterations s') = (length (iterations s) + length l)%nat
/\ result s' = result s.
Proof.
intros Hb. induction l as [|x l IH]; intros acc s acc' s' E; simpl in E.
- inversion E; subst. split; [simpl; lia | reflexivity].
- returned E as a1 s1 E1. destruct (Hb _ _ _ _ _ E1) as [Hi Hr].
destruct (IH _ _ _ _ E) as [Hi' Hr']. split; [simpl; lia | congruence].
Qed.

(** The state a logging step leaves, in a run known to return. *)
Tactic Notation "only_logged" hyp(Em) "as" ident(Hl) :=
lazymatch type of Em with
| ?m ?st = (_, ?s1) =>
assert (Hl : only_logs st s1)
by (eapply (logonly_run m st s1); [|exact Em];
    try unfold NewtonMethod.calculateDerivative;
    try unfold NumericalIntegration.simpson_step;
    try unfold LagrangePolynomial.verify_step;
    auto 40 using CoherenceFacts.logonly_dispatch,
      CoherenceFacts.logonly_differentiation_validate,
      IntegrationFacts.logonly_integration_validate with logonly)
end.

Section WithHost.
Context `{MathHost}.

Lemma fixed_point_loop_returns (func : string) (tol : num) (fuel : nat) :
forall (iter : Z) (x x' : num) (s s' : Instance),
FixedPointMethod.loop func tol fuel iter x s = (Ret x', s') ->
(length (iterations s) + Nat.min 1 fuel <= length (iterations s')
<= length (iterations s) + fuel)%nat
/\ (result s' = result s \/ exists r, result s' = Some (RNum r)).
Proof.
induction fuel as [|fuel IH]; intros iter x x' s s' E.
- simpl in E. inversion E; subst. split; [simpl; lia | now left].
- cbn [FixedPointMethod.loop] in E.
returned E as v s1 E1. only_logged E1 as Hl.
destruct Hl as (_ & Hi & Hr & _).
rewrite run_push, run_log in E.
destruct (_ <? _).
+ rewrite run_set_result, run_log, run_log in E. simpl in E.
inversion E; subst. simpl. rewrite length_app, Hi. simpl.
split; [lia | right; now eexists].
+ destruct (_ <? _); [rewrite run_log in E; discriminate E|].
destruct (IH _ _ _ _ _ E) as [Hb Hres]. simpl in Hb, Hres.
rewrite length_app, Hi in Hb. simpl in Hb. rewrite Hr in Hres.
split; [lia | exact Hres].
Qed.

Lemma newton_loop_returns (func : string) (tol : num) (fuel : nat) :
forall (iter : Z) (x x' : num) (s s' : Instance),
NewtonMethod.loop func tol fuel iter x s = (Ret x', s') ->
(length (iterations s) + Nat.min 1 fuel <= length (iterations s')
<= length (iterations s) + fuel)%nat
/\ (result s' = result s \/ exists r, result s' = Some (RNum r)).
Proof.
induction fuel as [|fuel IH]; intros iter x x' s s' E.
- simpl in E. inversion E; subst. split; [simpl; lia | now left].
- cbn [NewtonMethod.loop] in E.
returned E as ff s1 E1. only_logged E1 as Hl.
destruct Hl as (_ & Hi & Hr & _).
destruct (_ <? _); [rewrite run_log in E; discriminate E|].
rewrite run_push, run_log, run_log in E.
destruct (_ || _).
+ rewrite run_set_result, run_log, run_log in E. simpl in E.
inversion E; subst. simpl. rewrite length_app, Hi. simpl.
split; [lia | right; now eexists].
+ destruct (_ || _); [rewrite run_log in E; discriminate E|].
destruct (IH _ _ _ _ _ E) as [Hb Hres]. simpl in Hb, Hres.
rewrite length_app, Hi in Hb. simpl in Hb. rewrite Hr in Hres.
split; [lia | exact Hres].
Qed.

Lemma fixed_point_validate_returns (p : FixedPointMethod.params)
(s s' : Instance) (b : bool) :
FixedPointMethod.validateParams p s = (Ret b, s') ->
fst (FixedPointMethod.validateParams p s) = Ret true.
Proof.
intros E. rewrite E. simpl. f_equal.
revert E. unfold FixedPointMethod.validateParams. rewrite run_base_validate.
destruct (blank _); [discriminate|].
destruct (isNaN _); [discriminate|].
destruct (_ <=? _); [discriminate|].
destruct (_ <=? _)%Z; [discriminate|].
intros E. now inversion E.
Qed.

Lemma newton_validate_returns (p : NewtonMethod.params)
(s s' : Instance) (b : bool) :
NewtonMethod.validateParams p s = (Ret b, s') ->
fst (NewtonMethod.validateParams p s) = Ret true.
Proof.
intros E. rewrite E. simpl. f_equal.
revert E. unfold NewtonMethod.validateParams. rewrite run_base_validate.
destruct (blank _); [discriminate|].
destruct (isNaN _); [discriminate|].
destruct (_ <=? _); [discriminate|].
destruct (_ <=? _)%Z; [discriminate|].
intros E. now inversion E.
Qed.

Lemma fixed_point_results (p : FixedPointMethod.params) (s s' : Instance) :
FixedPointMethod.calculate p s = (Ret tt, s') ->
shape (FixedPoint p) (result s')
/\ records (FixedPoint p) (length (iterations s')).
Proof.
unfold FixedPointMethod.calculate. intros E. rewrite run_log in E.
returned E as b s0 E0.
destruct (DivergenceFacts.fixed_point_budget
p _ (fixed_point_validate_returns _ _ _ _ E0)) as (fuel & Hfuel).
rewrite run_set_iterations, run_set_result, run_log, run_log in E.
returned E as x' s2 E2.
apply fixed_point_loop_returns in E2 as [Hb Hres]. simpl in Hb, Hres.
rewrite Hfuel in Hb. simpl. rewrite Hfuel.
rewrite run_get_result in E. unfold when in E.
destruct (falsy (result s2)) eqn:Hf.
- rewrite run_log in E. simpl in E. inversion E; subst s'. simpl.
split; [exact I | lia].
- simpl in E. inversion E; subst s'. split; [|lia].
destruct Hres as [Hn|[r Hr]]; [rewrite Hn in Hf; discriminate Hf|].
now rewrite Hr.
Qed.

Lemma newton_results (p : NewtonMethod.params) (s s' : Instance) :
NewtonMethod.calculate p s = (Ret tt, s') ->
shape (Newton p) (result s')
/\ records (Newton p) (length (iterations s')).
Proof.
unfold NewtonMethod.calculate. intros E. rewrite run_log in E.
returned E as b s0 E0.
destruct (DivergenceFacts.newton_budget
p _ (newton_validate_returns _ _ _ _ E0)) as (fuel & Hfuel).
rewrite run_set_iterations, run_set_result, run_log, run_log in E.
returned E as x' s2 E2.
apply newton_loop_returns in E2 as [Hb Hres]. simpl in Hb, Hres.
rewrite Hfuel in Hb. simpl. rewrite Hfuel.
rewrite run_get_result in E. unfold when in E.
destruct (falsy (result s2)) eqn:Hf.
- rewrite run_log in E. simpl in E. inversion E; subst s'. simpl.
split; [exact I | lia].
- simpl in E. inversion E; subst s'. split; [|lia].
destruct Hres as [Hn|[r Hr]]; [rewrite Hn in Hf; discriminate Hf|].
now rewrite Hr.
Qed.

Lemma seidel_sweep_length (m : list (list num)) (v : list num) (n : nat)
(x : list num) :
length (GaussSeidelMethod.sweep m v n x) = length x.
Proof.
unfold GaussSeidelMethod.sweep. generalize (seq 0 n). intros l. revert x.
induction l as [|i l IH]; intros x; simpl; [reflexivity|].
rewrite IH. unfold GaussSeidelMethod.update_entry. apply length_insert.
Qed.

Lemma jacobi_sweep_length (m : list (list num)) (v : list num) (n : nat)
(x xNew : list num) :
length (GaussJacobiMethod.sweep m v n x xNew) = length xNew.
Proof.
unfold GaussJacobiMethod.sweep. generalize (seq 0 n). intros l. revert xNew.
induction l as [|i l IH]; intros xNew; simpl; [reflexivity|].
rewrite IH. unfold GaussJacobiMethod.update_entry. apply length_insert.
Qed.

Lemma seidel_loop_counts (m : list (list num)) (v : list num) (n : nat)
(tol : num) (fuel : nat) :
forall (iter : Z) (x x' : list num) (s s' : Instance),
length x = n ->
GaussSeidelMethod.loop m v n tol fuel iter x s = (Ret x', s') ->
length x' = n
/\ (length (iterations s) + Nat.min 1 fuel <= length (iterations s')
<= length (iterations s) + fuel)%nat
/\ (result s' = result s
\/ exists w, result s' = Some (RVec w) /\ length w = n).
Proof.
induction fuel as [|fuel IH]; intros iter x x' s s' Hx E.
- simpl in E. inversion E; subst. split; [reflexivity|].
split; [simpl; lia | now left].
- cbn [GaussSeidelMethod.loop] in E. cbv zeta in E.
rewrite run_push, !run_log in E.
pose proof (seidel_sweep_length m v n x) as Hlen. rewrite Hx in Hlen.
destruct (_ || _).
+ rewrite run_set_result, run_log, run_log in E. simpl in E.
inversion E; subst. simpl. rewrite length_app. simpl.
split; [exact Hlen|]. split; [lia | right; now eexists].
+ destruct (IH _ _ _ _ _ Hlen E) as (Hx' & Hb & Hres). simpl in Hb, Hres.
rewrite length_app in Hb. simpl in Hb.
split; [exact Hx'|]. split; [lia | exact Hres].
Qed.

Lemma jacobi_loop_counts (m : list (list num)) (v : list num) (n : nat)
(tol : num) (fuel : nat) :
forall (iter : Z) (x xNew x' : list num) (s s' : Instance),
length xNew = n ->
GaussJacobiMethod.loop m v n tol fuel iter x xNew s = (Ret x', s') ->
length x' = n
/\ (length (iterations s) + Nat.min 1 fuel <= length (iterations s')
<= length (iterations s) + fuel)%nat
/\ (result s' = result s
\/ exists w, result s' = Some (RVec w) /\ length w = n).
Proof.
induction fuel as [|fuel IH]; intros iter x xNew x' s s' Hx E.
- simpl in E. inversion E; subst. split; [reflexivity|].
split; [simpl; lia | now left].
- cbn [GaussJacobiMethod.loop] in E. cbv zeta in E.
rewrite run_push, !run_log in E.
pose proof (jacobi_sweep_length m v n x xNew) as Hlen. rewrite Hx in Hlen.
destruct (_ <? _).
+ rewrite run_set_result, run_log, run_log in E. simpl in E.
inversion E; subst. simpl. rewrite length_app. simpl.
split; [exact Hlen|]. split; [lia | right; now eexists].
+ destruct (IH _ _ _ _ _ _ Hlen E) as (Hx' & Hb & Hres). simpl in Hb, Hres.
rewrite length_app in Hb. simpl in Hb.
split; [exact Hx'|]. split; [lia | exact Hres].
Qed.

(** What the shared validation has checked when it returns. *)
Lemma linear_validate_returns (p : LinearSystem.params) (s s' : Instance)
(b : bool) :
LinearSystem.validateParams p s = (Ret b, s') ->
length (LinearSystem.initialGuess p) = length (LinearSystem.matrix p)
/\ (0 < LinearSystem.maxIterations p)%Z.
Proof.
intros E. pose proof (LinearFacts.validate_run p s) as Hv.
rewrite E in Hv. simpl in Hv. tauto.
Qed.

Lemma seidel_results (p : LinearSystem.params) (s s' : Instance) :
GaussSeidelMethod.calculate p s = (Ret tt, s') ->
shape (GaussSeidel p) (result s')
/\ records (GaussSeidel p) (length (iterations s')).
Proof.
unfold GaussSeidelMethod.calculate. intros E. rewrite run_log in E.
returned E as b s0 E0.
destruct (linear_validate_returns _ _ _ _ E0) as [Hlen Hmax].
cbv zeta in E.
rewrite run_set_iterations, run_set_result, run_log, run_log in E.
simpl.
destruct (Z.to_nat (LinearSystem.maxIterations p)) as [|fuel] eqn:Hfuel; [lia|].
returned E as x' s2 E2.
apply (seidel_loop_counts _ _ _ _ _ _ _ _ _ _ Hlen) in E2
as (Hx' & Hb & Hres).
simpl in Hb, Hres.
rewrite run_get_result in E. unfold when in E.
destruct (falsy (result s2)) eqn:Hf.
- rewrite run_log, run_set_result in E. simpl in E. inversion E; subst s'.
simpl. split; [exact Hx' | lia].
- simpl in E. inversion E; subst s'. split; [|lia].
destruct Hres as [Hn|(w & Hr & Hw)]; [rewrite Hn in Hf; discriminate Hf|].
now rewrite Hr.
Qed.

Lemma jacobi_results (p : LinearSystem.params) (s s' : Instance) :
GaussJacobiMethod.calculate p s = (Ret tt, s') ->
shape (GaussJacobi p) (result s')
/\ records (GaussJacobi p) (length (iterations s')).
Proof.
unfold GaussJacobiMethod.calculate. intros E. rewrite run_log in E.
returned E as b s0 E0.
destruct (linear_validate_returns _ _ _ _ E0) as [Hlen Hmax].
cbv zeta in E.
rewrite run_set_iterations, run_set_result, run_log, run_log in E.
simpl.
destruct (Z.to_nat (LinearSystem.maxIterations p)) as [|fuel] eqn:Hfuel; [lia|].
returned E as x' s2 E2.
apply jacobi_loop_counts in E2 as (Hx' & Hb & Hres);
[|apply length_replicate].
simpl in Hb, Hres.
rewrite run_get_result in E. unfold when in E.
destruct (falsy (result s2)) eqn:Hf.
- rewrite run_log in E. simpl in E. inversion E; subst s'.
simpl. split; [exact Hx' | lia].
- simpl in E. inversion E; subst s'. split; [|lia].
destruct Hres as [Hn|(w & Hr & Hw)]; [rewrite Hn in Hf; discriminate Hf|].
now rewrite Hr.
Qed.

Lemma lagrange_results (p : LagrangePolynomial.params) (s s' : Instance) :
LagrangePolynomial.calculate p s = (Ret tt, s') ->
shape (Lagrange p) (result s')
/\ records (Lagrange p) (length (iterations s')).
Proof.
unfold LagrangePolynomial.calculate. intros E. rewrite run_log in E.
returned E as b s0 E0. cbv zeta in E.
rewrite run_log, run_log in E.
returned E as u1 s1 E1. rewrite run_log, run_set_iterations in E.
returned E as r s2 E2.
apply fold_each_pushes in E2 as [Hi _].
2:{ intros acc i st acc' st'. unfold LagrangePolynomial.term_step.
destruct (fold_left _ _ _) as [[le nu] de].
rewrite run_push, run_log. intros E3. simpl in E3. inversion E3; subst.
simpl. rewrite length_app. simpl. split; [lia | reflexivity]. }
simpl in Hi. rewrite length_seq in Hi.
rewrite run_set_result, run_log, run_log in E.
returned E as me s3 E3. only_logged E3 as Hl3.
returned E as u4 s4 E4. only_logged E4 as Hl4.
rewrite run_log in E. only_logged E as Hl5.
destruct Hl3 as (_ & Hi3 & Hr3 & _), Hl4 as (_ & Hi4 & Hr4 & _),
Hl5 as (_ & Hi5 & Hr5 & _).
simpl in *. split.
- rewrite Hr5, Hr4, Hr3. exact I.
- rewrite Hi5, Hi4, Hi3. exact Hi.
Qed.

Lemma differentiation_results (p : NumericalDifferentiation.params)
(s s' : Instance) :
NumericalDifferentiation.calculate p s = (Ret tt, s') ->
shape (Differentiation p) (result s')
/\ records (Differentiation p) (length (iterations s')).
Proof.
unfold NumericalDifferentiation.calculate. intros E. rewrite run_log in E.
returned E as b s0 E0. cbv zeta in E.
rewrite !run_log, run_set_iterations in E.
apply try_catch_returns in E; [|intros e st; eexists; eexists; reflexivity].
returned E as d s1 E1. only_logged E1 as Hl1.
rewrite run_push, run_set_result, run_log in E.
returned E as u2 s2 E2. only_logged E2 as Hl2.
rewrite !run_log in E. simpl in E. inversion E; subst s'.
destruct Hl1 as (_ & Hi1 & _), Hl2 as (_ & Hi2 & Hr2 & _).
simpl in *. split.
- rewrite Hr2. exact I.
- rewrite Hi2, length_app, Hi1. reflexivity.
Qed.

Lemma integration_results (p : NumericalIntegration.params) (s s' : Instance) :
NumericalIntegration.calculate p s = (Ret tt, s') ->
shape (Integration p) (result s')
/\ records (Integration p) (length (iterations s')).
Proof.
unfold NumericalIntegration.calculate. intros E. rewrite run_log in E.
returned E as b s0 E0. cbv zeta in E.
rewrite !run_log, run_set_iterations in E.
returned E as sum s1 E1.
apply fold_each_pushes in E1 as [Hi _].
2:{ intros acc i st acc' st'. unfold NumericalIntegration.trapezoid_step.
intros E2. returned E2 as fx st1 E3. only_logged E3 as Hl.
destruct Hl as (_ & Hi & Hr & _).
rewrite run_push in E2. returned E2 as u st2 E4. only_logged E4 as Hl'.
destruct Hl' as (_ & Hi' & Hr' & _).
simpl in E2. inversion E2; subst. simpl in *.
rewrite Hi', length_app, Hi, Hr', Hr. simpl. split; [lia | reflexivity]. }
simpl in Hi. unfold NumericalIntegration.indices in Hi.
rewrite length_map, length_seq in Hi.
rewrite run_set_result in E.
returned E as u2 s2 E2. only_logged E2 as Hl2.
rewrite run_log in E. simpl in E. inversion E; subst s'.
destruct Hl2 as (_ & Hi2 & Hr2 & _). simpl in *. split.
- rewrite Hr2. exact I.
- rewrite Hi2. exact Hi.
Qed.


End WithHost.


End ResultFacts.

(** ** Integration and differentiation: what a failure leaves *)

Module FailureFacts.
Import Host NumericalMethod Run RunFacts ReturnFacts ResultFacts.
Local Open Scope float_scope.

Section WithHost.
Context `{MathHost}.

(** A step of the trapezoid loop keeps the result, however it ends. *)
Lemma trapezoid_step_keeps_result (func : string) (aVal h : num) (nVal : Z)
(sum : num) (i : Z) (s : Instance) :
result (snd (NumericalIntegration.trapezoid_step func aVal h nVal sum i s))
= result s.
Proof.
unfold NumericalIntegration.trapezoid_step. cbv zeta.
match goal with
| |- context [bind ?m ?k s] =>
destruct (m s) as [[fx|e|] s1] eqn:E1; only_logged E1 as Hl;
[ rewrite (bind_ret _ _ _ _ _ E1)
| rewrite (bind_throw _ _ _ _ _ E1)
| rewrite (bind_oom _ _ _ _ E1) ]
end; destruct Hl as (_ & _ & Hr & _); try exact Hr.
rewrite run_push. unfold when.
destruct (_ =? _)%Z; [rewrite run_log|]; simpl; exact Hr.
Qed.

Lemma trapezoid_fold_keeps_result (func : string) (aVal h : num) (nVal : Z)
(l : list Z) :
forall (sum : num) (s : Instance),
result (snd (fold_each l (NumericalIntegration.trapezoid_step func aVal h nVal)
           sum s))
= result s.
Proof.
induction l as [|i l IH]; intros sum s; simpl; [reflexivity|].
pose proof (trapezoid_step_keeps_result func aVal h nVal sum i s) as Hs.
unfold bind.
destruct (NumericalIntegration.trapezoid_step func aVal h nVal sum i s)
as [[sum'|e|] s1]; simpl in *; try exact Hs.
now rewrite IH.
Qed.

(** A trapezoid loop that returns has evaluated the function at every
node. *)
Lemma trapezoid_fold_evaluates (func : string) (aVal h : num) (nVal : Z)
(l : list Z) :
forall (sum sum' : num) (s s' : Instance),
fold_each l (NumericalIntegration.trapezoid_step func aVal h nVal) sum s
= (Ret sum', s') ->
forall i, In i l -> exists v, evaluates func (aVal + numZ i * h) v.
Proof.
induction l as [|j l IH]; intros sum sum' s s' E i Hin; [destruct Hin|].
simpl in E. returned E as sum1 s1 E1.
destruct Hin as [->|Hin]; [|exact (IH _ _ _ _ E i Hin)].
revert E1. unfold NumericalIntegration.trapezoid_step. cbv zeta. intros E1.
returned E1 as fx s2 E2.
apply try_catch_returns in E2; [|intros e st; eexists; eexists; reflexivity].
apply evaluateFunction_ret in E2 as [Hv _]. now exists fx.
Qed.

(** The value of the function text at [x] when it has one. *)
Lemma evaluates_choice (func : string) :
exists f : num -> num, forall x v, evaluates func x v -> evaluates func x (f x).
Proof.
exists (fun x => match Function_call (expression_of func x) with
   | HVal (JNum v) => v
   | _ => 0
   end).
intros x v Hv. unfold evaluates in *. now rewrite Hv.
Qed.


End WithHost.


Section Differentiation.
Context `{MathHost}.
Import NumericalDifferentiation.

(** From the start of [calculate] to the call of the difference scheme. *)
Ltac to_the_scheme p s Hv :=
unfold calculate; rewrite run_log;
destruct (run_logonly (validateParams p) s
(logged info [Str "Iniciando cálculo de diferenciación numérica"] s)
(Ret true) (CoherenceFacts.logonly_differentiation_validate p)
eq_refl Hv) as (s1 & Hs1 & E1);
rewrite (bind_ret _ _ _ _ _ E1); cbv zeta;
rewrite !run_log, run_set_iterations; unfold try_catch, dispatch.

(** From the record of the scheme to the end: the result and the record
are in place before the analysis of convergence starts, and nothing after
touches them. *)
Ltac from_the_scheme :=
rewrite run_ret, run_push, run_set_result, run_log;
match goal with
| |- context [bind ?m ?k ?st] =>
let E2 := fresh "E" in
let Hl := fresh "Hl" in
destruct (m st) as [[u|e|] s2] eqn:E2; only_logged E2 as Hl;
[ rewrite (bind_ret _ _ _ _ _ E2)
| rewrite (bind_throw _ _ _ _ _ E2)
| rewrite (bind_oom _ _ _ _ E2) ];
destruct Hl as (_ & Hi & Hr & _); simpl in *;
rewrite Hi, Hr; split; reflexivity
end.

(** Differentiation stores the difference quotient first.  With a
function text that has a value at the points of the chosen scheme, a run
that passes validation leaves the quotient of that scheme as result and
exactly one record, also when the analysis of convergence that follows
throws: forward [(f(x+h) - f(x)) / h], backward [(f(x) - f(x-h)) / h],
central [(f(x+h) - f(x-h)) / (2 h)].  The analysis is taken to stay within
the texts that the host model reads. *)
Theorem differentiation_stores_quotient :
(forall (p : params) (s : Instance) (fx fxh fx2h : num),
fst (validateParams p s) = Ret true ->
method p = "forward"%string ->
evaluates (function p) (x p) fx ->
evaluates (function p) (x p + h p) fxh ->
evaluates (function p) (x p + 2 * h p) fx2h ->
fst (calculate p s) <> OutOfModel ->
result (snd (calculate p s)) = Some (RNum ((fxh - fx) / h p))
/\ length (iterations (snd (calculate p s))) = 1%nat)
/\ (forall (p : params) (s : Instance) (fx fxh fx2h : num),
fst (validateParams p s) = Ret true ->
method p = "backward"%string ->
evaluates (function p) (x p) fx ->
evaluates (function p) (x p - h p) fxh ->
evaluates (function p) (x p - 2 * h p) fx2h ->
fst (calculate p s) <> OutOfModel ->
result (snd (calculate p s)) = Some (RNum ((fx - fxh) / h p))
/\ length (iterations (snd (calculate p s))) = 1%nat)
/\ (forall (p : params) (s : Instance) (fp fm fx f2p f2m : num),
fst (validateParams p s) = Ret true ->
method p = "central"%string ->
evaluates (function p) (x p + h p) fp ->
evaluates (function p) (x p - h p) fm ->
evaluates (function p) (x p) fx ->
evaluates (function p) (x p + 2 * h p) f2p ->
evaluates (function p) (x p - 2 * h p) f2m ->
fst (calculate p s) <> OutOfModel ->
result (snd (calculate p s)) = Some (RNum ((fp - fm) / (2 * h p)))
/\ length (iterations (snd (calculate p s))) = 1%nat).
Proof.
split; [|split].
- intros p s fx fxh fx2h Hv Hm H1 H2 H3 _.
to_the_scheme p s Hv. rewrite Hm.
change ("forward" =? "forward")%string with true. cbv iota.
unfold forwardDifference.
rewrite (run_assoc (evaluateFunction _ _)).
rewrite (bind_ret _ _ _ _ _ (evaluateFunction_value _ _ _ _ H1)).
rewrite (run_assoc (evaluateFunction _ _)).
rewrite (bind_ret _ _ _ _ _ (evaluateFunction_value _ _ _ _ H2)).
rewrite (run_assoc (evaluateFunction _ _)).
rewrite (bind_ret _ _ _ _ _ (evaluateFunction_value _ _ _ _ H3)).
from_the_scheme.
- intros p s fx fxh fx2h Hv Hm H1 H2 H3 _.
to_the_scheme p s Hv. rewrite Hm.
change ("backward" =? "forward")%string with false.
change ("backward" =? "backward")%string with true. cbv iota.
unfold backwardDifference.
rewrite (run_assoc (evaluateFunction _ _)).
rewrite (bind_ret _ _ _ _ _ (evaluateFunction_value _ _ _ _ H1)).
rewrite (run_assoc (evaluateFunction _ _)).
rewrite (bind_ret _ _ _ _ _ (evaluateFunction_value _ _ _ _ H2)).
rewrite (run_assoc (evaluateFunction _ _)).
rewrite (bind_ret _ _ _ _ _ (evaluateFunction_value _ _ _ _ H3)).
from_the_scheme.
- intros p s fp fm fx f2p f2m Hv Hm H1 H2 H3 H4 H5 _.
to_the_scheme p s Hv. rewrite Hm.
change ("central" =? "forward")%string with false.
change ("central" =? "backward")%string with false.
change ("central" =? "central")%string with true. cbv iota.
unfold centralDifference.
rewrite (run_assoc (evaluateFunction _ _)).
rewrite (bind_ret _ _ _ _ _ (evaluateFunction_value _ _ _ _ H1)).
rewrite (run_assoc (evaluateFunction _ _)).
rewrite (bind_ret _ _ _ _ _ (evaluateFunction_value _ _ _ _ H2)).
rewrite (run_assoc (evaluateFunction _ _)).
rewrite (bind_ret _ _ _ _ _ (evaluateFunction_value _ _ _ _ H3)).
rewrite (run_assoc (evaluateFunction _ _)).
rewrite (bind_ret _ _ _ _ _ (evaluateFunction_value _ _ _ _ H4)).
rewrite (run_assoc (evaluateFunction _ _)).
rewrite (bind_ret _ _ _ _ _ (evaluateFunction_value _ _ _ _ H5)).
from_the_scheme.
Qed.

End Differentiation.

Lemma differentiation_stores_quotient_witness :
result (snd (NumericalDifferentiation.calculate (H := SeriesHost.series_host)
         {| NumericalDifferentiation.function := "x*x";
            NumericalDifferentiation.x := 1;
            NumericalDifferentiation.h := 0.5;
            NumericalDifferentiation.method := "forward" |}
         (NumericalDifferentiation.construct [])))
= Some (RNum ((2.25 - 1) / 0.5))
/\ length (iterations
       (snd (NumericalDifferentiation.calculate
               (H := SeriesHost.series_host)
               {| NumericalDifferentiation.function := "x*x";
                  NumericalDifferentiation.x := 1;
                  NumericalDifferentiation.h := 0.5;
                  NumericalDifferentiation.method := "forward" |}
               (NumericalDifferentiation.construct [])))) = 1%nat.
Proof.
apply (proj1 (differentiation_stores_quotient (H := SeriesHost.series_host))
   {| NumericalDifferentiation.function := "x*x";
      NumericalDifferentiation.x := 1;
      NumericalDifferentiation.h := 0.5;
      NumericalDifferentiation.method := "forward" |}
   (NumericalDifferentiation.construct []) 1 2.25 4);
try (vm_compute; reflexivity).
vm_compute. discriminate.
Defined.

End FailureFacts.

(** ** The rewriting steps of the evaluator *)

Module RewriteFacts.
Import Host NumericalMethod Run RunFacts Texts.
Local Open Scope float_scope.

Lemma replace_x_no_x (x : num) (l : text) : no_x (replace_x x l).
Proof.
unfold no_x.
induction l as [|s l IH]; simpl; [constructor|].
apply Forall_app. split; [|exact IH].
destruct s as [c|v].
- destruct (Ascii.eqb c "x") eqn:Ec.
+ repeat constructor; discriminate.
+ constructor; [|constructor]. intros E. inversion E; subst.
now rewrite Ascii.eqb_refl in Ec.
- constructor; [discriminate | constructor].
Qed.

Lemma take_while_forall (P : sym -> Prop) (p : sym -> bool) (l : text) :
Forall P l -> Forall P (take_while p l).
Proof.
induction 1 as [|s l Hs Hl IH]; simpl; [constructor|].
destruct (p s); [now constructor | constructor].
Qed.

Lemma drop_while_forall (P : sym -> Prop) (p : sym -> bool) (l : text) :
Forall P l -> Forall P (drop_while p l).
Proof.
induction 1 as [|s l Hs Hl IH]; simpl; [constructor|].
destruct (p s); [exact IH | now constructor].
Qed.

Lemma match_pow_forall (P : sym -> Prop) (l g d : text) :
Forall P l -> match_pow l = Some (g, d) -> Forall P g /\ Forall P d.
Proof.
intros Hl. unfold match_pow.
destruct l as [|[c|v] rest]; try discriminate.
destruct (Ascii.eqb c "("); [|discriminate].
inversion Hl as [|? ? _ Hrest]; subst.
pose proof (take_while_forall P not_rparen rest Hrest) as Hg.
pose proof (drop_while_forall P not_rparen rest Hrest) as Hd.
destruct (take_while not_rparen rest) as [|g0 g']; [discriminate|].
destruct (drop_while not_rparen rest) as [|[c1|v1] [|[c2|v2] rest']];
try discriminate.
destruct (Ascii.eqb c1 ")" && Ascii.eqb c2 "^"); [|discriminate].
inversion Hd as [|? ? _ Hd1]; subst. inversion Hd1 as [|? ? _ Hd2]; subst.
pose proof (take_while_forall P digit_sym rest' Hd2) as Hdig.
destruct (take_while digit_sym rest') as [|d0 d']; [discriminate|].
intros E. inversion E; subst. now split.
Qed.

Lemma replace_pow_no_x (l : text) : no_x l -> no_x (replace_pow l).
Proof.
unfold replace_pow, no_x. generalize 0%nat. intros skip Hl. revert skip.
induction Hl as [|s l Hs Hl IH]; intros skip; cbn [replace_pow_from];
[constructor|].
destruct skip as [|k]; [|apply IH].
destruct (match_pow (s :: l)) as [[g d]|] eqn:Em.
- destruct (match_pow_forall _ _ _ _ (List.Forall_cons _ s l Hs Hl) Em) as [Hg Hd].
cbn [chars app]. repeat (constructor; [discriminate|]).
apply Forall_app. split; [exact Hg|]. cbn [app].
constructor; [discriminate|].
apply Forall_app. split; [exact Hd|]. cbn [app].
constructor; [discriminate | apply IH].
- constructor; [exact Hs | apply IH].
Qed.

Lemma replace_name_no_x (pat rep : string) (l : text) :
no_x (chars rep) -> no_x l -> no_x (replace_name pat rep l).
Proof.
unfold replace_name, no_x. intros Hrep. generalize 0%nat. intros skip Hl.
revert skip.
induction Hl as [|s l Hs Hl IH]; intros skip; cbn [replace_name_from];
[constructor|].
destruct skip as [|k]; [|apply IH].
destruct (starts_with pat (s :: l)).
- apply Forall_app. split; [exact Hrep | apply IH].
- constructor; [exact Hs | apply IH].
Qed.

(** A text without [x] does not start with [exp]. *)
Lemma no_x_no_exp (l : text) : no_x l -> starts_with "exp" l = false.
Proof.
unfold no_x. intros Hl.
destruct l as [|[c|v] l1]; [reflexivity| |reflexivity].
cbn [starts_with]. destruct (Ascii.eqb "e" c); [|reflexivity].
inversion Hl as [|? ? _ Hl1]; subst.
destruct l1 as [|[c1|v1] l2]; [reflexivity| |reflexivity].
cbn [starts_with andb]. inversion Hl1 as [|? ? Hc1 _]; subst.
destruct (Ascii.eqb "x" c1) eqn:Ec; [|reflexivity].
apply Ascii.eqb_eq in Ec. subst. now contradiction Hc1.
Qed.

Lemma replace_exp_no_x (rep : string) (l : text) :
no_x l -> replace_name "exp" rep l = l.
Proof.
unfold replace_name, no_x. induction 1 as [|s l Hs Hl IH]; [reflexivity|].
cbn [replace_name_from].
rewrite (no_x_no_exp (s :: l) (List.Forall_cons _ s l Hs Hl)). now rewrite IH.
Qed.

Section WithHost.
Context `{MathHost}.

(** The rewriting of [exp] never applies.  The first step has replaced
every [x] of the text, the [x] of [exp] with the others, and no later step
brings one back; so the last replacement, of [exp] by [Math.exp], finds
nothing to replace, whatever the function text.  The text [exp(x)] itself
reaches the host as [e((x))p((x))] and fails with the error
[Función inválida] at every point. *)
Theorem exp_is_never_rewritten :
(forall (func : string) (x : num),
expression_of func x
= replace_name "sqrt" "Math.sqrt"
(replace_name "log" "Math.log"
 (replace_name "tan" "Math.tan"
    (replace_name "cos" "Math.cos"
       (replace_name "sin" "Math.sin"
          (replace_pow (replace_x x (chars func))))))))
/\ (forall (x : num) (s : Instance),
evaluateFunction "exp(x)" x s
= (Throw invalid_function,
logged Logger.error
  [Str "Error evaluando función: "; HostMessage SyntaxError] s)).
Proof.
split.
- intros func x. unfold expression_of. cbv zeta.
apply replace_exp_no_x.
repeat (apply replace_name_no_x;
[unfold no_x; repeat constructor; discriminate|]).
apply replace_pow_no_x, replace_x_no_x.
- intros x s. unfold evaluateFunction.
assert (E : Function_call (expression_of "exp(x)" x) = HThrow SyntaxError)
by (vm_compute; reflexivity).
now rewrite E.
Qed.

End WithHost.

(** *** Numbers printed into the text *)

Lemma same_reading_refl (s : sym) : same_reading s s.
Proof. now destruct s. Qed.

Lemma same_reading_text_refl (l : text) : Forall2 same_reading l l.
Proof. induction l; constructor; [apply same_reading_refl | assumption]. Qed.

Lemma replace_x_same_reading (x y : num) (l : text) :
printed x = printed y ->
Forall2 same_reading (replace_x x l) (replace_x y l).
Proof.
intros Hxy. induction l as [|s l IH]; simpl; [constructor|].
apply Forall2_app; [|exact IH].
destruct s as [c|v].
- destruct (Ascii.eqb c "x"); repeat constructor. exact Hxy.
- repeat constructor.
Qed.

Section Respect.
Variable p : sym -> bool.
Hypothesis p_respects : forall s t, same_reading s t -> p s = p t.

Lemma take_while_same_reading (l l' : text) :
Forall2 same_reading l l' ->
Forall2 same_reading (take_while p l) (take_while p l').
Proof.
induction 1 as [|s t l l' Hst Hl IH]; simpl; [constructor|].
rewrite <- (p_respects s t Hst). destruct (p s); now constructor.
Qed.

Lemma drop_while_same_reading (l l' : text) :
Forall2 same_reading l l' ->
Forall2 same_reading (drop_while p l) (drop_while p l').
Proof.
induction 1 as [|s t l l' Hst Hl IH]; simpl; [constructor|].
rewrite <- (p_respects s t Hst). destruct (p s); [exact IH | now constructor].
Qed.

End Respect.

Lemma not_rparen_respects (s t : sym) : same_reading s t -> not_rparen s = not_rparen t.
Proof. destruct s, t; simpl; try easy. now intros ->. Qed.

Lemma digit_sym_respects (s t : sym) : same_reading s t -> digit_sym s = digit_sym t.
Proof. destruct s, t; simpl; try easy. now intros ->. Qed.

Lemma match_pow_same_reading (l l' : text) :
Forall2 same_reading l l' ->
match match_pow l, match_pow l' with
| Some (g, d), Some (g', d') =>
Forall2 same_reading g g' /\ Forall2 same_reading d d'
| None, None => True
| _, _ => False
end.
Proof.
intros Hl. unfold match_pow.
destruct Hl as [|s t rest rest' Hst Hrest]; [exact I|].
destruct s as [c|v], t as [c'|v']; simpl in Hst; try easy. subst c'.
destruct (Ascii.eqb c "("); [|exact I].
pose proof (take_while_same_reading _ not_rparen_respects _ _ Hrest) as Hg.
pose proof (drop_while_same_reading _ not_rparen_respects _ _ Hrest) as Hd.
destruct Hg as [|g0 g0' g g' Hg0 Hg]; [exact I|].
destruct Hd as [|s1 t1 r1 r1' H1 Hd]; [exact I|].
destruct s1 as [c1|v1], t1 as [c1'|v1']; simpl in H1; try easy. subst c1'.
destruct Hd as [|s2 t2 r2 r2' H2 Hd]; [exact I|].
destruct s2 as [c2|v2], t2 as [c2'|v2']; simpl in H2; try easy. subst c2'.
destruct (Ascii.eqb c1 ")" && Ascii.eqb c2 "^"); [|exact I].
pose proof (take_while_same_reading _ digit_sym_respects _ _ Hd) as Hdig.
destruct Hdig as [|d0 d0' d d' Hd0 Hdig]; [exact I|].
split; now constructor.
Qed.

Lemma replace_pow_same_reading (l l' : text) :
Forall2 same_reading l l' ->
Forall2 same_reading (replace_pow l) (replace_pow l').
Proof.
unfold replace_pow. generalize 0%nat. intros skip Hl. revert skip.
induction Hl as [|s t l l' Hst Hl IH]; intros skip; cbn [replace_pow_from];
[constructor|].
destruct skip as [|k]; [|apply IH].
pose proof (match_pow_same_reading (s :: l) (t :: l')
          (List.Forall2_cons s t Hst Hl)) as Hm.
destruct (match_pow (s :: l)) as [[g d]|], (match_pow (t :: l')) as [[g' d']|];
try easy.
- destruct Hm as [Hg Hd].
rewrite <- (Forall2_length _ _ _ Hg), <- (Forall2_length _ _ _ Hd).
apply Forall2_app; [apply same_reading_text_refl|].
apply Forall2_app; [exact Hg|].
apply Forall2_app; [apply same_reading_text_refl|].
apply Forall2_app; [exact Hd|].
apply Forall2_app; [apply same_reading_text_refl | apply IH].
- constructor; [exact Hst | apply IH].
Qed.

Lemma starts_with_same_reading (pat : string) (l l' : text) :
Forall2 same_reading l l' -> starts_with pat l = starts_with pat l'.
Proof.
intros Hl. revert pat. induction Hl as [|s t l l' Hst Hl IH]; intros pat.
- reflexivity.
- destruct pat as [|a pat]; [reflexivity|].
destruct s as [c|v], t as [c'|v']; simpl in Hst; try easy. subst c'.
simpl. now rewrite IH.
Qed.

Lemma replace_name_same_reading (pat rep : string) (l l' : text) :
Forall2 same_reading l l' ->
Forall2 same_reading (replace_name pat rep l) (replace_name pat rep l').
Proof.
unfold replace_name. generalize 0%nat. intros skip Hl. revert skip.
induction Hl as [|s t l l' Hst Hl IH]; intros skip; cbn [replace_name_from];
[constructor|].
destruct skip as [|k]; [|apply IH].
rewrite <- (starts_with_same_reading pat (s :: l) (t :: l')
          (List.Forall2_cons s t Hst Hl)).
destruct (starts_with pat (s :: l)).
- apply Forall2_app; [apply same_reading_text_refl | apply IH].
- constructor; [exact Hst | apply IH].
Qed.

Lemma expression_same_reading (func : string) (x y : num) :
printed x = printed y ->
Forall2 same_reading (expression_of func x) (expression_of func y).
Proof.
intros Hxy. unfold expression_of. cbv zeta.
repeat apply replace_name_same_reading.
now apply replace_pow_same_reading, replace_x_same_reading.
Qed.

Lemma next_is_same_reading (q : ascii -> bool) (l l' : text) :
Forall2 same_reading l l' -> next_is q (head l) = next_is q (head l').
Proof.
destruct 1 as [|s t l l' Hst _]; [reflexivity|].
destruct s, t; simpl in *; try easy. now subst.
Qed.

Lemma step_same_reading (m : lexmode) (s t : sym) (l l' : text) :
same_reading s t -> Forall2 same_reading l l' ->
step m s (head l) = step m t (head l').
Proof.
intros Hst Hl.
assert (Hstart : start_step s (head l) = start_step t (head l')).
{ destruct s as [c|v], t as [c'|v']; simpl in Hst; try easy.
- subst c'. unfold start_step.
now rewrite !(next_is_same_reading _ l l' Hl).
- unfold start_step. rewrite !(next_is_same_reading _ l l' Hl).
now rewrite Hst. }
destruct s as [c|v], t as [c'|v']; simpl in Hst; try easy.
- subst c'. destruct m; simpl; unfold after_close; now rewrite ?Hstart.
- destruct m; simpl; [exact Hstart | reflexivity..].
Qed.

Lemma lex_same_reading (l l' : text) :
Forall2 same_reading l l' -> forall m, lex l m = lex l' m.
Proof.
induction 1 as [|s t l l' Hst Hl IH]; intros m; [reflexivity|].
cbn [lex]. rewrite (step_same_reading m s t l l' Hst Hl).
destruct (step m t (head l')) as [[out m']|]; [|reflexivity].
now rewrite IH.
Qed.

Section WithHost2.
Context `{MathHost}.

(** The sign of zero is lost.  The evaluator prints the point into the
text, and [-0] prints as [0]: the value of any function text at [-0] is
its value at [0], and in general the evaluator sees of [x] only the number
its printed form reads back as. *)
Theorem sign_of_zero_is_lost (func : string) (s : Instance) :
(forall x, evaluateFunction func x s = evaluateFunction func (printed x) s)
/\ evaluateFunction func (-0) s = evaluateFunction func 0 s.
Proof.
assert (Hgen : forall x y, printed x = printed y ->
       evaluateFunction func x s = evaluateFunction func y s).
{ intros x y Hxy. unfold evaluateFunction, Function_call.
rewrite (lex_same_reading _ (Ch "(" :: expression_of func y ++ [Ch ")"])); [reflexivity|].
constructor; [reflexivity|].
apply Forall2_app; [now apply expression_same_reading|].
apply same_reading_text_refl. }
split.
- intros x. apply Hgen. unfold printed.
destruct (PrimFloat.eqb x PrimFloat.zero) eqn:E; [reflexivity|].
now rewrite E.
- apply Hgen. reflexivity.
Qed.

(** The call of the host, once the text is read. *)
Lemma Function_call_parsed (t : text) (ts : list token) (e : expr) :
lex (Ch "(" :: t ++ [Ch ")"]) LStart = Some ts ->
parse_level (8 * length ts + 8) LvComma ts = POk e [] ->
Function_call t = eval e.
Proof. intros Hl Hp. unfold Function_call. now rewrite Hl, Hp. Qed.

(** A caret is a power only right after a group without parentheses.
At every point [x] and on every host: in [x^2] the replaced [x] is such a
group, and the text becomes a call of [Math.pow]; in [(x+1)^2] and [2^x]
the pattern finds no such group before the caret or no digits after it,
and the host reads the caret as its bitwise exclusive or on 32-bit
integers; in [x^0.5] only the [0] is taken as exponent, and the text that
remains is not an expression. *)
Theorem caret_is_not_always_a_power (x : num) (s : Instance) :
evaluateFunction "x^2" x s = (Ret (Math_pow (printed x) 2), s)
/\ evaluateFunction "(x+1)^2" x s
= (Ret (numZ (Z.lxor (ToInt32 (printed x + 1)) 2)), s)
/\ evaluateFunction "2^x" x s
= (Ret (numZ (Z.lxor 2 (ToInt32 (printed x)))), s)
/\ evaluateFunction "x^0.5" x s
= (Throw invalid_function,
logged Logger.error
  [Str "Error evaluando función: "; HostMessage SyntaxError] s).
Proof.
unfold evaluateFunction.
rewrite (Function_call_parsed (expression_of "x^2" x)
     [TLParen; TId "Math"; TDot; TId "pow"; TLParen; TNum (printed x);
      TComma; TNum 2; TRParen; TRParen]
     (ECall (EMember (EId "Math") "pow") [ENum (printed x); ENum 2]));
[|vm_compute; reflexivity..].
rewrite (Function_call_parsed (expression_of "(x+1)^2" x)
     [TLParen; TLParen; TLParen; TNum (printed x); TRParen; TPlus; TNum 1;
      TRParen; TCaret; TNum 2; TRParen]
     (EBin OXor (EBin OAdd (ENum (printed x)) (ENum 1)) (ENum 2)));
[|vm_compute; reflexivity..].
rewrite (Function_call_parsed (expression_of "2^x" x)
     [TLParen; TNum 2; TCaret; TLParen; TNum (printed x); TRParen; TRParen]
     (EBin OXor (ENum 2) (ENum (printed x))));
[|vm_compute; reflexivity..].
assert (E4 : Function_call (expression_of "x^0.5" x) = HThrow SyntaxError)
by (vm_compute; reflexivity).
rewrite E4. cbn [eval hbind ToNumber arith].
replace (ToInt32 2) with 2%Z by (vm_compute; reflexivity).
repeat split.
Qed.

End WithHost2.

End RewriteFacts.

(** ** The iterations of fixed point and Newton-Raphson *)

Module SequenceFacts.
Import Host NumericalMethod Run RunFacts DivergenceFacts IterationFacts.
Local Open Scope float_scope.

Section WithHost.
Context `{MathHost}.

(** The fixed-point loop along a sequence of iterates [xs]: it passes the
turns that neither converge nor diverge and stops at the first that
converges. *)
Lemma fixed_point_loop_converges (func : string) (tol : num) (k : nat) :
forall (xs : nat -> num) (fuel : nat) (iter : Z) (s : Instance),
(forall i, (i <= k)%nat -> evaluates func (xs i) (xs (S i))) ->
(forall i, (i < k)%nat ->
   (Math_abs (xs (S i) - xs i) <? tol) = false
   /\ (1e10 <? Math_abs (xs (S i))) = false) ->
(Math_abs (xs (S k) - xs k) <? tol) = true ->
exists s',
FixedPointMethod.loop func tol (S k + fuel) iter (xs 0%nat) s
= (Ret (xs k), s')
/\ result s' = Some (RNum (xs (S k)))
/\ length (iterations s') = (length (iterations s) + S k)%nat.
Proof.
induction k as [|k IH]; intros xs fuel iter s Hev Hgo Hstop.
- destruct (fixed_point_turn_converges func tol (0 + fuel) iter (xs 0%nat)
    (xs 1%nat) s (Hev 0%nat (Nat.le_refl 0)) Hstop)
as (s' & E & Hr & Hi & _).
exists s'. split; [exact E|]. split; [exact Hr | lia].
- destruct (Hgo 0%nat ltac:(lia)) as [Hc Hb].
destruct (fixed_point_turn_continues func tol (S k + fuel) iter (xs 0%nat)
    (xs 1%nat) s (Hev 0%nat ltac:(lia)) Hc Hb)
as (s1 & E & Hr & Hi & _).
destruct (IH (fun i => xs (S i)) fuel (iter + 1)%Z s1) as (s' & E' & Hr' & Hi').
+ intros i Hi0. apply Hev. lia.
+ intros i Hi0. apply Hgo. lia.
+ exact Hstop.
+ exists s'. split; [|split; [exact Hr' | lia]].
change (S (S k) + fuel)%nat with (S (S k + fuel)). now rewrite E.
Qed.

(** The same loop when no turn converges or diverges: it uses up its
budget and leaves the result slot as it was. *)
Lemma fixed_point_loop_exhausts (func : string) (tol : num) (k : nat) :
forall (xs : nat -> num) (iter : Z) (s : Instance),
(forall i, (i < k)%nat ->
   evaluates func (xs i) (xs (S i))
   /\ (Math_abs (xs (S i) - xs i) <? tol) = false
   /\ (1e10 <? Math_abs (xs (S i))) = false) ->
exists s',
FixedPointMethod.loop func tol k iter (xs 0%nat) s = (Ret (xs k), s')
/\ result s' = result s
/\ length (iterations s') = (length (iterations s) + k)%nat.
Proof.
induction k as [|k IH]; intros xs iter s Hgo.
- exists s. split; [reflexivity|]. split; [reflexivity | lia].
- destruct (Hgo 0%nat ltac:(lia)) as (Hev & Hc & Hb).
destruct (fixed_point_turn_continues func tol k iter (xs 0%nat) (xs 1%nat) s
    Hev Hc Hb) as (s1 & E & Hr & Hi & _).
destruct (IH (fun i => xs (S i)) (iter + 1)%Z s1) as (s' & E' & Hr' & Hi').
+ intros i Hi0. apply Hgo. lia.
+ exists s'. rewrite E. split; [exact E'|]. split; [congruence | lia].
Qed.

(** Fixed point follows the iteration [x, g(x), g(g(x)), ...].  For a run
that passes validation, let [xs] be the iterates from [x0].  If the turns
before turn [k + 1] neither meet the tolerance nor leave [1e10], and turn
[k + 1] is within the budget and meets the tolerance at a value that is
not zero, the run returns that value, [xs (k + 1)], with [k + 1] records.
If no turn of the budget meets the tolerance or leaves [1e10], the run
returns the last iterate and warns that the iterations were used up. *)
Theorem fixed_point_follows_the_iteration
(p : FixedPointMethod.params) (s : Instance) (xs : nat -> num) :
fst (FixedPointMethod.validateParams p s) = Ret true ->
xs 0%nat = FixedPointMethod.x0 p ->
(forall k,
(S k <= Z.to_nat (FixedPointMethod.maxIterations p))%nat ->
(forall i, (i <= k)%nat ->
     evaluates (FixedPointMethod.function p) (xs i) (xs (S i))) ->
(forall i, (i < k)%nat ->
     (Math_abs (xs (S i) - xs i) <? FixedPointMethod.tolerance p) = false
     /\ (1e10 <? Math_abs (xs (S i))) = false) ->
(Math_abs (xs (S k) - xs k) <? FixedPointMethod.tolerance p) = true ->
falsy (Some (RNum (xs (S k)))) = false ->
exists s',
FixedPointMethod.calculate p s = (Ret tt, s')
/\ result s' = Some (RNum (xs (S k)))
/\ length (iterations s') = S k)
/\ ((forall i, (i < Z.to_nat (FixedPointMethod.maxIterations p))%nat ->
     evaluates (FixedPointMethod.function p) (xs i) (xs (S i))
     /\ (Math_abs (xs (S i) - xs i) <? FixedPointMethod.tolerance p)
        = false
     /\ (1e10 <? Math_abs (xs (S i))) = false) ->
exists s',
FixedPointMethod.calculate p s = (Ret tt, s')
/\ result s'
= Some (RNum (xs (Z.to_nat (FixedPointMethod.maxIterations p))))
/\ length (iterations s') = Z.to_nat (FixedPointMethod.maxIterations p)
/\ In {| lvl := warning;
     msg := [Str "Máximo de iteraciones alcanzado sin convergencia"] |}
  (logs s')).
Proof.
intros Hv Hx0.
assert (Hstart :
 exists s1,
   FixedPointMethod.calculate p s
   = bind (FixedPointMethod.loop (FixedPointMethod.function p)
             (FixedPointMethod.tolerance p)
             (Z.to_nat (FixedPointMethod.maxIterations p)) 0%Z
             (xs 0%nat))
          (fun x' =>
             bind get_result (fun r =>
             when (falsy r)
               (bind (log warning
                        [Str "Máximo de iteraciones alcanzado sin convergencia"])
                     (fun _ => set_result (Some (RNum x'))))))
          s1
   /\ result s1 = None /\ iterations s1 = []).
{ unfold FixedPointMethod.calculate. run_step.
destruct (run_logonly (FixedPointMethod.validateParams p) s
    (logged info [Str "Iniciando cálculo por método de Punto Fijo"] s)
    (Ret true) (logonly_fixed_point_validate p) eq_refl Hv)
as (s1 & Hs1 & E1).
rewrite (bind_ret _ _ _ _ _ E1). do 4 run_step. rewrite Hx0.
eexists. split; [reflexivity|]. split; reflexivity. }
destruct Hstart as (s1 & Ecalc & Hr1 & Hi1). rewrite Ecalc. clear Ecalc.
split.
- intros k Hk Hev Hgo Hstop Hnz.
destruct (fixed_point_loop_converges (FixedPointMethod.function p)
    (FixedPointMethod.tolerance p) k xs
    (Z.to_nat (FixedPointMethod.maxIterations p) - S k) 0%Z s1
    Hev Hgo Hstop) as (s2 & E & Hr & Hi).
replace (S k + (Z.to_nat (FixedPointMethod.maxIterations p) - S k))%nat
with (Z.to_nat (FixedPointMethod.maxIterations p)) in E by lia.
rewrite (bind_ret _ _ _ _ _ E). rewrite run_get_result, Hr, Hnz.
exists s2. split; [reflexivity|]. split; [exact Hr|].
rewrite Hi, Hi1. reflexivity.
- intros Hgo.
destruct (fixed_point_loop_exhausts (FixedPointMethod.function p)
    (FixedPointMethod.tolerance p)
    (Z.to_nat (FixedPointMethod.maxIterations p)) xs 0%Z s1 Hgo)
as (s2 & E & Hr & Hi).
rewrite (bind_ret _ _ _ _ _ E). rewrite run_get_result, Hr, Hr1.
simpl falsy. unfold when. run_step.
eexists. split; [reflexivity|]. split; [reflexivity|]. split.
+ simpl. rewrite Hi, Hi1. reflexivity.
+ simpl. apply in_or_app. right. now left.
Qed.

(** A turn of the Newton-Raphson loop that passes all its tests. *)
Lemma newton_turn_continues (func : string) (tol : num) (fuel : nat)
(iter : Z) (x fx f1 f2 : num) (s : Instance) :
evaluates func x fx ->
evaluates func (x + 0.0001) f1 ->
evaluates func (x - 0.0001) f2 ->
(Math_abs ((f1 - f2) / (2 * 0.0001)) <? 1e-10) = false ->
(Math_abs (x - fx / ((f1 - f2) / (2 * 0.0001)) - x) <? tol)
|| (Math_abs fx <? tol) = false ->
(1e10 <? Math_abs (x - fx / ((f1 - f2) / (2 * 0.0001))))
|| isNaN (x - fx / ((f1 - f2) / (2 * 0.0001))) = false ->
exists s1,
NewtonMethod.loop func tol (S fuel) iter x s
= NewtonMethod.loop func tol fuel (iter + 1)%Z
(x - fx / ((f1 - f2) / (2 * 0.0001))) s1
/\ result s1 = result s
/\ length (iterations s1) = S (length (iterations s)).
Proof.
intros Hx H1 H2 Hder Hconv Hbig. cbn [NewtonMethod.loop].
rewrite (bind_ret _ _ _ _ _ (newton_turn_start _ iter _ _ _ _ s Hx H1 H2)).
cbn [fst snd]. rewrite Hder. do 3 run_step. rewrite Hconv, Hbig.
eexists. split; [reflexivity|]. split; [reflexivity|].
simpl. rewrite length_app. simpl. lia.
Qed.

Section Newton.
Import NewtonTurn.
Variables (func : string) (tol : num).

Lemma newton_loop_converges (k : nat) :
forall (xs fx f1 f2 : nat -> num) (fuel : nat) (iter : Z) (s : Instance),
(forall i, xs (S i) = next (xs i) (fx i) (f1 i) (f2 i)) ->
(forall i, (i <= k)%nat ->
evaluates func (xs i) (fx i)
/\ evaluates func (xs i + 0.0001) (f1 i)
/\ evaluates func (xs i - 0.0001) (f2 i)
/\ flat (f1 i) (f2 i) = false) ->
(forall i, (i < k)%nat ->
close tol (xs i) (fx i) (f1 i) (f2 i) = false
/\ far (xs i) (fx i) (f1 i) (f2 i) = false) ->
close tol (xs k) (fx k) (f1 k) (f2 k) = true ->
exists s',
NewtonMethod.loop func tol (S k + fuel) iter (xs 0%nat) s = (Ret (xs k), s')
/\ result s' = Some (RNum (xs (S k)))
/\ length (iterations s') = (length (iterations s) + S k)%nat.
Proof.
induction k as [|k IH]; intros xs fx f1 f2 fuel iter s Hxs Hev Hgo Hstop.
- destruct (Hev 0%nat (Nat.le_refl 0)) as (Hx & H1 & H2 & Hflat).
destruct (newton_turn_converges func tol (0 + fuel) iter _ _ _ _ s
Hx H1 H2 Hflat Hstop) as (s' & E & Hr & Hi & _).
exists s'. split; [exact E|]. rewrite Hxs. split; [exact Hr | lia].
- destruct (Hev 0%nat ltac:(lia)) as (Hx & H1 & H2 & Hflat).
destruct (Hgo 0%nat ltac:(lia)) as [Hc Hb].
destruct (newton_turn_continues func tol (S k + fuel) iter _ _ _ _ s
Hx H1 H2 Hflat Hc Hb) as (s1 & E & Hr & Hi).
destruct (IH (fun i => xs (S i)) (fun i => fx (S i)) (fun i => f1 (S i))
(fun i => f2 (S i)) fuel (iter + 1)%Z s1)
as (s' & E' & Hr' & Hi').
+ intros i. apply Hxs.
+ intros i Hi0. apply Hev. lia.
+ intros i Hi0. apply Hgo. lia.
+ exact Hstop.
+ exists s'. split; [|split; [exact Hr' | lia]].
change (S (S k) + fuel)%nat with (S (S k + fuel)).
rewrite E. change (xs 0%nat - fx 0%nat / ((f1 0%nat - f2 0%nat) / (2 * 0.0001)))
with (next (xs 0%nat) (fx 0%nat) (f1 0%nat) (f2 0%nat)).
rewrite <- Hxs. exact E'.
Qed.

Lemma newton_loop_exhausts (k : nat) :
forall (xs fx f1 f2 : nat -> num) (iter : Z) (s : Instance),
(forall i, xs (S i) = next (xs i) (fx i) (f1 i) (f2 i)) ->
(forall i, (i < k)%nat ->
evaluates func (xs i) (fx i)
/\ evaluates func (xs i + 0.0001) (f1 i)
/\ evaluates func (xs i - 0.0001) (f2 i)
/\ flat (f1 i) (f2 i) = false
/\ close tol (xs i) (fx i) (f1 i) (f2 i) = false
/\ far (xs i) (fx i) (f1 i) (f2 i) = false) ->
exists s',
NewtonMethod.loop func tol k iter (xs 0%nat) s = (Ret (xs k), s')
/\ result s' = result s
/\ length (iterations s') = (length (iterations s) + k)%nat.
Proof.
induction k as [|k IH]; intros xs fx f1 f2 iter s Hxs Hgo.
- exists s. split; [reflexivity|]. split; [reflexivity | lia].
- destruct (Hgo 0%nat ltac:(lia)) as (Hx & H1 & H2 & Hflat & Hc & Hb).
destruct (newton_turn_continues func tol k iter _ _ _ _ s
Hx H1 H2 Hflat Hc Hb) as (s1 & E & Hr & Hi).
destruct (IH (fun i => xs (S i)) (fun i => fx (S i)) (fun i => f1 (S i))
(fun i => f2 (S i)) (iter + 1)%Z s1)
as (s' & E' & Hr' & Hi').
+ intros i. apply Hxs.
+ intros i Hi0. apply Hgo. lia.
+ exists s'. rewrite E.
change (xs 0%nat - fx 0%nat / ((f1 0%nat - f2 0%nat) / (2 * 0.0001)))
with (next (xs 0%nat) (fx 0%nat) (f1 0%nat) (f2 0%nat)).
rewrite <- Hxs.
split; [exact E'|]. split; [congruence | lia].
Qed.

End Newton.

(** Newton-Raphson follows the iteration [x - f(x) / f'(x)], with the
central difference quotient of step [0.0001] for [f'(x)].  For a run that
passes validation, let [xs] be the iterates from [x0], and [fx], [f1],
[f2] the values of the function text at each iterate [x], at [x + 0.0001]
and at [x - 0.0001].  If no quotient up to turn [k + 1] is below [1e-10],
the turns before it neither converge nor diverge, and turn [k + 1] is
within the budget and converges (by the step or by [|f(x)|]) at a next
iterate that is not zero, the run returns that next iterate with [k + 1]
records.  If every turn of the budget passes all the tests, the run
returns the last iterate and warns that the iterations were used up. *)
Theorem newton_follows_the_iteration
(p : NewtonMethod.params) (s : Instance) (xs fx f1 f2 : nat -> num) :
fst (NewtonMethod.validateParams p s) = Ret true ->
xs 0%nat = NewtonMethod.x0 p ->
(forall i, xs (S i) = NewtonTurn.next (xs i) (fx i) (f1 i) (f2 i)) ->
(forall k,
(S k <= Z.to_nat (NewtonMethod.maxIterations p))%nat ->
(forall i, (i <= k)%nat ->
     evaluates (NewtonMethod.function p) (xs i) (fx i)
     /\ evaluates (NewtonMethod.function p) (xs i + 0.0001) (f1 i)
     /\ evaluates (NewtonMethod.function p) (xs i - 0.0001) (f2 i)
     /\ NewtonTurn.flat (f1 i) (f2 i) = false) ->
(forall i, (i < k)%nat ->
     NewtonTurn.close (NewtonMethod.tolerance p)
                      (xs i) (fx i) (f1 i) (f2 i) = false
     /\ NewtonTurn.far (xs i) (fx i) (f1 i) (f2 i) = false) ->
NewtonTurn.close (NewtonMethod.tolerance p) (xs k) (fx k) (f1 k) (f2 k)
= true ->
falsy (Some (RNum (xs (S k)))) = false ->
exists s',
NewtonMethod.calculate p s = (Ret tt, s')
/\ result s' = Some (RNum (xs (S k)))
/\ length (iterations s') = S k)
/\ ((forall i, (i < Z.to_nat (NewtonMethod.maxIterations p))%nat ->
     evaluates (NewtonMethod.function p) (xs i) (fx i)
     /\ evaluates (NewtonMethod.function p) (xs i + 0.0001) (f1 i)
     /\ evaluates (NewtonMethod.function p) (xs i - 0.0001) (f2 i)
     /\ NewtonTurn.flat (f1 i) (f2 i) = false
     /\ NewtonTurn.close (NewtonMethod.tolerance p)
                         (xs i) (fx i) (f1 i) (f2 i) = false
     /\ NewtonTurn.far (xs i) (fx i) (f1 i) (f2 i) = false) ->
exists s',
NewtonMethod.calculate p s = (Ret tt, s')
/\ result s' = Some (RNum (xs (Z.to_nat (NewtonMethod.maxIterations p))))
/\ length (iterations s') = Z.to_nat (NewtonMethod.maxIterations p)
/\ In {| lvl := warning;
     msg := [Str "Máximo de iteraciones alcanzado sin convergencia"] |}
  (logs s')).
Proof.
intros Hv Hx0 Hxs.
assert (Hstart :
exists s1,
 NewtonMethod.calculate p s
 = bind (NewtonMethod.loop (NewtonMethod.function p)
           (NewtonMethod.tolerance p)
           (Z.to_nat (NewtonMethod.maxIterations p)) 0%Z (xs 0%nat))
        (fun x' =>
           bind get_result (fun r =>
           when (falsy r)
             (bind (log warning
                      [Str "Máximo de iteraciones alcanzado sin convergencia"])
                   (fun _ => set_result (Some (RNum x'))))))
        s1
 /\ result s1 = None /\ iterations s1 = []).
{ unfold NewtonMethod.calculate. run_step.
destruct (run_logonly (NewtonMethod.validateParams p) s
    (logged info [Str "Iniciando cálculo por método de Newton-Raphson"] s)
    (Ret true) (logonly_newton_validate p) eq_refl Hv)
as (s1 & Hs1 & E1).
rewrite (bind_ret _ _ _ _ _ E1). do 4 run_step. rewrite Hx0.
eexists. split; [reflexivity|]. split; reflexivity. }
destruct Hstart as (s1 & Ecalc & Hr1 & Hi1). rewrite Ecalc. clear Ecalc.
split.
- intros k Hk Hev Hgo Hstop Hnz.
destruct (newton_loop_converges (NewtonMethod.function p)
    (NewtonMethod.tolerance p) k xs fx f1 f2
    (Z.to_nat (NewtonMethod.maxIterations p) - S k) 0%Z s1
    Hxs Hev Hgo Hstop) as (s2 & E & Hr & Hi).
replace (S k + (Z.to_nat (NewtonMethod.maxIterations p) - S k))%nat
with (Z.to_nat (NewtonMethod.maxIterations p)) in E by lia.
rewrite (bind_ret _ _ _ _ _ E). rewrite run_get_result, Hr, Hnz.
exists s2. split; [reflexivity|]. split; [exact Hr|].
rewrite Hi, Hi1. reflexivity.
- intros Hgo.
destruct (newton_loop_exhausts (NewtonMethod.function p)
    (NewtonMethod.tolerance p)
    (Z.to_nat (NewtonMethod.maxIterations p)) xs fx f1 f2 0%Z s1
    Hxs Hgo) as (s2 & E & Hr & Hi).
rewrite (bind_ret _ _ _ _ _ E). rewrite run_get_result, Hr, Hr1.
simpl falsy. unfold when. run_step.
eexists. split; [reflexivity|]. split; [reflexivity|]. split.
+ simpl. rewrite Hi, Hi1. reflexivity.
+ simpl. apply in_or_app. right. now left.
Qed.

End WithHost.

Lemma fixed_point_follows_the_iteration_witness :
exists s',
FixedPointMethod.calculate (H := SeriesHost.series_host)
{| FixedPointMethod.function := "x/2";
   FixedPointMethod.x0 := 1;
   FixedPointMethod.tolerance := 0.3;
   FixedPointMethod.maxIterations := 50 |}
(FixedPointMethod.construct []) = (Ret tt, s')
/\ result s' = Some (RNum 0.25)
/\ length (iterations s') = 2%nat.
Proof.
apply (proj1 (fixed_point_follows_the_iteration (H := SeriesHost.series_host)
            {| FixedPointMethod.function := "x/2";
               FixedPointMethod.x0 := 1;
               FixedPointMethod.tolerance := 0.3;
               FixedPointMethod.maxIterations := 50 |}
            (FixedPointMethod.construct [])
            (fun i => match i with
                      | O => 1
                      | S O => 0.5
                      | _ => 0.25
                      end)
            eq_refl eq_refl) 1%nat).
- simpl. lia.
- intros [|[|i]] Hi; [vm_compute; reflexivity | vm_compute; reflexivity | lia].
- intros [|i] Hi; [split; vm_compute; reflexivity | lia].
- vm_compute. reflexivity.
- vm_compute. reflexivity.
Defined.

Lemma newton_follows_the_iteration_witness :
exists s',
NewtonMethod.calculate (H := SeriesHost.series_host)
{| NewtonMethod.function := "x*x-4";
   NewtonMethod.x0 := 2.5;
   NewtonMethod.tolerance := 0.01;
   NewtonMethod.maxIterations := 50 |}
(NewtonMethod.construct []) = (Ret tt, s')
/\ result s'
 = Some (RNum (nat_rect (fun _ => num) 2.5
                 (fun _ x =>
                    NewtonTurn.next x (x * x - 4)
                      ((x + 0.0001) * (x + 0.0001) - 4)
                      ((x - 0.0001) * (x - 0.0001) - 4)) 3))
/\ length (iterations s') = 3%nat.
Proof.
apply (proj1 (newton_follows_the_iteration (H := SeriesHost.series_host)
            {| NewtonMethod.function := "x*x-4";
               NewtonMethod.x0 := 2.5;
               NewtonMethod.tolerance := 0.01;
               NewtonMethod.maxIterations := 50 |}
            (NewtonMethod.construct [])
            (nat_rect (fun _ => num) 2.5
               (fun _ x =>
                  NewtonTurn.next x (x * x - 4)
                    ((x + 0.0001) * (x + 0.0001) - 4)
                    ((x - 0.0001) * (x - 0.0001) - 4)))
            (fun i =>
               let x := nat_rect (fun _ => num) 2.5
                          (fun _ x =>
                             NewtonTurn.next x (x * x - 4)
                               ((x + 0.0001) * (x + 0.0001) - 4)
                               ((x - 0.0001) * (x - 0.0001) - 4)) i in
               x * x - 4)
            (fun i =>
               let x := nat_rect (fun _ => num) 2.5
                          (fun _ x =>
                             NewtonTurn.next x (x * x - 4)
                               ((x + 0.0001) * (x + 0.0001) - 4)
                               ((x - 0.0001) * (x - 0.0001) - 4)) i in
               (x + 0.0001) * (x + 0.0001) - 4)
            (fun i =>
               let x := nat_rect (fun _ => num) 2.5
                          (fun _ x =>
                             NewtonTurn.next x (x * x - 4)
                               ((x + 0.0001) * (x + 0.0001) - 4)
                               ((x - 0.0001) * (x - 0.0001) - 4)) i in
               (x - 0.0001) * (x - 0.0001) - 4)
            eq_refl eq_refl (fun i => eq_refl)) 2%nat).
- simpl. lia.
- intros [|[|[|i]]] Hi; [repeat split; vm_compute; reflexivity ..| lia].
- intros [|[|i]] Hi; [split; vm_compute; reflexivity ..| lia].
- vm_compute. reflexivity.
- vm_compute. reflexivity.
Defined.

End SequenceFacts.

(** ** The iterations of the linear solvers *)

Module SweepSequenceFacts.
Import Host NumericalMethod Run RunFacts LinearSystem LinearTurn ResultFacts.
Local Open Scope float_scope.

(** The Jacobi sweep overwrites every entry of [xNew]: what it returns
does not depend on what [xNew] held. *)
Lemma jacobi_sweep_fresh (m : list (list num)) (v x xNew : list num) (n : nat) :
length xNew = n ->
GaussJacobiMethod.sweep m v n x xNew = jacobi_step m v n x.
Proof.
intros Hlen. unfold jacobi_step, GaussJacobiMethod.sweep.
destruct (SweepFacts.jacobi_prefix m v x xNew n n) as (Hl1 & Hlow1 & _); [lia|].
destruct (SweepFacts.jacobi_prefix m v x (replicate n 0) n n)
as (Hl2 & Hlow2 & _); [now rewrite length_replicate|].
apply list_eq. intros i. destruct (Nat.lt_ge_cases i n) as [Hi|Hi].
- now rewrite Hlow1, Hlow2.
- rewrite !lookup_ge_None_2; [reflexivity | |].
+ rewrite Hl2, length_replicate. exact Hi.
+ rewrite Hl1, Hlen. exact Hi.
Qed.

Section WithHost.
Context `{MathHost}.

Lemma seidel_turn_converges (m : list (list num)) (v : list num) (n : nat)
(tol : num) (fuel : nat) (iter : Z) (x : list num) (s : Instance) :
seidel_close n tol (GaussSeidelMethod.sweep m v n x) x = true ->
exists s',
GaussSeidelMethod.loop m v n tol (S fuel) iter x s
= (Ret (GaussSeidelMethod.sweep m v n x), s')
/\ result s' = Some (RVec (GaussSeidelMethod.sweep m v n x))
/\ length (iterations s') = S (length (iterations s)).
Proof.
unfold seidel_close. intros Hc. cbn [GaussSeidelMethod.loop]. cbv zeta.
do 5 run_step. rewrite Hc. do 3 run_step.
eexists. split; [reflexivity|]. split; [reflexivity|].
simpl. rewrite length_app. simpl. lia.
Qed.

Lemma seidel_turn_continues (m : list (list num)) (v : list num) (n : nat)
(tol : num) (fuel : nat) (iter : Z) (x : list num) (s : Instance) :
seidel_close n tol (GaussSeidelMethod.sweep m v n x) x = false ->
exists s1,
GaussSeidelMethod.loop m v n tol (S fuel) iter x s
= GaussSeidelMethod.loop m v n tol fuel (iter + 1)%Z
(GaussSeidelMethod.sweep m v n x) s1
/\ result s1 = result s
/\ length (iterations s1) = S (length (iterations s)).
Proof.
unfold seidel_close. intros Hc. cbn [GaussSeidelMethod.loop]. cbv zeta.
do 5 run_step. rewrite Hc.
eexists. split; [reflexivity|]. split; [reflexivity|].
simpl. rewrite length_app. simpl. lia.
Qed.

Lemma jacobi_turn_converges (m : list (list num)) (v : list num) (n : nat)
(tol : num) (fuel : nat) (iter : Z) (x xNew : list num) (s : Instance) :
length xNew = n ->
jacobi_close n tol (jacobi_step m v n x) x = true ->
exists s',
GaussJacobiMethod.loop m v n tol (S fuel) iter x xNew s
= (Ret (jacobi_step m v n x), s')
/\ result s' = Some (RVec (jacobi_step m v n x))
/\ length (iterations s') = S (length (iterations s)).
Proof.
unfold jacobi_close. intros Hlen Hc. cbn [GaussJacobiMethod.loop]. cbv zeta.
rewrite (jacobi_sweep_fresh m v x xNew n Hlen).
do 4 run_step. rewrite Hc. do 3 run_step.
eexists. split; [reflexivity|]. split; [reflexivity|].
simpl. rewrite length_app. simpl. lia.
Qed.

Lemma jacobi_turn_continues (m : list (list num)) (v : list num) (n : nat)
(tol : num) (fuel : nat) (iter : Z) (x xNew : list num) (s : Instance) :
length xNew = n ->
jacobi_close n tol (jacobi_step m v n x) x = false ->
exists s1,
GaussJacobiMethod.loop m v n tol (S fuel) iter x xNew s
= GaussJacobiMethod.loop m v n tol fuel (iter + 1)%Z
(jacobi_step m v n x) (jacobi_step m v n x) s1
/\ result s1 = result s
/\ length (iterations s1) = S (length (iterations s)).
Proof.
unfold jacobi_close. intros Hlen Hc. cbn [GaussJacobiMethod.loop]. cbv zeta.
rewrite (jacobi_sweep_fresh m v x xNew n Hlen).
do 4 run_step. rewrite Hc.
eexists. split; [reflexivity|]. split; [reflexivity|].
simpl. rewrite length_app. simpl. lia.
Qed.

Lemma jacobi_step_length (m : list (list num)) (v x : list num) (n : nat) :
length (jacobi_step m v n x) = n.
Proof.
unfold jacobi_step. now rewrite jacobi_sweep_length, length_replicate.
Qed.

Lemma seidel_loop_converges (m : list (list num)) (v : list num) (n : nat)
(tol : num) (k : nat) :
forall (x : list num) (fuel : nat) (iter : Z) (s : Instance),
(forall i, (i < k)%nat ->
   seidel_close n tol
     (Nat.iter (S i) (GaussSeidelMethod.sweep m v n) x)
     (Nat.iter i (GaussSeidelMethod.sweep m v n) x) = false) ->
seidel_close n tol (Nat.iter (S k) (GaussSeidelMethod.sweep m v n) x)
     (Nat.iter k (GaussSeidelMethod.sweep m v n) x) = true ->
exists s',
GaussSeidelMethod.loop m v n tol (S k + fuel) iter x s
= (Ret (Nat.iter (S k) (GaussSeidelMethod.sweep m v n) x), s')
/\ result s' = Some (RVec (Nat.iter (S k) (GaussSeidelMethod.sweep m v n) x))
/\ length (iterations s') = (length (iterations s) + S k)%nat.
Proof.
induction k as [|k IH]; intros x fuel iter s Hgo Hstop.
- destruct (seidel_turn_converges m v n tol (0 + fuel) iter x s Hstop)
as (s' & E & Hr & Hi).
exists s'. split; [exact E|]. split; [exact Hr | lia].
- destruct (seidel_turn_continues m v n tol (S k + fuel) iter x s
    (Hgo 0%nat ltac:(lia))) as (s1 & E & Hr & Hi).
destruct (IH (GaussSeidelMethod.sweep m v n x) fuel (iter + 1)%Z s1)
as (s' & E' & Hr' & Hi').
+ intros i Hi0. rewrite <- !Nat.iter_succ_r. apply Hgo. lia.
+ rewrite <- !Nat.iter_succ_r. exact Hstop.
+ exists s'. rewrite <- !Nat.iter_succ_r in E', Hr'.
split; [|split; [exact Hr' | lia]].
change (S (S k) + fuel)%nat with (S (S k + fuel)). now rewrite E.
Qed.

Lemma seidel_loop_exhausts (m : list (list num)) (v : list num) (n : nat)
(tol : num) (k : nat) :
forall (x : list num) (iter : Z) (s : Instance),
(forall i, (i < k)%nat ->
   seidel_close n tol
     (Nat.iter (S i) (GaussSeidelMethod.sweep m v n) x)
     (Nat.iter i (GaussSeidelMethod.sweep m v n) x) = false) ->
exists s',
GaussSeidelMethod.loop m v n tol k iter x s
= (Ret (Nat.iter k (GaussSeidelMethod.sweep m v n) x), s')
/\ result s' = result s
/\ length (iterations s') = (length (iterations s) + k)%nat.
Proof.
induction k as [|k IH]; intros x iter s Hgo.
- exists s. split; [reflexivity|]. split; [reflexivity | lia].
- destruct (seidel_turn_continues m v n tol k iter x s (Hgo 0%nat ltac:(lia)))
as (s1 & E & Hr & Hi).
destruct (IH (GaussSeidelMethod.sweep m v n x) (iter + 1)%Z s1)
as (s' & E' & Hr' & Hi').
+ intros i Hi0. rewrite <- !Nat.iter_succ_r. apply Hgo. lia.
+ exists s'. rewrite <- !Nat.iter_succ_r in E'. rewrite E.
split; [exact E'|]. split; [congruence | lia].
Qed.

Lemma jacobi_loop_converges (m : list (list num)) (v : list num) (n : nat)
(tol : num) (k : nat) :
forall (x xNew : list num) (fuel : nat) (iter : Z) (s : Instance),
length xNew = n ->
(forall i, (i < k)%nat ->
   jacobi_close n tol (Nat.iter (S i) (jacobi_step m v n) x)
                (Nat.iter i (jacobi_step m v n) x) = false) ->
jacobi_close n tol (Nat.iter (S k) (jacobi_step m v n) x)
     (Nat.iter k (jacobi_step m v n) x) = true ->
exists s',
GaussJacobiMethod.loop m v n tol (S k + fuel) iter x xNew s
= (Ret (Nat.iter (S k) (jacobi_step m v n) x), s')
/\ result s' = Some (RVec (Nat.iter (S k) (jacobi_step m v n) x))
/\ length (iterations s') = (length (iterations s) + S k)%nat.
Proof.
induction k as [|k IH]; intros x xNew fuel iter s Hlen Hgo Hstop.
- destruct (jacobi_turn_converges m v n tol (0 + fuel) iter x xNew s Hlen Hstop)
as (s' & E & Hr & Hi).
exists s'. split; [exact E|]. split; [exact Hr | lia].
- destruct (jacobi_turn_continues m v n tol (S k + fuel) iter x xNew s Hlen
    (Hgo 0%nat ltac:(lia))) as (s1 & E & Hr & Hi).
destruct (IH (jacobi_step m v n x) (jacobi_step m v n x) fuel (iter + 1)%Z s1)
as (s' & E' & Hr' & Hi').
+ apply jacobi_step_length.
+ intros i Hi0. rewrite <- !Nat.iter_succ_r. apply Hgo. lia.
+ rewrite <- !Nat.iter_succ_r. exact Hstop.
+ exists s'. rewrite <- !Nat.iter_succ_r in E', Hr'.
split; [|split; [exact Hr' | lia]].
change (S (S k) + fuel)%nat with (S (S k + fuel)). now rewrite E.
Qed.

Lemma jacobi_loop_exhausts (m : list (list num)) (v : list num) (n : nat)
(tol : num) (k : nat) :
forall (x xNew : list num) (iter : Z) (s : Instance),
length xNew = n ->
(forall i, (i < k)%nat ->
   jacobi_close n tol (Nat.iter (S i) (jacobi_step m v n) x)
                (Nat.iter i (jacobi_step m v n) x) = false) ->
exists s',
GaussJacobiMethod.loop m v n tol k iter x xNew s
= (Ret (match k with
  | O => xNew
  | S _ => Nat.iter k (jacobi_step m v n) x
  end), s')
/\ result s' = result s
/\ length (iterations s') = (length (iterations s) + k)%nat.
Proof.
induction k as [|k IH]; intros x xNew iter s Hlen Hgo.
- exists s. split; [reflexivity|]. split; [reflexivity | lia].
- destruct (jacobi_turn_continues m v n tol k iter x xNew s Hlen
    (Hgo 0%nat ltac:(lia))) as (s1 & E & Hr & Hi).
destruct (IH (jacobi_step m v n x) (jacobi_step m v n x) (iter + 1)%Z s1)
as (s' & E' & Hr' & Hi').
+ apply jacobi_step_length.
+ intros i Hi0. rewrite <- !Nat.iter_succ_r. apply Hgo. lia.
+ exists s'. rewrite E. split; [|split; [congruence | lia]].
rewrite E'. destruct k as [|k]; [reflexivity|].
now rewrite <- !Nat.iter_succ_r.
Qed.

(** The linear solvers follow their sweeps.  For a system that passes
validation, let the iterates be the repeated sweeps of the initial guess.
If the sweeps before sweep [k + 1] do not meet the tolerance and sweep
[k + 1] is within the budget and meets it, the run returns the vector of
sweep [k + 1] with [k + 1] records; if no sweep of the budget meets it, the
run returns the last one and warns that the iterations were used up.
Gauss-Seidel tests the largest change of an entry or the relative change of
the vector, Gauss-Jacobi the largest change only. *)
Theorem linear_solvers_follow_their_sweeps (p : params) (s : Instance) :
fst (validateParams p s) = Ret true ->
let n := length (matrix p) in
let budget := Z.to_nat (maxIterations p) in
let seidel := fun i =>
Nat.iter i (GaussSeidelMethod.sweep (matrix p) (vector p) n) (initialGuess p) in
let jacobi := fun i =>
Nat.iter i (jacobi_step (matrix p) (vector p) n) (initialGuess p) in
(forall k,
(S k <= budget)%nat ->
(forall i, (i < k)%nat ->
     seidel_close n (tolerance p) (seidel (S i)) (seidel i) = false) ->
seidel_close n (tolerance p) (seidel (S k)) (seidel k) = true ->
exists s',
GaussSeidelMethod.calculate p s = (Ret tt, s')
/\ result s' = Some (RVec (seidel (S k)))
/\ length (iterations s') = S k)
/\ ((forall i, (i < budget)%nat ->
     seidel_close n (tolerance p) (seidel (S i)) (seidel i) = false) ->
exists s',
GaussSeidelMethod.calculate p s = (Ret tt, s')
/\ result s' = Some (RVec (seidel budget))
/\ length (iterations s') = budget
/\ In {| lvl := warning;
     msg := [Str "Máximo de iteraciones alcanzado sin convergencia"] |}
  (logs s'))
/\ (forall k,
(S k <= budget)%nat ->
(forall i, (i < k)%nat ->
        jacobi_close n (tolerance p) (jacobi (S i)) (jacobi i) = false) ->
jacobi_close n (tolerance p) (jacobi (S k)) (jacobi k) = true ->
exists s',
GaussJacobiMethod.calculate p s = (Ret tt, s')
/\ result s' = Some (RVec (jacobi (S k)))
/\ length (iterations s') = S k)
/\ ((forall i, (i < budget)%nat ->
     jacobi_close n (tolerance p) (jacobi (S i)) (jacobi i) = false) ->
exists s',
GaussJacobiMethod.calculate p s = (Ret tt, s')
/\ result s' = Some (RVec (jacobi budget))
/\ length (iterations s') = budget
/\ In {| lvl := warning;
     msg := [Str "Máximo de iteraciones alcanzado sin convergencia"] |}
  (logs s')).
Proof.
intros Hv n budget seidel jacobi.
assert (Hmax : (1 <= budget)%nat).
{ pose proof (LinearFacts.validate_run p s) as Hrun. rewrite Hv in Hrun.
subst budget. destruct Hrun as (_ & _ & _ & Hpos & _). lia. }
assert (HS :
exists s1,
 GaussSeidelMethod.calculate p s
 = bind (GaussSeidelMethod.loop (matrix p) (vector p) n (tolerance p)
           budget 0%Z (initialGuess p))
        (fun x' =>
           bind get_result (fun r =>
           when (falsy r)
             (bind (log warning
                      [Str "Máximo de iteraciones alcanzado sin convergencia"])
                   (fun _ =>
              bind (set_result (Some (RVec x'))) (fun _ =>
              log warning
                ([Str "Mejor aproximación: ["]
                   ++ joined (fun v => Fixed v 6) x' ++ [Str "]"]))))))
        s1
 /\ result s1 = None /\ iterations s1 = []).
{ unfold GaussSeidelMethod.calculate. run_step.
destruct (LinearFacts.validate_transfer p s
    (logged info [Str "Iniciando cálculo por método de Gauss-Seidel"] s)
    eq_refl Hv) as (s1 & E1 & _).
rewrite (bind_ret _ _ _ _ _ E1). cbv zeta. do 4 run_step.
eexists. split; [reflexivity|]. split; reflexivity. }
assert (HJ :
exists s1,
 GaussJacobiMethod.calculate p s
 = bind (GaussJacobiMethod.loop (matrix p) (vector p) n (tolerance p)
           budget 0%Z (initialGuess p) (replicate n 0))
        (fun xNew' =>
           bind get_result (fun r =>
           when (falsy r)
             (bind (log warning
                      [Str "Máximo de iteraciones alcanzado sin convergencia"])
                   (fun _ => set_result (Some (RVec xNew'))))))
        s1
 /\ result s1 = None /\ iterations s1 = []).
{ unfold GaussJacobiMethod.calculate. run_step.
destruct (LinearFacts.validate_transfer p s
    (logged info [Str "Iniciando cálculo por método de Gauss-Jacobi"] s)
    eq_refl Hv) as (s1 & E1 & _).
rewrite (bind_ret _ _ _ _ _ E1). cbv zeta. do 4 run_step.
eexists. split; [reflexivity|]. split; reflexivity. }
destruct HS as (sS & ES & HrS & HiS). destruct HJ as (sJ & EJ & HrJ & HiJ).
rewrite ES, EJ. clear ES EJ.
split; [|split; [|split]].
- intros k Hk Hgo Hstop.
destruct (seidel_loop_converges (matrix p) (vector p) n (tolerance p) k
    (initialGuess p) (budget - S k) 0%Z sS Hgo Hstop)
as (s2 & E & Hr & Hi).
replace (S k + (budget - S k))%nat with budget in E by lia.
rewrite (bind_ret _ _ _ _ _ E). rewrite run_get_result, Hr.
exists s2. split; [reflexivity|]. split; [exact Hr|].
rewrite Hi, HiS. reflexivity.
- intros Hgo.
destruct (seidel_loop_exhausts (matrix p) (vector p) n (tolerance p) budget
    (initialGuess p) 0%Z sS Hgo) as (s2 & E & Hr & Hi).
rewrite (bind_ret _ _ _ _ _ E). rewrite run_get_result, Hr, HrS.
simpl falsy. unfold when. do 2 run_step.
eexists. split; [reflexivity|]. split; [reflexivity|]. split.
+ simpl. rewrite Hi, HiS. reflexivity.
+ simpl. apply in_or_app. left. apply in_or_app. right. now left.
- intros k Hk Hgo Hstop.
destruct (jacobi_loop_converges (matrix p) (vector p) n (tolerance p) k
    (initialGuess p) (replicate n 0) (budget - S k) 0%Z sJ
    (length_replicate _ _) Hgo Hstop)
as (s2 & E & Hr & Hi).
replace (S k + (budget - S k))%nat with budget in E by lia.
rewrite (bind_ret _ _ _ _ _ E). rewrite run_get_result, Hr.
exists s2. split; [reflexivity|]. split; [exact Hr|].
rewrite Hi, HiJ. reflexivity.
- intros Hgo.
destruct (jacobi_loop_exhausts (matrix p) (vector p) n (tolerance p) budget
    (initialGuess p) (replicate n 0) 0%Z sJ
    (length_replicate _ _) Hgo) as (s2 & E & Hr & Hi).
rewrite (bind_ret _ _ _ _ _ E). rewrite run_get_result, Hr, HrJ.
simpl falsy. unfold when. run_step.
destruct budget as [|b]; [lia|].
eexists. split; [reflexivity|]. split; [reflexivity|]. split.
+ simpl. rewrite Hi, HiJ. reflexivity.
+ simpl. apply in_or_app. right. now left.
Qed.

End WithHost.

Lemma linear_solvers_follow_their_sweeps_witness :
exists s',
GaussSeidelMethod.calculate (H := SeriesHost.series_host)
{| matrix := Examples.dominant_matrix;
   vector := Examples.dominant_vector;
   initialGuess := [0; 0; 0];
   tolerance := 0.5;
   maxIterations := 10 |}
(GaussSeidelMethod.construct []) = (Ret tt, s')
/\ result s'
 = Some (RVec (Nat.iter 2
                 (GaussSeidelMethod.sweep Examples.dominant_matrix
                    Examples.dominant_vector 3) [0; 0; 0]))
/\ length (iterations s') = 2%nat.
Proof.
apply (proj1 (linear_solvers_follow_their_sweeps
            (H := SeriesHost.series_host)
            {| matrix := Examples.dominant_matrix;
               vector := Examples.dominant_vector;
               initialGuess := [0; 0; 0];
               tolerance := 0.5;
               maxIterations := 10 |}
            (GaussSeidelMethod.construct []) eq_refl) 1%nat).
- simpl. lia.
- intros [|i] Hi; [vm_compute; reflexivity | lia].
- vm_compute. reflexivity.
Defined.

End SweepSequenceFacts.

(** ** Lagrange: the points that pass validation *)

Module PointFacts.
Import Host NumericalMethod Run RunFacts LagrangePolynomial Points.
Local Open Scope float_scope.

(** Equality of numbers does not depend on the order of its arguments. *)
Lemma SFcompare_Eq_sym (x y : spec_float) :
SFcompare x y = Some Eq -> SFcompare y x = Some Eq.
Proof.
destruct x as [sx|sx| |sx mx ex], y as [sy|sy| |sy my ey]; simpl;
try easy; try (now destruct sx, sy); try (now destruct sx); try (now destruct sy).
destruct sx, sy; try easy.
- destruct (Z.compare ex ey) eqn:Ee; try easy.
apply Z.compare_eq in Ee. subst ey. rewrite Z.compare_refl.
intros Hm.
assert (Em : Pos.compare mx my = Eq)
by (unfold Pos.compare; destruct (Pos.compare_cont Eq mx my); [reflexivity|discriminate..]).
apply Pos.compare_eq in Em. subst my. exact Hm.
- destruct (Z.compare ex ey) eqn:Ee; try easy.
apply Z.compare_eq in Ee. subst ey. rewrite Z.compare_refl.
intros Hm.
assert (Em : Pos.compare mx my = Eq)
by (unfold Pos.compare; destruct (Pos.compare_cont Eq mx my); [reflexivity|discriminate..]).
apply Pos.compare_eq in Em. subst my. exact Hm.
Qed.

Lemma eqb_sym (x y : num) : (x =? y) = (y =? x).
Proof.
rewrite !FloatAxioms.eqb_spec. unfold SFeqb.
destruct (SFcompare (Prim2SF x) (Prim2SF y)) as [[| |]|] eqn:E1,
     (SFcompare (Prim2SF y) (Prim2SF x)) as [[| |]|] eqn:E2;
try reflexivity;
try (apply SFcompare_Eq_sym in E1; congruence);
try (apply SFcompare_Eq_sym in E2; congruence).
Qed.

Lemma same_value_zero_sym (x y : num) : same_value_zero x y = same_value_zero y x.
Proof. unfold same_value_zero. now rewrite eqb_sym, andb_comm. Qed.

Lemma fill_cons (x : num) (l seen : list num) :
fill (x :: l) seen
= fill l (if existsb (same_value_zero x) seen then seen else seen ++ [x]).
Proof. reflexivity. Qed.

Lemma fill_length (l seen : list num) :
(length (fill l seen) <= length seen + length l)%nat.
Proof.
revert seen. induction l as [|x l IH]; intros seen; [simpl; lia|].
rewrite fill_cons. simpl length.
destruct (existsb (same_value_zero x) seen).
- specialize (IH seen). lia.
- specialize (IH (seen ++ [x])). rewrite length_app in IH. simpl in IH. lia.
Qed.

(** A value already in the set, or met twice, makes the set smaller than
the array. *)
Lemma fill_hit (l seen : list num) (j : nat) (y : num) :
l !! j = Some y -> existsb (same_value_zero y) seen = true ->
(length (fill l seen) < length seen + length l)%nat.
Proof.
revert seen j. induction l as [|x l IH]; intros seen j Hj Hy; [easy|].
rewrite fill_cons. simpl length. destruct j as [|j]; simpl in Hj.
- inversion Hj; subst x. rewrite Hy.
pose proof (fill_length l seen). lia.
- destruct (existsb (same_value_zero x) seen).
+ pose proof (fill_length l seen). lia.
+ assert (Hy' : existsb (same_value_zero y) (seen ++ [x]) = true)
  by (rewrite existsb_app, Hy; reflexivity).
specialize (IH (seen ++ [x]) j Hj Hy'). rewrite length_app in IH.
simpl in IH. lia.
Qed.

Lemma fill_repeated (l seen : list num) (i j : nat) (a b : num) :
(i < j)%nat -> l !! i = Some a -> l !! j = Some b ->
same_value_zero b a = true ->
(length (fill l seen) < length seen + length l)%nat.
Proof.
revert seen i j. induction l as [|x l IH]; intros seen i j Hij Hi Hj Hab; [easy|].
rewrite fill_cons. simpl length. destruct j as [|j]; [lia|]. simpl in Hj.
destruct (existsb (same_value_zero x) seen) eqn:Ex.
- pose proof (fill_length l seen). lia.
- destruct i as [|i]; simpl in Hi.
+ inversion Hi; subst x.
assert (Hb : existsb (same_value_zero b) (seen ++ [a]) = true).
{ rewrite existsb_app. simpl. rewrite Hab. now rewrite orb_true_r. }
pose proof (fill_hit l (seen ++ [a]) j b Hj Hb) as Hlt.
rewrite length_app in Hlt. simpl in Hlt. lia.
+ specialize (IH (seen ++ [x]) i j ltac:(lia) Hi Hj Hab).
rewrite length_app in IH. simpl in IH. lia.
Qed.

(** A set as large as the array: no value was in the set before, and no
value is met twice. *)
Lemma fill_full (l seen : list num) :
length (fill l seen) = (length seen + length l)%nat ->
(forall j y, l !! j = Some y -> existsb (same_value_zero y) seen = false)
/\ (forall i j a b, (i < j)%nat -> l !! i = Some a -> l !! j = Some b ->
                same_value_zero b a = false).
Proof.
intros Hfull. split.
- intros j y Hj. destruct (existsb (same_value_zero y) seen) eqn:Ey; [|reflexivity].
pose proof (fill_hit l seen j y Hj Ey). lia.
- intros i j a b Hij Hi Hj. destruct (same_value_zero b a) eqn:Eab; [|reflexivity].
pose proof (fill_repeated l seen i j a b Hij Hi Hj Eab). lia.
Qed.

Lemma lookup_at (l : list num) (i : nat) :
(i < length l)%nat -> l !! i = Some (at_ l i).
Proof.
intros Hi. destruct (lookup_lt_is_Some_2 l i Hi) as [x Hx].
unfold at_, LinearSystem.at_, num in *. now rewrite Hx.
Qed.

(** The points of a Lagrange interpolation are pairwise different.  When
the validation passes, the two arrays have the same length, at least two
entries, no NaN, and no two entries of [xPoints] are equal as numbers, so
no difference [x_i - x_j] of a basis polynomial is taken between equal
numbers.  Conversely, with arrays of one length of at least two, two
entries of [xPoints] that a [Set] holds to be the same, two equal numbers,
[0] and [-0], or two NaN, make the validation fail with the error about
repeated values. *)
Theorem lagrange_points_are_distinct (p : params) (s : Instance) :
(fst (validateParams p s) = Ret true ->
length (xPoints p) = length (yPoints p)
/\ (2 <= length (xPoints p))%nat
/\ (forall i j, (i < length (xPoints p))%nat -> (j < length (xPoints p))%nat ->
             i <> j ->
             (at_ (xPoints p) i =? at_ (xPoints p) j) = false)
/\ (forall i, (i < length (xPoints p))%nat ->
           isNaN (at_ (xPoints p) i) = false
           /\ isNaN (at_ (yPoints p) i) = false))
/\ (forall i j,
   length (xPoints p) = length (yPoints p) ->
   (2 <= length (xPoints p))%nat ->
   (i < j < length (xPoints p))%nat ->
   same_value_zero (at_ (xPoints p) j) (at_ (xPoints p) i) = true ->
   fst (validateParams p s) = Throw repeated).
Proof.
split.
- unfold validateParams. rewrite run_base_validate.
destruct (negb (length (xPoints p) =? length (yPoints p))%nat) eqn:E1;
[discriminate|].
destruct (length (xPoints p) <? 2)%nat eqn:E2; [discriminate|].
destruct (negb (length (Set_of (xPoints p)) =? length (xPoints p))%nat) eqn:E3;
[discriminate|].
rewrite LinearFacts.run_checks.
destruct (List.find _ _) as [k|] eqn:E4; [discriminate|].
intros _.
apply negb_false_iff, Nat.eqb_eq in E1. apply Nat.ltb_ge in E2.
apply negb_false_iff, Nat.eqb_eq in E3.
destruct (fill_full (xPoints p) [] E3) as [_ Hpairs].
split; [exact E1|]. split; [exact E2|]. split.
+ intros i j Hi Hj Hij.
assert (Hsvz : same_value_zero (at_ (xPoints p) i) (at_ (xPoints p) j) = false).
{ destruct (Nat.lt_gt_cases i j) as [Hc _]. destruct (Hc Hij) as [Hlt|Hgt].
  - rewrite same_value_zero_sym.
    exact (Hpairs i j _ _ Hlt (lookup_at _ _ Hi) (lookup_at _ _ Hj)).
  - exact (Hpairs j i _ _ Hgt (lookup_at _ _ Hj) (lookup_at _ _ Hi)). }
unfold same_value_zero in Hsvz. now apply orb_false_iff in Hsvz.
+ intros i Hi.
pose proof (find_none _ _ E4 i) as Hnone. cbv beta in Hnone.
apply orb_false_iff. apply Hnone. apply in_seq. lia.
- intros i j Hlen Hn Hij Hsame.
unfold validateParams. rewrite run_base_validate.
rewrite Hlen, Nat.eqb_refl. cbn [negb]. rewrite <- Hlen.
destruct (length (xPoints p) <? 2)%nat eqn:E2;
[apply Nat.ltb_lt in E2; lia|].
assert (Hi : (i < length (xPoints p))%nat) by lia.
pose proof (fill_repeated (xPoints p) [] i j _ _ (proj1 Hij)
            (lookup_at _ _ Hi) (lookup_at _ _ (proj2 Hij)) Hsame)
as Hlt.
simpl in Hlt. change (fill (xPoints p) []) with (Set_of (xPoints p)) in Hlt.
destruct (length (Set_of (xPoints p)) =? length (xPoints p))%nat eqn:E3;
[apply Nat.eqb_eq in E3; lia|].
reflexivity.
Qed.

Lemma lagrange_points_are_distinct_witness :
(at_ [0; 1; 2] 0 =? at_ [0; 1; 2] 2) = false
/\ fst (validateParams {| xPoints := [0; 1; -0]; yPoints := [1; 2; 3]; xEval := 0.5 |}
(construct []))
= Throw repeated.
Proof.
split.
- destruct (proj1 (lagrange_points_are_distinct
{| xPoints := [0; 1; 2]; yPoints := [1; 2; 3]; xEval := 0.5 |}
(construct [])) eq_refl) as (_ & _ & Hd & _).
apply (Hd 0%nat 2%nat); simpl; lia.
- apply (proj2 (lagrange_points_are_distinct
{| xPoints := [0; 1; -0]; yPoints := [1; 2; 3]; xEval := 0.5 |}
(construct [])) 0%nat 2%nat).
+ reflexivity.
+ simpl. lia.
+ simpl. lia.
+ vm_compute. reflexivity.
Defined.

(** *** The printed polynomial *)

Lemma fold_left_grows {A B} (f : list A -> B -> list A) (l : list B) :
(forall acc b, (length acc <= length (f acc b))%nat) ->
forall acc, (length acc <= length (fold_left f l acc))%nat.
Proof.
intros Hf. induction l as [|b l IH]; intros acc; simpl; [lia|].
specialize (IH (f acc b)). specialize (Hf acc b). lia.
Qed.

(** The polynomial is printed empty exactly when every term is left out.
[getPolynomialExpression] skips the terms whose [y_i] is below [1e-10] in
magnitude: for data that are all that small, the expression logged after
[P(x) =] is the empty text; as soon as one [y_i] is not, it is not empty. *)
Theorem polynomial_expression_is_empty (xs ys : list num) :
getPolynomialExpression xs ys = []
<-> forall i, (i < length xs)%nat -> (Math_abs (at_ ys i) <? 1e-10) = true.
Proof.
unfold getPolynomialExpression. cbv zeta.
set (term := fun i : nat =>
   fold_left
     (fun term j =>
        if (i =? j)%nat then term
        else term ++ [Str " * (x - "; NumStr (at_ xs j); Str ")";
                      Str " / "; Fixed (at_ xs i - at_ xs j) 4])
     (seq 0 (length xs))
     [Str (if (0 <? at_ ys i) && (0 <? i)%nat then " + " else " ");
      Fixed (at_ ys i) 4]).
assert (Hterm : forall i, (2 <= length (term i))%nat).
{ intros i. unfold term.
match goal with
| |- (_ <= length (fold_left ?f ?l ?a))%nat =>
  pose proof (fold_left_grows f l) as Hg
end.
eapply Nat.le_trans; [|apply Hg].
- simpl. lia.
- intros acc j. destruct (i =? j)%nat; [lia|]. rewrite length_app. lia. }
set (F := fun (polynomial : message) (i : nat) =>
        if Math_abs (at_ ys i) <? 1e-10 then polynomial
        else polynomial ++ term i).
change (trim_message (fold_left F (seq 0 (length xs)) []) = []
    <-> forall i, (i < length xs)%nat -> (Math_abs (at_ ys i) <? 1e-10) = true).
assert (Htrim : forall m, trim_message m = [] <-> m = []).
{ intros m. destruct m as [|[s0| | | |] rest]; simpl; split; easy. }
rewrite Htrim.
assert (Hfold : forall l acc,
       fold_left F l acc = []
       <-> acc = [] /\ forall i, In i l -> (Math_abs (at_ ys i) <? 1e-10) = true).
{ induction l as [|i l IH]; intros acc; simpl.
- split; [intros ->; split; [reflexivity | easy] | now intros [-> _]].
- rewrite IH. unfold F at 1.
destruct (Math_abs (at_ ys i) <? 1e-10) eqn:Et.
+ split.
  * intros [-> Hl]. split; [reflexivity|]. intros k [<-|Hk]; auto.
  * intros [-> Hl]. split; [reflexivity|]. intros k Hk. apply Hl. now right.
+ split.
  * intros [Hnil _]. apply (f_equal (@length frag)) in Hnil.
    rewrite length_app in Hnil. specialize (Hterm i). simpl in Hnil. lia.
  * intros [_ Hl]. specialize (Hl i (or_introl eq_refl)). congruence. }
rewrite Hfold. split.
- intros [_ Hl] i Hi. apply Hl. apply in_seq. lia.
- intros Hl. split; [reflexivity|]. intros i Hi. apply Hl.
apply in_seq in Hi. lia.
Qed.

End PointFacts.

(** ** Lagrange: the warnings of a run *)

Module WarningFacts.
Import Host NumericalMethod Run RunFacts LagrangePolynomial LagrangeWarnings.
Import LinearFacts.
Local Open Scope float_scope.

Lemma warnings_app (l1 l2 : list LogEvent) :
warnings (l1 ++ l2) = warnings l1 ++ warnings l2.
Proof. unfold warnings. apply filter_app. Qed.

Lemma quiet_refl (s : Instance) : quiet s s.
Proof. exists []. split; [now rewrite app_nil_r | reflexivity]. Qed.

Lemma quiet_trans (s1 s2 s3 : Instance) : quiet s1 s2 -> quiet s2 s3 -> quiet s1 s3.
Proof.
intros (l1 & E1 & W1) (l2 & E2 & W2). exists (l1 ++ l2). split.
- now rewrite E2, E1, app_assoc.
- now rewrite warnings_app, W1, W2.
Qed.

Lemma quiet_logged (lv : level) (m : message) (s : Instance) :
level_eqb lv warning = false -> quiet s (logged lv m s).
Proof.
intros Hlv. exists [{| lvl := lv; msg := m |}]. split; [reflexivity|].
destruct lv; try discriminate; reflexivity.
Qed.

Lemma quiet_same (s s' : Instance) : logs s' = logs s -> quiet s s'.
Proof. intros E. exists []. split; [now rewrite app_nil_r | reflexivity]. Qed.

(** The chain of steps from one instance to a later one. *)
Ltac quiet_chain :=
lazymatch goal with
| H : quiet ?a ?b |- quiet ?a ?b => exact H
| |- quiet ?a ?a => apply quiet_refl
| |- quiet ?a (logged ?lv ?m ?st) =>
apply (quiet_trans a st); [quiet_chain | apply quiet_logged; reflexivity]
| |- quiet ?a (with_result ?r ?st) =>
apply (quiet_trans a st); [quiet_chain | apply quiet_same; reflexivity]
| |- quiet ?a (with_iterations ?r ?st) =>
apply (quiet_trans a st); [quiet_chain | apply quiet_same; reflexivity]
| |- quiet ?a (pushed ?r ?st) =>
apply (quiet_trans a st); [quiet_chain | apply quiet_same; reflexivity]
end.

(** A loop of [info] entries. *)
Lemma info_loop {A} (l : list A) (f : A -> message) (s0 s : Instance) :
quiet s0 s ->
exists s', for_each l (fun x => log info (f x)) s = (Ret tt, s') /\ quiet s0 s'.
Proof.
revert s. induction l as [|x l IH]; intros s Hq; simpl.
- exists s. split; [reflexivity | exact Hq].
- run_step. apply IH. quiet_chain.
Qed.

(** The main loop returns the sum of the terms, and logs no warning. *)
Lemma terms_values (xs ys : list num) (xe : num) (l : list nat) (s0 : Instance) :
forall (acc : num) (s : Instance),
quiet s0 s ->
exists s',
fold_each l (term_step xs ys xe) acc s
= (Ret (fold_left (fun r i => r + at_ ys i * calculateBasisPolynomial xs i xe)
l acc), s')
/\ quiet s0 s'.
Proof.
induction l as [|i l IH]; intros acc s Hq; simpl.
- exists s. split; [reflexivity | exact Hq].
- unfold term_step at 1.
destruct (fold_left _ (seq 0 (length xs)) ([], 1, 1)) as [[le nu] de].
repeat run_step. apply IH. quiet_chain.
Qed.

(** The verification loop returns the largest error, logs no warning and
keeps the result. *)
Lemma verify_values (xs ys : list num) (l : list nat) (s0 : Instance) :
forall (acc : num) (s : Instance),
quiet s0 s ->
exists s',
fold_each l (verify_step xs ys) acc s
= (Ret (fold_left
(fun maxError i =>
Math_max maxError (Math_abs (interpolate xs ys (at_ xs i) - at_ ys i)))
l acc), s')
/\ quiet s0 s' /\ result s' = result s.
Proof.
induction l as [|i l IH]; intros acc s Hq; simpl.
- exists s. split; [reflexivity|]. split; [exact Hq | reflexivity].
- unfold verify_step at 1. repeat run_step.
match goal with |- context [fold_each l _ ?a ?st] =>
destruct (IH a st) as (s' & E & Hq' & Hr); [quiet_chain|] end.
exists s'. split; [exact E|]. split; [exact Hq' | exact Hr].
Qed.

(** A validation that passes on one instance passes on every instance, and
logs no warning. *)
Lemma lagrange_validate_quiet (p : params) (s s0 s1 : Instance) :
fst (validateParams p s) = Ret true ->
quiet s0 s1 ->
exists s2, validateParams p s1 = (Ret true, s2) /\ quiet s0 s2.
Proof.
unfold validateParams. rewrite !run_base_validate.
destruct (negb (length (xPoints p) =? length (yPoints p))%nat); [discriminate|].
destruct (length (xPoints p) <? 2)%nat; [discriminate|].
destruct (negb (length (Set_of (xPoints p)) =? length (xPoints p))%nat);
[discriminate|].
rewrite !run_checks.
destruct (List.find _ _) as [k|]; [discriminate|].
destruct (isNaN (xEval p)); [discriminate|].
intros _ Hq. eexists. split; [reflexivity|]. quiet_chain.
Qed.

(** A Lagrange run warns exactly as its two tests ask.  A run that passes
validation returns, with the interpolated value as result, and the
warnings among the log entries it adds are: the warning about the largest
verification error when that error exceeds [1e-10], then the two warnings
about extrapolation when [xEval] lies outside [[min x_i, max x_i]], and no
other. *)
Theorem lagrange_warns_as_tested (p : params) (s : Instance) :
fst (validateParams p s) = Ret true ->
exists s' l,
calculate p s = (Ret tt, s')
/\ result s' = Some (RNum (interpolate (xPoints p) (yPoints p) (xEval p)))
/\ logs s' = logs s ++ l
/\ warnings l = expected_warnings p.
Proof.
intros Hv. unfold calculate. run_step.
match goal with |- context [bind (validateParams p) _ ?st] =>
destruct (lagrange_validate_quiet p s s st Hv) as (s1 & E1 & Hq1);
[quiet_chain|] end.
rewrite (bind_ret _ _ _ _ _ E1). do 2 run_step.
match goal with |- context [bind (for_each ?l (fun i => log info (@?f i))) _ ?st] =>
destruct (info_loop l f s st) as (s2 & E2 & Hq2); [quiet_chain|] end.
rewrite (bind_ret _ _ _ _ _ E2). do 2 run_step.
match goal with |- context [bind (fold_each ?l (term_step ?xs ?ys ?xe) ?a) _ ?st] =>
destruct (terms_values xs ys xe l s a st) as (s3 & E3 & Hq3); [quiet_chain|] end.
rewrite (bind_ret _ _ _ _ _ E3). do 3 run_step.
match goal with |- context [bind (fold_each ?l (verify_step ?xs ?ys) ?a) _ ?st] =>
destruct (verify_values xs ys l s a st) as (s4 & E4 & Hq4 & Hr4); [quiet_chain|] end.
rewrite (bind_ret _ _ _ _ _ E4).
fold (verification_error (xPoints p) (yPoints p)).
destruct Hq4 as (l4 & El4 & Wl4).
unfold expected_warnings, when.
destruct (1e-10 <? verification_error (xPoints p) (yPoints p));
destruct (extrapolates p); repeat run_step;
(eexists; eexists; split; [reflexivity|]; split; [simpl; rewrite Hr4; reflexivity|];
split; [simpl; rewrite El4, <- !app_assoc; reflexivity|];
rewrite warnings_app, Wl4; reflexivity).
Qed.

Lemma lagrange_warns_as_tested_witness :
exists s' l,
calculate Examples.parabola_beyond (construct []) = (Ret tt, s')
/\ result s' = Some (RNum (interpolate (xPoints Examples.parabola_beyond)
(yPoints Examples.parabola_beyond)
(xEval Examples.parabola_beyond)))
/\ logs s' = logs (construct []) ++ l
/\ warnings l = expected_warnings Examples.parabola_beyond.
Proof.
apply (lagrange_warns_as_tested Examples.parabola_beyond (construct [])).
vm_compute. reflexivity.
Defined.

End WarningFacts.
